(** * Cursor pagination for Mongoose: a shallow embedding and its properties

    The development follows the TypeScript source of the plugin
    ([isObjectId], [MongoIdSchema], [CursorSchema], [_getQuery],
    [encodeCursor], [decodeCursor], [stringifySortValue],
    [getFiltersFromCursor], [paginate]), of the object merge
    ([isObject], [deepMerge]) and of the key-only variant that uses it
    ([_getQuery] and [paginate] of [index.ts], in module [Index]).

    Modelling conventions:
    - a JavaScript string is a Rocq [string]: the sequence of the bytes of
      its UTF-8 form (for the ASCII text of keys and tokens, one byte per
      character);
    - a function that may throw returns a [completion];
    - the collection is a list of documents; [Model.find] filters it,
      sorts it by the sort rules and cuts it at the limit, and
      [Model.countDocuments] (in [index.ts], [Model.count]) counts what a
      filter selects.  The store does
      not fail, and [queryOpts] and [projection] are left at their
      defaults;
    - a filter is kept as the object the plugin builds, and is given the
      meaning MongoDB gives it on scalar fields: [$gt] and [$lt] compare
      within one type, sorting compares across types;
    - an object is the list of its own enumerable properties, in the
      order of [Object.keys]; its prototype is [Object.prototype]. *)

From Stdlib Require Import String Ascii List ZArith Lia Bool.
From stdpp Require Import base decidable option list sorting strings pretty.

Set Warnings "-register-all".

(* String concatenation computes on constructor-headed arguments. *)
#[local] Arguments String.append !_ _ : simpl nomatch.

Local Open Scope string_scope.
Local Open Scope list_scope.

(* ================================================================== *)
(** ** Regular expressions: the fragment used by [HEX_REGEX] *)
(* ================================================================== *)

(** A character class is a predicate on characters; the anchors [^] and
    [$] are built into [regex_test], which matches the whole input. *)
Inductive regex : Type :=
| Void
| Eps
| Class (p : ascii -> bool)
| Seq (r1 r2 : regex)
| Alt (r1 r2 : regex)
| Star (r : regex).

(** [r?] and [r+]. *)
Definition Opt (r : regex) : regex := Alt r Eps.
Definition Plus (r : regex) : regex := Seq r (Star r).

Fixpoint nullable (r : regex) : bool :=
  match r with
  | Void => false
  | Eps => true
  | Class _ => false
  | Seq r1 r2 => nullable r1 && nullable r2
  | Alt r1 r2 => nullable r1 || nullable r2
  | Star _ => true
  end.

(** Brzozowski derivative of [r] by the character [c]. *)
Fixpoint deriv (c : ascii) (r : regex) : regex :=
  match r with
  | Void => Void
  | Eps => Void
  | Class p => if p c then Eps else Void
  | Seq r1 r2 =>
      if nullable r1
      then Alt (Seq (deriv c r1) r2) (deriv c r2)
      else Seq (deriv c r1) r2
  | Alt r1 r2 => Alt (deriv c r1) (deriv c r2)
  | Star r1 => Seq (deriv c r1) (Star r1)
  end.

(** [RegExp.prototype.test] for a pattern of the form [^r$]. *)
Fixpoint regex_test (r : regex) (s : string) : bool :=
  match s with
  | EmptyString => nullable r
  | String c s' => regex_test (deriv c r) s'
  end.

(** The language of a regular expression. *)
Inductive re_matches : regex -> string -> Prop :=
| MEps : re_matches Eps ""
| MClass p c : p c = true -> re_matches (Class p) (String c "")
| MSeq r1 r2 s1 s2 :
    re_matches r1 s1 -> re_matches r2 s2 -> re_matches (Seq r1 r2) (s1 +:+ s2)
| MAltL r1 r2 s : re_matches r1 s -> re_matches (Alt r1 r2) s
| MAltR r1 r2 s : re_matches r2 s -> re_matches (Alt r1 r2) s
| MStar0 r : re_matches (Star r) ""
| MStarS r s1 s2 :
    re_matches r s1 -> re_matches (Star r) s2 -> re_matches (Star r) (s1 +:+ s2).

(** Character classes, with the [i] flag folded in. *)
Definition is_digit (c : ascii) : bool :=
  (48 <=? nat_of_ascii c)%nat && (nat_of_ascii c <=? 57)%nat.
Definition is_upper_AF (c : ascii) : bool :=
  (65 <=? nat_of_ascii c)%nat && (nat_of_ascii c <=? 70)%nat.
Definition is_lower_af (c : ascii) : bool :=
  (97 <=? nat_of_ascii c)%nat && (nat_of_ascii c <=? 102)%nat.

(** [[0-9A-F]] under [/i]. *)
Definition hex_class (c : ascii) : bool :=
  is_digit c || is_upper_AF c || is_lower_af c.

(** A literal character, and a literal letter under [/i]. *)
Definition lit (a : ascii) : regex := Class (Ascii.eqb a).
Definition lit_i (lower upper : ascii) : regex :=
  Class (fun c => Ascii.eqb lower c || Ascii.eqb upper c).

(** Every character of [s] satisfies [p]. *)
Fixpoint string_forall (p : ascii -> bool) (s : string) : bool :=
  match s with
  | EmptyString => true
  | String c s' => p c && string_forall p s'
  end.

(** The prefixes admitted by [(0x|0h)?] under [/i]. *)
Definition hex_prefixes : list string := [""; "0x"; "0X"; "0h"; "0H"].

(** [const HEX_REGEX = /^(0x|0h)?[0-9A-F]+$/i] *)
Definition HEX_REGEX : regex :=
  Seq (Opt (Alt (Seq (lit "0") (lit_i "x" "X")) (Seq (lit "0") (lit_i "h" "H"))))
      (Plus (Class hex_class)).

(* ================================================================== *)
(** ** JavaScript values reaching the validators *)
(* ================================================================== *)

(** The values [JSON.parse] can return, and [undefined].  A number is kept
    as the literal it was read from. *)
Inductive jsval : Type :=
| JUndefined
| JNull
| JBool (b : bool)
| JNumber (literal : string)
| JString (s : string)
| JArray (items : list jsval)
| JObject (props : list (string * jsval)).

(** [isObjectId]: [z.string().safeParse(value)] succeeds on strings only. *)
Definition isObjectId (value : jsval) : bool :=
  match value with
  | JString data =>
      let isHex := regex_test HEX_REGEX data in
      isHex && (String.length data =? 24)%nat
  | _ => false
  end.

(** The text of a key as the [id] getter of a document returns it: 24
    hexadecimal digits, the letters in lower case. *)
Definition key_text (s : string) : bool :=
  (String.length s =? 24)%nat &&
  string_forall (fun c => is_digit c || is_lower_af c) s.

(** [MongoIdSchema = z.string().min(24).refine((val) => isObjectId(val))]:
    the validated string, when all three checks pass. *)
Definition MongoIdSchema (value : jsval) : option string :=
  match value with
  | JString s =>
      if (24 <=? String.length s)%nat && isObjectId (JString s)
      then Some s else None
  | _ => None
  end.

(* ================================================================== *)
(** ** Completions: a call returns normally or throws *)
(* ================================================================== *)

Inductive exn : Type :=
| SyntaxError                  (* thrown by [JSON.parse] *)
| TypeError.                   (* thrown by [String] *)

Inductive completion (A : Type) : Type :=
| Normal (a : A)
| Throw (e : exn).
Arguments Normal {A} a.
Arguments Throw {A} e.

#[global] Instance completion_ret : MRet completion := fun A a => Normal a.
#[global] Instance completion_fmap : FMap completion :=
  fun A B f m => match m with Normal a => Normal (f a) | Throw e => Throw e end.
#[global] Instance completion_bind : MBind completion :=
  fun A B k m => match m with Normal a => k a | Throw e => Throw e end.

(* ================================================================== *)
(** ** Base64 (RFC 4648, standard alphabet, with padding) *)
(* ================================================================== *)

Definition base64_alphabet : string :=
  "ABCDEFGHIJKLMNOPQRSTUVWXYZabcdefghijklmnopqrstuvwxyz0123456789+/".

(** Six bits, most significant first. *)
Definition sextet : Type := (bool * bool * bool * bool * bool * bool)%type.

Definition sextet_to_nat (x : sextet) : nat :=
  let '(b5, b4, b3, b2, b1, b0) := x in
  (32 * Nat.b2n b5 + 16 * Nat.b2n b4 + 8 * Nat.b2n b3 +
   4 * Nat.b2n b2 + 2 * Nat.b2n b1 + Nat.b2n b0)%nat.

Definition sextet_of_nat (n : nat) : sextet :=
  (Nat.testbit n 5, Nat.testbit n 4, Nat.testbit n 3,
   Nat.testbit n 2, Nat.testbit n 1, Nat.testbit n 0).

Definition base64_char (x : sextet) : ascii :=
  match String.get (sextet_to_nat x) base64_alphabet with
  | Some c => c
  | None => "="%char
  end.

Fixpoint index_of (c : ascii) (s : string) : option nat :=
  match s with
  | EmptyString => None
  | String d r => if Ascii.eqb c d then Some 0%nat else option_map S (index_of c r)
  end.

Definition base64_value (c : ascii) : option sextet :=
  option_map sextet_of_nat (index_of c base64_alphabet).

(** Three bytes are regrouped into four sextets. *)
Definition sextets_of_triple (x y z : ascii) : sextet * sextet * sextet * sextet :=
  let '(Ascii x0 x1 x2 x3 x4 x5 x6 x7) := x in
  let '(Ascii y0 y1 y2 y3 y4 y5 y6 y7) := y in
  let '(Ascii z0 z1 z2 z3 z4 z5 z6 z7) := z in
  ((x7, x6, x5, x4, x3, x2), (x1, x0, y7, y6, y5, y4),
   (y3, y2, y1, y0, z7, z6), (z5, z4, z3, z2, z1, z0)).

Definition triple_of_sextets (a b c d : sextet) : ascii * ascii * ascii :=
  let '(a5, a4, a3, a2, a1, a0) := a in
  let '(b5, b4, b3, b2, b1, b0) := b in
  let '(c5, c4, c3, c2, c1, c0) := c in
  let '(d5, d4, d3, d2, d1, d0) := d in
  (Ascii b4 b5 a0 a1 a2 a3 a4 a5,
   Ascii c2 c3 c4 c5 b0 b1 b2 b3,
   Ascii d0 d1 d2 d3 d4 d5 c0 c1).

(** [Buffer.prototype.toString('base64')] *)
Fixpoint base64_encode (bytes : string) : string :=
  match bytes with
  | EmptyString => ""
  | String x EmptyString =>
      let '(a, b, _, _) := sextets_of_triple x zero zero in
      String (base64_char a) (String (base64_char b) "==")
  | String x (String y EmptyString) =>
      let '(a, b, c, _) := sextets_of_triple x y zero in
      String (base64_char a) (String (base64_char b) (String (base64_char c) "="))
  | String x (String y (String z rest)) =>
      let '(a, b, c, d) := sextets_of_triple x y z in
      String (base64_char a) (String (base64_char b)
        (String (base64_char c) (String (base64_char d) (base64_encode rest))))
  end.

(** A group of four alphabet characters. *)
Definition decode_quad (a b c d : ascii) : option string :=
  match base64_value a, base64_value b, base64_value c, base64_value d with
  | Some sa, Some sb, Some sc, Some sd =>
      let '(x, y, z) := triple_of_sextets sa sb sc sd in
      Some (String x (String y (String z "")))
  | _, _, _, _ => None
  end.

(** The last group, which may be padded: [xx==] carries one byte and
    [xxx=] two; the unused low bits are dropped. *)
Definition decode_last (a b c d : ascii) : option string :=
  if Ascii.eqb d "=" then
    if Ascii.eqb c "=" then
      match base64_value a, base64_value b with
      | Some sa, Some sb =>
          let '(x, _, _) := triple_of_sextets sa sb (sextet_of_nat 0) (sextet_of_nat 0) in
          Some (String x "")
      | _, _ => None
      end
    else
      match base64_value a, base64_value b, base64_value c with
      | Some sa, Some sb, Some sc =>
          let '(x, y, _) := triple_of_sextets sa sb sc (sextet_of_nat 0) in
          Some (String x (String y ""))
      | _, _, _ => None
      end
  else decode_quad a b c d.

(** [z.string().base64()] followed by [Buffer.from(v, 'base64')]: [None]
    when the text does not match zod's pattern
    [^([0-9a-zA-Z+/]{4})*(([0-9a-zA-Z+/]{2}==)|([0-9a-zA-Z+/]{3}=))?$],
    and otherwise the bytes it denotes. *)
Fixpoint base64_decode (s : string) : option string :=
  match s with
  | EmptyString => Some ""
  | String a (String b (String c (String d rest))) =>
      match rest with
      | EmptyString => decode_last a b c d
      | _ =>
          match decode_quad a b c d, base64_decode rest with
          | Some x, Some y => Some (x +:+ y)
          | _, _ => None
          end
      end
  | _ => None
  end.

(* ================================================================== *)
(** ** JSON text *)
(* ================================================================== *)

(** The double quote character. *)
Abbreviation dquote := ("034"%char).

Definition hex_digits_lower : string := "0123456789abcdef".

Definition hex_char (n : nat) : ascii :=
  match String.get n hex_digits_lower with
  | Some c => c
  | None => "0"%char
  end.

(** [JSON.stringify] of one character of a string: the quote, the
    backslash and the control characters are escaped. *)
Definition escape_char (c : ascii) : string :=
  let n := nat_of_ascii c in
  if Ascii.eqb c dquote then String "\" (String dquote "")
  else if Ascii.eqb c "\" then "\\"
  else if (n =? 8)%nat then "\b"
  else if (n =? 9)%nat then "\t"
  else if (n =? 10)%nat then "\n"
  else if (n =? 12)%nat then "\f"
  else if (n =? 13)%nat then "\r"
  else if (n <? 32)%nat then
    String "\" (String "u" (String "0" (String "0"
      (String (hex_char (n / 16)) (String (hex_char (n mod 16)) "")))))
  else String c "".

Fixpoint JSON_escape (s : string) : string :=
  match s with
  | EmptyString => ""
  | String c r => escape_char c +:+ JSON_escape r
  end.

(** [JSON.stringify] of a string value. *)
Definition JSON_quote (s : string) : string :=
  String dquote (JSON_escape s +:+ String dquote "").

(** *** Parsing *)

Definition is_ws (c : ascii) : bool :=
  Ascii.eqb c " " || Ascii.eqb c "009" || Ascii.eqb c "010" || Ascii.eqb c "013".

Fixpoint skip_ws (s : string) : string :=
  match s with
  | String c r => if is_ws c then skip_ws r else s
  | EmptyString => ""
  end.

Definition hex_value (c : ascii) : option N :=
  let n := N_of_ascii c in
  if is_digit c then Some (n - 48)%N
  else if is_upper_AF c then Some (n - 55)%N
  else if is_lower_af c then Some (n - 87)%N
  else None.

(** The code unit written [\uh1h2h3h4]. *)
Definition hex4 (h1 h2 h3 h4 : ascii) : option N :=
  match hex_value h1, hex_value h2, hex_value h3, hex_value h4 with
  | Some a, Some b, Some c, Some d => Some (4096 * a + 256 * b + 16 * c + d)%N
  | _, _, _, _ => None
  end.

Definition is_high_surrogate (u : N) : bool := (55296 <=? u)%N && (u <=? 56319)%N.
Definition is_low_surrogate (u : N) : bool := (56320 <=? u)%N && (u <=? 57343)%N.
Definition combine_surrogates (hi lo : N) : N :=
  (65536 + 1024 * (hi - 55296) + (lo - 56320))%N.

(** The bytes of a code point (an unpaired surrogate is written with the
    same three-byte scheme). *)
Definition utf8_bytes (cp : N) : string :=
  if (cp <? 128)%N then String (ascii_of_N cp) ""
  else if (cp <? 2048)%N then
    String (ascii_of_N (192 + cp / 64)) (String (ascii_of_N (128 + cp mod 64)) "")
  else if (cp <? 65536)%N then
    String (ascii_of_N (224 + cp / 4096))
      (String (ascii_of_N (128 + (cp / 64) mod 64))
         (String (ascii_of_N (128 + cp mod 64)) ""))
  else
    String (ascii_of_N (240 + cp / 262144))
      (String (ascii_of_N (128 + (cp / 4096) mod 64))
         (String (ascii_of_N (128 + (cp / 64) mod 64))
            (String (ascii_of_N (128 + cp mod 64)) ""))).

Definition simple_escape (e : ascii) : option ascii :=
  if Ascii.eqb e dquote then Some dquote
  else if Ascii.eqb e "\" then Some "\"%char
  else if Ascii.eqb e "/" then Some "/"%char
  else if Ascii.eqb e "b" then Some (ascii_of_nat 8)
  else if Ascii.eqb e "f" then Some (ascii_of_nat 12)
  else if Ascii.eqb e "n" then Some (ascii_of_nat 10)
  else if Ascii.eqb e "r" then Some (ascii_of_nat 13)
  else if Ascii.eqb e "t" then Some (ascii_of_nat 9)
  else None.

Definition prepend (p : string) (r : option (string * string)) : option (string * string) :=
  match r with
  | Some (s, rest) => Some (p +:+ s, rest)
  | None => None
  end.

(** The characters of a string literal after its opening quote, up to and
    including the closing quote; the result is the string denoted and the
    text that follows. *)
Fixpoint parse_string_body (s : string) : option (string * string) :=
  match s with
  | EmptyString => None
  | String c rest =>
      if Ascii.eqb c dquote then Some ("", rest)
      else if Ascii.eqb c "\" then
        match rest with
        | EmptyString => None
        | String e rest1 =>
            match simple_escape e with
            | Some ch => prepend (String ch "") (parse_string_body rest1)
            | None =>
                if Ascii.eqb e "u" then
                  match rest1 with
                  | String h1 (String h2 (String h3 (String h4 rest2))) =>
                      match hex4 h1 h2 h3 h4 with
                      | None => None
                      | Some hi =>
                          if is_high_surrogate hi then
                            match rest2 with
                            | String b (String u (String l1 (String l2 (String l3 (String l4 rest3))))) =>
                                match hex4 l1 l2 l3 l4 with
                                | Some lo =>
                                    if Ascii.eqb b "\" && Ascii.eqb u "u" && is_low_surrogate lo
                                    then prepend (utf8_bytes (combine_surrogates hi lo))
                                                 (parse_string_body rest3)
                                    else prepend (utf8_bytes hi) (parse_string_body rest2)
                                | None => prepend (utf8_bytes hi) (parse_string_body rest2)
                                end
                            | _ => prepend (utf8_bytes hi) (parse_string_body rest2)
                            end
                          else prepend (utf8_bytes hi) (parse_string_body rest2)
                      end
                  | _ => None
                  end
                else None
            end
        end
      else if (nat_of_ascii c <? 32)%nat then None
      else prepend (String c "") (parse_string_body rest)
  end.

Fixpoint span_digits (s : string) : string * string :=
  match s with
  | String c r =>
      if is_digit c
      then let '(ds, rest) := span_digits r in (String c ds, rest)
      else ("", s)
  | EmptyString => ("", "")
  end.

(** A number: an optional minus sign, an integer part without leading
    zeros, an optional fraction and an optional exponent; the literal read
    and the text that follows. *)
Definition parse_number (s : string) : option (string * string) :=
  let '(sign, s1) :=
    match s with
    | String c r => if Ascii.eqb c "-" then ("-", r) else ("", s)
    | EmptyString => ("", s)
    end in
  let int_part :=
    match s1 with
    | String c r =>
        if Ascii.eqb c "0" then Some ("0", r)
        else if is_digit c then let '(ds, rest) := span_digits r in Some (String c ds, rest)
        else None
    | EmptyString => None
    end in
  match int_part with
  | None => None
  | Some (i, s2) =>
      let frac_part :=
        match s2 with
        | String c r =>
            if Ascii.eqb c "." then
              let '(ds, rest) := span_digits r in
              if ds =? "" then None else Some (String "." ds, rest)
            else Some ("", s2)
        | EmptyString => Some ("", s2)
        end in
      match frac_part with
      | None => None
      | Some (f, s3) =>
          let exp_part :=
            match s3 with
            | String c r =>
                if Ascii.eqb c "e" || Ascii.eqb c "E" then
                  let '(sg, r1) :=
                    match r with
                    | String c1 r' =>
                        if Ascii.eqb c1 "+" || Ascii.eqb c1 "-"
                        then (String c1 "", r') else ("", r)
                    | EmptyString => ("", r)
                    end in
                  let '(ds, rest) := span_digits r1 in
                  if ds =? "" then None else Some (String c (sg +:+ ds), rest)
                else Some ("", s3)
            | EmptyString => Some ("", s3)
            end in
          match exp_part with
          | None => None
          | Some (e, s4) => Some (sign +:+ i +:+ f +:+ e, s4)
          end
      end
  end.

Fixpoint strip_prefix (p s : string) : option string :=
  match p, s with
  | EmptyString, _ => Some s
  | String a p', String b s' => if Ascii.eqb a b then strip_prefix p' s' else None
  | String _ _, EmptyString => None
  end.

(** Defining a property on an object: an existing key keeps its place and
    takes the new value. *)
Fixpoint obj_set {A} (k : string) (x : A) (o : list (string * A)) : list (string * A) :=
  match o with
  | [] => [(k, x)]
  | (k', y) :: o' => if k' =? k then (k, x) :: o' else (k', y) :: obj_set k x o'
  end.

Fixpoint obj_lookup {A} (k : string) (o : list (string * A)) : option A :=
  match o with
  | [] => None
  | (k', y) :: o' => if k' =? k then Some y else obj_lookup k o'
  end.

(** Reading a property: [undefined] when the key is absent. *)
Definition obj_get (k : string) (o : list (string * jsval)) : jsval :=
  match obj_lookup k o with
  | Some x => x
  | None => JUndefined
  end.

Definition make_object (members : list (string * jsval)) : jsval :=
  JObject (fold_left (fun o kv => obj_set (fst kv) (snd kv) o) members []).

Inductive presult (A : Type) : Type :=
| POk (a : A) (rest : string)
| PSyntax                      (* the text is not JSON *)
| PFuel.                       (* recursion budget exhausted *)
Arguments POk {A} a rest.
Arguments PSyntax {A}.
Arguments PFuel {A}.

(** A JSON value at the head of [s] (after white space).  Each call is
    given a budget; [JSON_parse] supplies one that is never exhausted. *)
Fixpoint parse_value (fuel : nat) (s : string) {struct fuel} : presult jsval :=
  match fuel with
  | O => PFuel
  | S f =>
      match skip_ws s with
      | EmptyString => PSyntax
      | String c r =>
          if Ascii.eqb c "{" then
            match skip_ws r with
            | EmptyString => PSyntax
            | String c1 r1 =>
                if Ascii.eqb c1 "}" then POk (JObject []) r1
                else
                  match parse_members f (String c1 r1) with
                  | POk ms rest => POk (make_object ms) rest
                  | PSyntax => PSyntax
                  | PFuel => PFuel
                  end
            end
          else if Ascii.eqb c "[" then
            match skip_ws r with
            | EmptyString => PSyntax
            | String c1 r1 =>
                if Ascii.eqb c1 "]" then POk (JArray []) r1
                else
                  match parse_elements f (String c1 r1) with
                  | POk vs rest => POk (JArray vs) rest
                  | PSyntax => PSyntax
                  | PFuel => PFuel
                  end
            end
          else if Ascii.eqb c dquote then
            match parse_string_body r with
            | Some (str, rest) => POk (JString str) rest
            | None => PSyntax
            end
          else if Ascii.eqb c "t" then
            match strip_prefix "rue" r with
            | Some rest => POk (JBool true) rest
            | None => PSyntax
            end
          else if Ascii.eqb c "f" then
            match strip_prefix "alse" r with
            | Some rest => POk (JBool false) rest
            | None => PSyntax
            end
          else if Ascii.eqb c "n" then
            match strip_prefix "ull" r with
            | Some rest => POk JNull rest
            | None => PSyntax
            end
          else
            match parse_number (String c r) with
            | Some (literal, rest) => POk (JNumber literal) rest
            | None => PSyntax
            end
      end
  end

(** The elements of an array after [[] or [,], up to the closing []]. *)
with parse_elements (fuel : nat) (s : string) {struct fuel} : presult (list jsval) :=
  match fuel with
  | O => PFuel
  | S f =>
      match parse_value f s with
      | POk x r =>
          match skip_ws r with
          | EmptyString => PSyntax
          | String c r1 =>
              if Ascii.eqb c "," then
                match parse_elements f r1 with
                | POk xs rest => POk (x :: xs) rest
                | PSyntax => PSyntax
                | PFuel => PFuel
                end
              else if Ascii.eqb c "]" then POk [x] r1
              else PSyntax
          end
      | PSyntax => PSyntax
      | PFuel => PFuel
      end
  end

(** The members of an object after [{] or [,], up to the closing [}]. *)
with parse_members (fuel : nat) (s : string) {struct fuel}
  : presult (list (string * jsval)) :=
  match fuel with
  | O => PFuel
  | S f =>
      match skip_ws s with
      | EmptyString => PSyntax
      | String q r =>
          if Ascii.eqb q dquote then
            match parse_string_body r with
            | None => PSyntax
            | Some (k, r1) =>
                match skip_ws r1 with
                | EmptyString => PSyntax
                | String c r2 =>
                    if Ascii.eqb c ":" then
                      match parse_value f r2 with
                      | POk x r3 =>
                          match skip_ws r3 with
                          | EmptyString => PSyntax
                          | String d r4 =>
                              if Ascii.eqb d "," then
                                match parse_members f r4 with
                                | POk ms rest => POk ((k, x) :: ms) rest
                                | PSyntax => PSyntax
                                | PFuel => PFuel
                                end
                              else if Ascii.eqb d "}" then POk [(k, x)] r4
                              else PSyntax
                          end
                      | PSyntax => PSyntax
                      | PFuel => PFuel
                      end
                    else PSyntax
                end
            end
          else PSyntax
      end
  end.

(** [JSON.parse]: the whole text is one value, or [SyntaxError] is thrown. *)
Definition JSON_parse (text : string) : completion jsval :=
  match parse_value (2 * String.length text + 2) text with
  | POk x rest => if skip_ws rest =? "" then Normal x else Throw SyntaxError
  | PSyntax => Throw SyntaxError
  | PFuel => Throw SyntaxError
  end.

(* ================================================================== *)
(** ** Built-in conversions taken as parameters *)
(* ================================================================== *)

(** Number formatting is floating-point arithmetic and date formatting is
    calendar arithmetic; the development is parametric in both. *)
Class Builtins : Type := {
  (** [String(x)] for the number [x] that a JSON number literal denotes *)
  NumberLiteralToString : string -> string;
  (** [JSON.stringify(n)] for a number [n] *)
  NumberToString : Z -> string;
  (** [Date.prototype.toISOString], from the time value in milliseconds *)
  toISOString : Z -> string
}.

(** An instance for runs in which no number and no date occurs. *)
Definition sample_builtins : Builtins :=
  {| NumberLiteralToString := fun literal => literal;
     NumberToString := fun n => "0";
     toISOString := fun ms => "1970-01-01T00:00:00.000Z" |}.

(** The result of a pagination query ([interface Paginated<T>]). *)
Module Paginated.
Record t (T : Type) : Type := mk {
  data : list T;
  totalCount : nat;
  nextCursor : option string;
  prevCursor : option string
}.
Arguments mk {T} data totalCount nextCursor prevCursor.
Arguments data {T} _.
Arguments totalCount {T} _.
Arguments nextCursor {T} _.
Arguments prevCursor {T} _.
End Paginated.

(** [SortOrderEnum = z.enum(['asc', 'desc'])] *)
Inductive SortOrderType : Type := asc | desc.

(** The sort direction, [-1 | 1]. *)
Inductive SortDirection : Type :=
| Descending                   (* -1 *)
| Ascending.                   (*  1 *)

(** The filter operator key, ['$gt' | '$lt']. *)
Inductive Operator : Type :=
| op_gt                        (* '$gt' *)
| op_lt.                       (* '$lt' *)

(** [interface QueryOrderResult]: each entry is the pair of the sorting
    direction and the filter operator key. *)
Record QueryOrderResult : Type := {
  current : SortDirection * Operator;
  next : SortDirection * Operator;
  prev : SortDirection * Operator
}.

(** [PaginationFields = z.infer<typeof PaginationSchema>] *)
Record PaginationFields : Type := {
  nextCursor : option string;
  prevCursor : option string;
  order : SortOrderType;
  limit : nat;
  sortBy : string
}.

(** [type DecodedCursor]: [{ id: string; v?: string }] *)
Record DecodedCursor : Type := {
  id : string;
  v : option string
}.

(** *** Documents and their values *)

(** The values of a sort field, and what [ParseSortValueFn] may return
    ([VNull] stands for [null], [undefined] and a missing field). *)
Inductive value : Type :=
| VNull
| VNumber (n : Z)
| VString (s : string)
| VObjectId (hex : string)
| VDate (ms : Z).

(** A stored document: its key (the hexadecimal text of an ObjectId, which
    is what the [id] getter of a document returns) and its other fields. *)
Record doc : Type := {
  _id : string;
  fields : list (string * value)
}.

(** [doc[path]] *)
Definition doc_get (d : doc) (path : string) : value :=
  if path =? "_id" then VObjectId (_id d)
  else match obj_lookup path (fields d) with
       | Some x => x
       | None => VNull
       end.

(** *** Filters and sort rules, as the plugin builds them *)

(** What a filter requires of one path: [{ path: x }] or
    [{ path: { $gt: x } }] / [{ path: { $lt: x } }]. *)
Inductive condition : Type :=
| Equals (x : value)
| Compare (op : Operator) (x : value).

(** [FilterQuery]: an object of path conditions, [{ $or: [...] }],
    [{ $and: [...] }], or a filter supplied by the caller, which is
    represented by the set of documents it selects. *)
Inductive FilterQuery : Type :=
| Fields (conds : list (string * condition))
| Or (alternatives : list FilterQuery)
| And (parts : list FilterQuery)
| Base (selects : doc -> bool).

(** [Record<string, 1 | -1>], in key order. *)
Definition SortRules : Type := list (string * SortDirection).

(** The options of [paginate] ([interface PaginateOpts<T>]); [queryOpts]
    and [projection] are left at their defaults. *)
Record PaginateOpts : Type := {
  pagination : PaginationFields;
  filters : option (doc -> bool);
  parseSortValue : option (string -> value)
}.

(** The object [_getQuery] returns. *)
Record Query : Type := {
  q_filter : FilterQuery;
  q_cursor : option DecodedCursor;
  q_sort : SortRules;
  q_order : QueryOrderResult;
  q_reverse : bool;
  q_limit : nat
}.

(* ================================================================== *)
(** ** The document store *)
(* ================================================================== *)

(** Comparison order of the value types. *)
Definition type_rank (x : value) : nat :=
  match x with
  | VNull => 0
  | VNumber _ => 1
  | VString _ => 2
  | VObjectId _ => 3
  | VDate _ => 4
  end.

(** The total order used for sorting: first by type, then by value. *)
Definition value_compare (a b : value) : comparison :=
  match a, b with
  | VNull, VNull => Eq
  | VNumber x, VNumber y => Z.compare x y
  | VString x, VString y => String.compare x y
  | VObjectId x, VObjectId y => String.compare x y
  | VDate x, VDate y => Z.compare x y
  | _, _ => Nat.compare (type_rank a) (type_rank b)
  end.

(** A query value for the key path is cast to the key type, and keys are
    compared as their texts.  That is the order of the store for keys
    written as the [id] getter returns them (see [key_text]): 24
    hexadecimal digits in lower case.  A text in another form that
    [isObjectId] accepts is outside the model: the driver reads upper-case
    digits by their value and refuses a prefix [0x] or [0h].  Other paths
    are compared as given, which is what the store does with a field
    declared as a string, or with a text that [parseSortValue] turns into
    the type of the field; the cast of a text to another declared type is
    not modelled. *)
Definition cast_query_value (path : string) (x : value) : value :=
  if path =? "_id"
  then match x with VString s => VObjectId s | _ => x end
  else x.

(** [$gt] and [$lt] select values of the type of their operand only. *)
Definition condition_holds (path : string) (x : value) (c : condition) : bool :=
  match c with
  | Equals q =>
      match value_compare x (cast_query_value path q) with Eq => true | _ => false end
  | Compare op q =>
      let q' := cast_query_value path q in
      (type_rank x =? type_rank q')%nat &&
      match op, value_compare x q' with
      | op_gt, Gt => true
      | op_lt, Lt => true
      | _, _ => false
      end
  end.

Fixpoint matches_filter (f : FilterQuery) (d : doc) : bool :=
  match f with
  | Fields conds =>
      forallb (fun pc => condition_holds (fst pc) (doc_get d (fst pc)) (snd pc)) conds
  | Or alternatives => existsb (fun g => matches_filter g d) alternatives
  | And parts => forallb (fun g => matches_filter g d) parts
  | Base selects => selects d
  end.

Definition apply_direction (dir : SortDirection) (c : comparison) : comparison :=
  match dir with
  | Ascending => c
  | Descending => CompOpp c
  end.

(** Documents compared by the sort rules, the first rule first. *)
Fixpoint compare_docs (rules : SortRules) (d1 d2 : doc) : comparison :=
  match rules with
  | [] => Eq
  | (path, dir) :: rules' =>
      match apply_direction dir (value_compare (doc_get d1 path) (doc_get d2 path)) with
      | Eq => compare_docs rules' d1 d2
      | c => c
      end
  end.

Definition sorted_before (rules : SortRules) (d1 d2 : doc) : Prop :=
  compare_docs rules d1 d2 <> Gt.

#[global] Instance sorted_before_dec rules d1 d2 : Decision (sorted_before rules d1 d2).
Proof. unfold sorted_before. apply _. Defined.

(** [Model.find(filter, null, { sort, limit })]; a limit of zero means no
    limit. *)
Definition Model_find (this : list doc) (f : FilterQuery) (rules : SortRules)
    (n : nat) : list doc :=
  let hits := merge_sort (sorted_before rules) (List.filter (matches_filter f) this) in
  if (n =? 0)%nat then hits else take n hits.

(** [Model.countDocuments(filter)] *)
Definition Model_countDocuments (this : list doc) (f : FilterQuery) : nat :=
  length (List.filter (matches_filter f) this).

(* ================================================================== *)
(** ** Deep merge of objects ([deep-merge.ts]) *)
(* ================================================================== *)

(** Objects are followed through their own enumerable properties, which
    is what the spread, [Object.keys] and [Object.assign] read and write;
    every object has [Object.prototype] as its prototype. *)

(** [isObject]: [!!item && typeof item === 'object' && !Array.isArray(item)] *)
Definition isObject (item : jsval) : bool :=
  match item with
  | JObject _ => true
  | _ => false
  end.

(** The strings of the UTF-16 code units of a string: one for a character
    of one, two or three bytes, and the two surrogates for a character of
    four bytes. *)
Fixpoint code_units (s : string) : list string :=
  match s with
  | EmptyString => []
  | String b0 rest =>
      let n0 := N_of_ascii b0 in
      if (n0 <? 128)%N then String b0 "" :: code_units rest
      else if (n0 <? 224)%N then
        match rest with
        | String b1 rest1 => String b0 (String b1 "") :: code_units rest1
        | _ => [s]
        end
      else if (n0 <? 240)%N then
        match rest with
        | String b1 (String b2 rest2) =>
            String b0 (String b1 (String b2 "")) :: code_units rest2
        | _ => [s]
        end
      else
        match rest with
        | String b1 (String b2 (String b3 rest3)) =>
            let cp := (262144 * (n0 - 240) + 4096 * (N_of_ascii b1 - 128)
                       + 64 * (N_of_ascii b2 - 128) + (N_of_ascii b3 - 128))%N in
            utf8_bytes (55296 + (cp - 65536) / 1024)
            :: utf8_bytes (56320 + (cp - 65536) mod 1024)
            :: code_units rest3
        | _ => [s]
        end
  end.

(** The properties that the spread [{ ...x }] copies: those of an object,
    the elements of an array and the code units of a string under their
    indices, and none of any other value. *)
Definition spread (x : jsval) : list (string * jsval) :=
  match x with
  | JObject props => props
  | JArray items => imap (fun i item => (pretty i, item)) items
  | JString s => imap (fun i unit => (pretty i, JString unit)) (code_units s)
  | _ => []
  end.

(** The names of the properties of [Object.prototype]. *)
Definition Object_prototype_keys : list string :=
  [ "constructor"; "__defineGetter__"; "__defineSetter__"; "hasOwnProperty";
    "__lookupGetter__"; "__lookupSetter__"; "isPrototypeOf";
    "propertyIsEnumerable"; "toString"; "valueOf"; "__proto__";
    "toLocaleString" ].

Definition has_own (key : string) (props : list (string * jsval)) : bool :=
  match obj_lookup key props with
  | Some _ => true
  | None => false
  end.

(** [key in object] *)
Definition has_property (key : string) (props : list (string * jsval)) : bool :=
  has_own key props || bool_decide (key ∈ Object_prototype_keys).

(** [object[key] = x], also as [Object.assign(object, { [key]: x })]
    performs it.  The name [__proto__], unless it is an own property, is
    the accessor of [Object.prototype]: assigning to it adds no
    property. *)
Definition assign (key : string) (x : jsval) (props : list (string * jsval))
  : list (string * jsval) :=
  if (key =? "__proto__") && negb (has_own key props) then props
  else obj_set key x props.

(** [deepMerge].  The keys of [source] are visited with their values,
    in the order of [Object.keys].  When [key in target] holds for a key
    that [target] does not own, [target[key]] is a method of
    [Object.prototype], of which the spread is empty and which is not an
    object for [isObject]: the inner call returns the empty object. *)
Fixpoint deepMerge (target source : jsval) {struct source} : jsval :=
  let output := spread target in
  match target, source with
  | JObject tprops, JObject sprops =>
      JObject
        (fold_left
           (fun output member =>
              let '(key, x) := member in
              if isObject x then
                if negb (has_property key tprops) then assign key x output
                else assign key
                       (if has_own key tprops
                        then deepMerge (obj_get key tprops) x
                        else JObject [])
                       output
              else assign key x output)
           sprops output)
  | _, _ => JObject output
  end.

(** The values in which the keys of every object are distinct. *)
Fixpoint well_formed (x : jsval) : bool :=
  match x with
  | JObject props =>
      bool_decide (NoDup (map fst props)) &&
      forallb (fun member => well_formed (snd member)) props
  | JArray items => forallb well_formed items
  | _ => true
  end.

(* ================================================================== *)
(** ** The query of the key-only variant ([index.ts]) *)
(* ================================================================== *)

Module Index.

(** [PaginationFields = z.infer<typeof PaginationSchema>] *)
Record PaginationFields : Type := {
  nextCursor : option string;
  prevCursor : option string;
  order : SortOrderType;
  limit : nat
}.

(** [interface SortOrderResult] *)
Record SortOrderResult : Type := {
  sortOrder : SortDirection;
  key : Operator;
  query : SortOrderType;
  prevKey : Operator;
  nextKey : Operator
}.

(** The object [_getQuery] returns; [sort] is [{ _id: order.sortOrder }]. *)
Record Query : Type := {
  q_filter : jsval;
  q_sort : SortRules;
  q_order : SortOrderResult;
  q_reverse : bool;
  q_limit : nat
}.

Definition operator_key (op : Operator) : string :=
  match op with
  | op_gt => "$gt"
  | op_lt => "$lt"
  end.

(** A string used as a condition: absent and empty are both false. *)
Definition given (s : option string) : bool :=
  match s with
  | Some x => negb (x =? "")
  | None => false
  end.

(** [_getQuery]; [mergeFilters] is [JUndefined] when it is left out. *)
Definition _getQuery (query : PaginationFields) (mergeFilters : jsval) : Query :=
  let is_desc := match order query with desc => true | asc => false end in
  let order0 : SortOrderResult :=
    {| query := order query;
       sortOrder := if is_desc then Descending else Ascending;
       key := if is_desc then op_gt else op_lt;
       prevKey := if is_desc then op_gt else op_lt;
       nextKey := if is_desc then op_lt else op_gt |} in
  let '(cursor, reverse, order1) :=
    if given (prevCursor query) then
      (default "" (prevCursor query), true,
       {| query := order query;
          sortOrder := if is_desc then Ascending else Descending;
          key := if is_desc then op_gt else op_lt;
          prevKey := prevKey order0;
          nextKey := nextKey order0 |})
    else if given (nextCursor query) then
      (default "" (nextCursor query), false,
       {| query := order query;
          sortOrder := if is_desc then Descending else Ascending;
          key := if is_desc then op_lt else op_gt;
          prevKey := prevKey order0;
          nextKey := nextKey order0 |})
    else ("", false, order0) in
  let sort : SortRules := [("_id", sortOrder order1)] in
  let _filter : jsval :=
    if cursor =? "" then JObject []
    else JObject [("_id", JObject [(operator_key (key order1), JString cursor)])] in
  let filter := deepMerge _filter mergeFilters in
  {| q_filter := filter; q_sort := sort; q_order := order1;
     q_reverse := reverse; q_limit := limit query |}.

(** *** The pagination of the key-only variant *)

(** [interface Paginated<T>] of [index.ts] *)
Module Paginated.
Record t : Type := mk {
  data : list doc;
  nextCursor : option string;
  prevCursor : option string
}.
End Paginated.

(** [interface PaginateOpts<T>]; [filters] is [JUndefined] when it is
    left out, and [queryOpts] and [projection] are left at their
    defaults. *)
Record PaginateOpts : Type := {
  pagination : PaginationFields;
  filters : jsval
}.

(** The meaning that the store gives to the condition that a filter
    holds under a key.  The model itself reads the conditions [$gt] and
    [$lt] on [_id] with a text for operand; every other condition is
    left to the store. *)
Class Conditions : Type := {
  meets : string -> jsval -> doc -> bool
}.

Section Store.
Context {conditions : Conditions}.

Definition operator_of (name : string) : option Operator :=
  if name =? "$gt" then Some op_gt
  else if name =? "$lt" then Some op_lt
  else None.

(** The conditions [{ $gt: c, ... }] on [_id]: all of them hold. *)
Definition id_holds (operators : list (string * jsval)) (d : doc) : bool :=
  forallb
    (fun condition =>
       match operator_of (fst condition), snd condition with
       | Some op, JString c =>
           condition_holds "_id" (doc_get d "_id") (Compare op (VString c))
       | _, _ => meets "_id" (JObject [condition]) d
       end)
    operators.

(** A filter object selects the documents that meet the conditions of all
    its keys. *)
Definition selects (filter : jsval) (d : doc) : bool :=
  match filter with
  | JObject props =>
      forallb
        (fun member =>
           match fst member =? "_id", snd member with
           | true, JObject operators => id_holds operators d
           | _, _ => meets (fst member) (snd member) d
           end)
        props
  | _ => true
  end.

(** [Model.find(filter, null, { sort, limit })] and [Model.count(filter)] *)
Definition Model_find (this : list doc) (filter : jsval) (sort : SortRules)
    (n : nat) : list doc :=
  let hits := merge_sort (sorted_before sort) (List.filter (selects filter) this) in
  if (n =? 0)%nat then hits else take n hits.

Definition Model_count (this : list doc) (filter : jsval) : nat :=
  length (List.filter (selects filter) this).

(** [{ ...opts.filters, _id: { [operator]: id } }] *)
Definition probe_filter (filters : jsval) (operator : Operator) (id : string) : jsval :=
  JObject (obj_set "_id" (JObject [(operator_key operator, JString id)]) (spread filters)).

(** [paginate] of [index.ts] *)
Definition paginate (this : list doc) (opts : PaginateOpts) : Paginated.t :=
  let query := _getQuery (pagination opts) (filters opts) in
  let fetched := Model_find this (q_filter query) (q_sort query) (q_limit query) in
  let docs := if q_reverse query then rev fetched else fetched in
  match docs with
  | [] => Paginated.mk docs None None
  | first :: _ =>
      let final := List.last docs first in
      let hasNext :=
        negb (Model_count this
                (probe_filter (filters opts) (nextKey (q_order query)) (_id final)) =? 0)%nat in
      let hasPrev :=
        negb (Model_count this
                (probe_filter (filters opts) (prevKey (q_order query)) (_id first)) =? 0)%nat in
      Paginated.mk docs
        (if hasNext then Some (_id final) else None)
        (if hasPrev then Some (_id first) else None)
  end.

(** Calls [paginate] with each returned [nextCursor], at most [calls]
    times: the responses received, and whether the last one had no
    [nextCursor]. *)
Fixpoint follow_next (calls : nat) (this : list doc) (opts : PaginateOpts)
    (token : option string) : list Paginated.t * bool :=
  match calls with
  | O => ([], false)
  | S calls' =>
      let page :=
        paginate this
          {| pagination := {| nextCursor := token; prevCursor := None;
                              order := order (pagination opts);
                              limit := limit (pagination opts) |};
             filters := filters opts |} in
      match Paginated.nextCursor page with
      | None => ([page], true)
      | Some token' =>
          let '(pages, finished) := follow_next calls' this opts (Some token') in
          (page :: pages, finished)
      end
  end.

End Store.

End Index.

(* ================================================================== *)
(** ** Sample data for concrete runs *)
(* ================================================================== *)

(** A key: 23 zeros and a last digit. *)
Definition key (last : string) : string := "00000000000000000000000" +:+ last.

(** Five documents with keys 1 to 5, in insertion order 3, 1, 5, 2, 4. *)
Definition five_docs : list doc :=
  map (fun n => {| _id := key n; fields := [] |}) ["3"; "1"; "5"; "2"; "4"].

(** A request sorted by key, without base filter and without parser. *)
Definition request_by_key (o : SortOrderType) (n : nat)
    (next_token prev_token : option string) : PaginateOpts :=
  {| pagination := {| nextCursor := next_token; prevCursor := prev_token;
                      order := o; limit := n; sortBy := "_id" |};
     filters := None;
     parseSortValue := None |}.

(** Five people, two pairs of whom share a name. *)
Definition person (k name : string) : doc :=
  {| _id := key k; fields := [("name", VString name)] |}.

Definition people : list doc :=
  [person "1" "bob"; person "2" "amy"; person "3" "bob";
   person "4" "cat"; person "5" "amy"].

(** A request sorted by name, without base filter and without parser. *)
Definition request_by_name (o : SortOrderType) (n : nat) : PaginateOpts :=
  {| pagination := {| nextCursor := None; prevCursor := None;
                      order := o; limit := n; sortBy := "name" |};
     filters := None;
     parseSortValue := None |}.

(** Two documents, the first of which has no name. *)
Definition nameless_and_named : list doc :=
  [ {| _id := key "2"; fields := [] |}; person "1" "dan" ].

(** The filters of a caller, and an object with nested conditions. *)
Definition open_tickets : list (string * jsval) :=
  [("status", JString "open"); ("owner", JObject [("$in", JArray [JString "amy"; JString "bob"])])].

Definition recent_open_tickets : list (string * jsval) :=
  [("owner", JObject [("$ne", JString "cat")]); ("age", JNumber "7")].

(** A request of the key-only variant, in descending order. *)
Definition key_request (next_token prev_token : option string) : Index.PaginationFields :=
  {| Index.nextCursor := next_token; Index.prevCursor := prev_token;
     Index.order := desc; Index.limit := 10 |}.

(** A store that reads [{ path: text }] as the equality of the field with
    the text; no document meets another condition that is left to it. *)
Definition sample_conditions : Index.Conditions :=
  {| Index.meets path x d :=
       match x, doc_get d path with
       | JString s, VString t => (s =? t)%string
       | _, _ => false
       end |}.

(** A request of the key-only variant in ascending order, without cursor. *)
Definition people_by_key (filters : jsval) (n : nat) : Index.PaginateOpts :=
  {| Index.pagination := {| Index.nextCursor := None; Index.prevCursor := None;
                            Index.order := asc; Index.limit := n |};
     Index.filters := filters |}.

(* ================================================================== *)
(** ** The plugin *)
(* ================================================================== *)

Section Pagination.
Context {builtins : Builtins}.

(** *** Cursor codec *)

(** [String(x)], the coercion of [z.string({ coerce: true })].  An array
    is joined ([Array.prototype.join]), its elements converted from left to
    right.  An object is converted by the [toString] it has: the one of
    [Object.prototype], unless it has an own property [toString]; in a
    value read by [JSON.parse] that property is no function, and neither
    is what [valueOf] returns a primitive, so the conversion throws
    [TypeError]. *)
Fixpoint ToString (x : jsval) : completion string :=
  match x with
  | JUndefined => Normal "undefined"
  | JNull => Normal "null"
  | JBool b => Normal (if b then "true" else "false")
  | JNumber literal => Normal (NumberLiteralToString literal)
  | JString s => Normal s
  | JArray items =>
      parts ← (fix join (items : list jsval) : completion (list string) :=
                 match items with
                 | [] => Normal []
                 | i :: rest =>
                     part ← match i with
                            | JUndefined | JNull => Normal ""
                            | _ => ToString i
                            end;
                     parts ← join rest;
                     Normal (part :: parts)
                 end) items;
      Normal (String.concat "," parts)
  | JObject props =>
      match obj_lookup "toString" props with
      | Some _ => Throw TypeError
      | None => Normal "[object Object]"
      end
  end.


(** The object schema of [CursorSchema]:
    [z.object({ id: MongoIdSchema, v: z.string({ coerce: true }).optional() })].
    A value that is no object fails at once; of an object every key of
    the shape is parsed, [id] first and then [v], also when [id] fails: the
    exception of the coercion of [v] leaves the schema whatever [id] is. *)
Definition CursorObjectSchema (input : jsval) : completion (option DecodedCursor) :=
  match input with
  | JObject props =>
      let parsed_id := MongoIdSchema (obj_get "id" props) in
      parsed_v ← match obj_get "v" props with
                 | JUndefined => Normal None
                 | x => Some <$> ToString x
                 end;
      Normal match parsed_id with
             | Some i => Some {| id := i; v := parsed_v |}
             | None => None
             end
  | _ => Normal None
  end.

(** [CursorSchema.safeParse]: the data on success, [None] on failure.  The
    transform [JSON.parse(Buffer.from(v, 'base64').toString('utf8'))] runs
    only on text that passed [.base64()]; zod catches neither what a
    transform throws nor what a coercion throws, so the [SyntaxError] of
    [JSON.parse] and the [TypeError] of [String] leave [safeParse] as
    exceptions. *)
Definition CursorSchema_safeParse (input : string) : completion (option DecodedCursor) :=
  match base64_decode input with
  | None => Normal None
  | Some text =>
      parsed ← JSON_parse text;
      CursorObjectSchema parsed
  end.

(** [JSON.stringify(cursor)]: an undefined [v] is left out. *)
Definition JSON_stringify_cursor (cursor : DecodedCursor) : string :=
  "{" +:+ JSON_quote "id" +:+ ":" +:+ JSON_quote (id cursor) +:+
  match v cursor with
  | Some x => "," +:+ JSON_quote "v" +:+ ":" +:+ JSON_quote x
  | None => ""
  end +:+ "}".

(** [encodeCursor]: [Buffer.from(JSON.stringify(cursor)).toString('base64')] *)
Definition encodeCursor (cursor : DecodedCursor) : string :=
  base64_encode (JSON_stringify_cursor cursor).

(** [decodeCursor] *)
Definition decodeCursor (encoded : string) : completion (option DecodedCursor) :=
  result ← CursorSchema_safeParse encoded;
  match result with
  | None => Normal None
  | Some data => Normal (Some data)
  end.

(** [stringifySortValue] *)
Definition stringifySortValue (x : value) : option string :=
  match x with
  | VNull => None
  | VDate ms => Some (toISOString ms)
  | VString s => Some s
  | VNumber n => Some (NumberToString n)
  | VObjectId hex => Some (JSON_quote hex)
  end.

(** *** Filter builder *)

(** [getFiltersFromCursor] *)
Definition getFiltersFromCursor (cursor : option DecodedCursor)
    (order : SortDirection * Operator)
    (sort_by : string) (sort_parse : option (string -> value))
    (baseFilters : option (doc -> bool)) : FilterQuery * SortRules :=
  let sortRules : SortRules :=
    if sort_by =? "_id" then [("_id", fst order)]
    else obj_set "_id" (fst order) [(sort_by, fst order)] in
  let with_base (filter : FilterQuery) : FilterQuery :=
    match baseFilters with
    | Some b => And [filter; Base b]
    | None => filter
    end in
  match cursor with
  | None => (with_base (Fields []), sortRules)
  | Some c =>
      match v c with
      | Some cv =>
          let parsedSortValue :=
            match sort_parse with
            | Some parse => parse cv
            | None => VString cv
            end in
          (with_base
             (Or [ Fields [(sort_by, Compare (snd order) parsedSortValue)];
                   Fields (obj_set "_id" (Compare (snd order) (VString (id c)))
                             [(sort_by, Equals parsedSortValue)]) ]),
           sortRules)
      | None =>
          (with_base (Fields [("_id", Compare (snd order) (VString (id c)))]),
           sortRules)
      end
  end.

(** The filter and the sort rules in the words of the specification:
    without a cursor the base filter alone; with a cursor without [v], the
    key compared with [cursor.id]; with a cursor with [v], the sort field
    compared with the parsed value, or equal to it with the key compared
    with [cursor.id]; each ANDed with the base filter. *)
Definition spec_filter_selects (cursor : option DecodedCursor)
    (order : SortDirection * Operator) (sort_by : string)
    (sort_parse : option (string -> value))
    (baseFilters : option (doc -> bool)) (d : doc) : bool :=
  let key_beyond (c : DecodedCursor) :=
    condition_holds "_id" (doc_get d "_id") (Compare (snd order) (VString (id c))) in
  match cursor with
  | None => true
  | Some c =>
      match v c with
      | None => key_beyond c
      | Some cv =>
          let parsed := match sort_parse with
                        | Some parse => parse cv
                        | None => VString cv
                        end in
          condition_holds sort_by (doc_get d sort_by) (Compare (snd order) parsed)
          || (condition_holds sort_by (doc_get d sort_by) (Equals parsed)
              && key_beyond c)
      end
  end
  && match baseFilters with
     | Some b => b d
     | None => true
     end.

Definition spec_sort_rules (order : SortDirection * Operator) (sort_by : string)
  : SortRules :=
  if sort_by =? "_id" then [("_id", fst order)]
  else [(sort_by, fst order); ("_id", fst order)].

(** *** Direction resolver *)

(** A string used as a condition: absent and empty are both false. *)
Definition truthy (s : option string) : option string :=
  match s with
  | Some x => if x =? "" then None else Some x
  | None => None
  end.

(** [_getQuery] *)
Definition _getQuery (query : PaginationFields)
    (parse : option (string -> value))
    (baseFilters : option (doc -> bool)) : completion Query :=
  let is_desc := match order query with desc => true | asc => false end in
  let order0 : QueryOrderResult :=
    {| current := if is_desc then (Descending, op_gt) else (Ascending, op_lt);
       next := if is_desc then (Ascending, op_lt) else (Descending, op_gt);
       prev := if is_desc then (Descending, op_gt) else (Ascending, op_lt) |} in
  '(cursor, reverse, order1) ←
    match truthy (prevCursor query) with
    | Some token =>
        cursor ← decodeCursor token;
        Normal (cursor, true,
                {| current := if is_desc then (Ascending, op_gt) else (Descending, op_lt);
                   next := next order0; prev := prev order0 |})
    | None =>
        match truthy (nextCursor query) with
        | Some token =>
            cursor ← decodeCursor token;
            Normal (cursor, false,
                    {| current := if is_desc then (Descending, op_lt) else (Ascending, op_gt);
                       next := next order0; prev := prev order0 |})
        | None => Normal (None, false, order0)
        end
    end;
  let '(filter, sort) :=
    getFiltersFromCursor cursor (current order1) (sortBy query) parse baseFilters in
  Normal {| q_filter := filter; q_cursor := cursor; q_sort := sort;
            q_order := order1; q_reverse := reverse; q_limit := limit query |}.

(** The traversal mode of a request, and the tables of the
    specification: the pair and the reversal flag of the current fetch,
    and the pairs of the two boundary probes. *)
Inductive TraversalMode : Type := initial | forward | backward.

Definition traversal_mode (query : PaginationFields) : TraversalMode :=
  match truthy (prevCursor query), truthy (nextCursor query) with
  | Some _, _ => backward
  | None, Some _ => forward
  | None, None => initial
  end.

Definition spec_current_table (o : SortOrderType) (m : TraversalMode)
  : (SortDirection * Operator) * bool :=
  match o, m with
  | desc, initial => ((Descending, op_lt), false)
  | desc, forward => ((Descending, op_lt), false)
  | desc, backward => ((Ascending, op_gt), true)
  | asc, initial => ((Ascending, op_gt), false)
  | asc, forward => ((Ascending, op_gt), false)
  | asc, backward => ((Descending, op_lt), true)
  end.

Definition spec_next_pair (o : SortOrderType) : SortDirection * Operator :=
  match o with
  | desc => (Descending, op_lt)
  | asc => (Ascending, op_gt)
  end.

Definition spec_prev_pair (o : SortOrderType) : SortDirection * Operator :=
  match o with
  | desc => (Ascending, op_gt)
  | asc => (Descending, op_lt)
  end.

(** The request with its [nextCursor] removed, and with both removed. *)
Definition without_nextCursor (query : PaginationFields) : PaginationFields :=
  {| nextCursor := None; prevCursor := prevCursor query; order := order query;
     limit := limit query; sortBy := sortBy query |}.

Definition without_cursors (query : PaginationFields) : PaginationFields :=
  {| nextCursor := None; prevCursor := None; order := order query;
     limit := limit query; sortBy := sortBy query |}.

(** *** Pagination orchestrator *)

(** The cursor built from a fetched document. *)
Definition cursor_of_doc (sort_by : string) (d : doc) : DecodedCursor :=
  {| id := _id d;
     v := if sort_by =? "_id" then None else stringifySortValue (doc_get d sort_by) |}.

(** The body of [paginate] once [_getQuery] has returned [query]: one
    [find], then the two boundary probes. *)
Definition run_query (this : list doc) (opts : PaginateOpts) (query : Query)
  : Paginated.t doc :=
  let fetched := Model_find this (q_filter query) (q_sort query) (q_limit query) in
  let docs := if q_reverse query then rev fetched else fetched in
  let sort_by := sortBy (pagination opts) in
  match docs with
  | [] => Paginated.mk docs 0 None None
  | first :: _ =>
      let totalCount := length docs in
      (* are there more items after the last one? *)
      let candidate :=
        if (length docs =? limit (pagination opts))%nat
        then Some (cursor_of_doc sort_by (List.last docs first))
        else None in
      let '(nextCursor, totalCount) :=
        match candidate with
        | Some c =>
            let nextFilter :=
              fst (getFiltersFromCursor (Some c) (next (q_order query)) sort_by
                     (parseSortValue opts) (filters opts)) in
            let nextCount := Model_countDocuments this nextFilter in
            (if (nextCount =? 0)%nat then None else Some c,
             (totalCount + nextCount)%nat)
        | None => (None, totalCount)
        end in
      (* are there more items before the first one? *)
      let candidate := cursor_of_doc sort_by first in
      let prevFilter :=
        fst (getFiltersFromCursor (Some candidate) (prev (q_order query)) sort_by
               (parseSortValue opts) (filters opts)) in
      let prevCount := Model_countDocuments this prevFilter in
      let prevCursor := if (prevCount =? 0)%nat then None else Some candidate in
      let totalCount := (totalCount + prevCount)%nat in
      Paginated.mk docs totalCount
        (option_map encodeCursor nextCursor)
        (option_map encodeCursor prevCursor)
  end.

(** [paginate] *)
Definition paginate (this : list doc) (opts : PaginateOpts)
  : completion (Paginated.t doc) :=
  query ← _getQuery (pagination opts) (parseSortValue opts) (filters opts);
  Normal (run_query this opts query).

(** The request with both cursors removed. *)
Definition initial_request (opts : PaginateOpts) : PaginateOpts :=
  {| pagination := without_cursors (pagination opts);
     filters := filters opts;
     parseSortValue := parseSortValue opts |}.

(** The counts of the two boundary probes for a page [docs]: the probe
    after the last document is issued for a full page only, the probe
    before the first document for every page that is not empty. *)
Definition next_probe_count (this : list doc) (opts : PaginateOpts)
    (pair : SortDirection * Operator) (docs : list doc) : nat :=
  match docs with
  | [] => 0
  | first :: _ =>
      if (length docs =? limit (pagination opts))%nat
      then Model_countDocuments this
             (fst (getFiltersFromCursor
                     (Some (cursor_of_doc (sortBy (pagination opts)) (List.last docs first)))
                     pair (sortBy (pagination opts)) (parseSortValue opts) (filters opts)))
      else 0
  end.

Definition prev_probe_count (this : list doc) (opts : PaginateOpts)
    (pair : SortDirection * Operator) (docs : list doc) : nat :=
  match docs with
  | [] => 0
  | first :: _ =>
      Model_countDocuments this
        (fst (getFiltersFromCursor
                (Some (cursor_of_doc (sortBy (pagination opts)) first))
                pair (sortBy (pagination opts)) (parseSortValue opts) (filters opts)))
  end.

(** *** The requested order, and the stores on which cursors work *)

(** What the base filter selects (everything when there is none). *)
Definition selected_by (baseFilters : option (doc -> bool)) (d : doc) : bool :=
  match baseFilters with
  | Some b => b d
  | None => true
  end.

(** The position of a document in the requested order: its sort value
    (none when sorting by the primary key) and, to break ties, its key. *)
Definition sort_key (sort_by : string) (d : doc) : value * string :=
  (if sort_by =? "_id" then VNull else doc_get d sort_by, _id d).

Definition key_compare (k1 k2 : value * string) : comparison :=
  match value_compare (fst k1) (fst k2) with
  | Eq => String.compare (snd k1) (snd k2)
  | c => c
  end.

(** [d1] comes strictly before [d2] in the requested order. *)
Definition precedes (o : SortOrderType) (sort_by : string) (d1 d2 : doc) : Prop :=
  key_compare (sort_key sort_by d1) (sort_key sort_by d2) =
  match o with
  | asc => Lt
  | desc => Gt
  end.

(** The comparison of two documents in the requested order. *)
Definition direction_of (o : SortOrderType) : SortDirection :=
  match o with
  | asc => Ascending
  | desc => Descending
  end.

Definition forward_compare (o : SortOrderType) (sort_by : string) (d1 d2 : doc)
  : comparison :=
  apply_direction (direction_of o)
    (key_compare (sort_key sort_by d1) (sort_key sort_by d2)).

(** The operators that select what lies beyond a cursor, and what lies
    before it, in the requested order. *)
Definition forward_operator (o : SortOrderType) : Operator :=
  match o with
  | asc => op_gt
  | desc => op_lt
  end.

Definition backward_operator (o : SortOrderType) : Operator :=
  match o with
  | asc => op_lt
  | desc => op_gt
  end.

(** The value a cursor's text stands for in a filter. *)
Definition parsed_sort_value (parse : option (string -> value)) (text : string) : value :=
  match parse with
  | Some f => f text
  | None => VString text
  end.

(** The sort value of [d] can be carried by a cursor: it is of type
    [rank], it is not null, and parsing recovers it from its text. *)
Definition sort_value_ok (sort_by : string) (parse : option (string -> value))
    (rank : nat) (d : doc) : Prop :=
  type_rank (doc_get d sort_by) = rank /\
  exists text, stringifySortValue (doc_get d sort_by) = Some text /\
               parsed_sort_value parse text = doc_get d sort_by.

(** The stores and requests for which following cursors is complete: the
    keys are distinct and have the format of a key, the limit is positive
    and, unless the sort field is the primary key, the selected documents
    carry sort values of one type that cursors can carry. *)
Record traversable (this : list doc) (opts : PaginateOpts) : Prop := {
  keys_distinct : NoDup (map _id this);
  keys_valid : Forall (fun d => isObjectId (JString (_id d)) = true) this;
  limit_positive : (1 <= limit (pagination opts))%nat;
  sort_values_ok :
    sortBy (pagination opts) = "_id" \/
    exists rank,
      Forall (fun d => selected_by (filters opts) d = true ->
                       sort_value_ok (sortBy (pagination opts))
                         (parseSortValue opts) rank d) this
}.

(** The documents the base filter selects, in the requested order. *)
Definition matching_in_order (this : list doc) (opts : PaginateOpts) : list doc :=
  merge_sort
    (sorted_before
       (spec_sort_rules
          (direction_of (order (pagination opts)),
           forward_operator (order (pagination opts)))
          (sortBy (pagination opts))))
    (List.filter (selected_by (filters opts)) this).

(** [d] comes after [c] in the requested order. *)
Definition comes_after (o : SortOrderType) (sort_by : string) (c d : doc) : bool :=
  match forward_compare o sort_by c d with
  | Lt => true
  | _ => false
  end.

(** The token expected after the page that starts at position [p] of
    [matching_in_order]: the cursor of the last document of the page when
    documents remain after it. *)
Definition next_token (this : list doc) (opts : PaginateOpts) (p : nat) : option string :=
  let L := matching_in_order this opts in
  if decide (p + limit (pagination opts) < length L)%nat
  then option_map
         (fun d => encodeCursor (cursor_of_doc (sortBy (pagination opts)) d))
         (L !! (p + limit (pagination opts) - 1)%nat)
  else None.

(** *** Following the cursors *)

(** The request for the page after [token] (the first page for [None]). *)
Definition with_nextCursor (opts : PaginateOpts) (token : option string) : PaginateOpts :=
  {| pagination :=
       {| nextCursor := token; prevCursor := None;
          order := order (pagination opts);
          limit := limit (pagination opts);
          sortBy := sortBy (pagination opts) |};
     filters := filters opts;
     parseSortValue := parseSortValue opts |}.

(** Calls [paginate] with each returned [nextCursor], at most [calls]
    times: the responses received, and whether the last one had no
    [nextCursor]. *)
Fixpoint follow_next (calls : nat) (this : list doc) (opts : PaginateOpts)
    (token : option string) : completion (list (Paginated.t doc) * bool) :=
  match calls with
  | O => Normal ([], false)
  | S calls' =>
      page ← paginate this (with_nextCursor opts token);
      match Paginated.nextCursor page with
      | None => Normal ([page], true)
      | Some token' =>
          '(pages, finished) ← follow_next calls' this opts (Some token');
          Normal (page :: pages, finished)
      end
  end.

(** The documents of a sequence of responses, in the order received. *)
Definition visited (pages : list (Paginated.t doc)) : list doc :=
  concat (map Paginated.data pages).

(** The walk, with the documents of each page only. *)
Definition follow_next_data (calls : nat) (this : list doc) (opts : PaginateOpts)
  : completion (list (list doc) * bool) :=
  '(pages, finished) ← follow_next calls this opts None;
  Normal (map Paginated.data pages, finished).

(** The request for the page before [token]. *)
Definition with_prevCursor (opts : PaginateOpts) (token : option string) : PaginateOpts :=
  {| pagination :=
       {| nextCursor := None; prevCursor := token;
          order := order (pagination opts);
          limit := limit (pagination opts);
          sortBy := sortBy (pagination opts) |};
     filters := filters opts;
     parseSortValue := parseSortValue opts |}.

(** The token of the document at position [i] of [matching_in_order]. *)
Definition token_at (this : list doc) (opts : PaginateOpts) (i : nat) : option string :=
  option_map
    (fun d => encodeCursor (cursor_of_doc (sortBy (pagination opts)) d))
    (matching_in_order this opts !! i).

(* ================================================================== *)
(** * Properties *)
(* ================================================================== *)

(** *** Regular expression matching *)

Lemma seq_inv r1 r2 s :
  re_matches (Seq r1 r2) s ->
  exists s1 s2, s = s1 +:+ s2 /\ re_matches r1 s1 /\ re_matches r2 s2.
Proof. inversion 1; subst; eauto. Qed.

Lemma alt_inv r1 r2 s :
  re_matches (Alt r1 r2) s -> re_matches r1 s \/ re_matches r2 s.
Proof. inversion 1; subst; auto. Qed.

Lemma append_nil_inv (s1 s2 : string) : s1 +:+ s2 = "" -> s1 = "" /\ s2 = "".
Proof. destruct s1; cbn; [auto | discriminate]. Qed.

Lemma nullable_spec r : nullable r = true <-> re_matches r "".
Proof.
  induction r as [| |p|r1 IH1 r2 IH2|r1 IH1 r2 IH2|r IH]; simpl.
  - split; [discriminate | intros Hm; inversion Hm].
  - split; [constructor | reflexivity].
  - split; [discriminate | intros Hm; inversion Hm].
  - rewrite andb_true_iff, IH1, IH2. split.
    + intros [H1 H2]. change "" with ("" +:+ ""). by constructor.
    + intros Hm. apply seq_inv in Hm as (s1 & s2 & Heq & H1 & H2).
      symmetry in Heq. apply append_nil_inv in Heq as [-> ->]. auto.
  - rewrite orb_true_iff, IH1, IH2. split.
    + intros [H|H]; [by apply MAltL | by apply MAltR].
    + apply alt_inv.
  - split; [constructor | reflexivity].
Qed.

Lemma star_cons_inv r c s :
  re_matches (Star r) (String c s) ->
  exists s1 s2, s = s1 +:+ s2 /\ re_matches r (String c s1) /\ re_matches (Star r) s2.
Proof.
  intros Hm. remember (Star r) as r' eqn:Hr. remember (String c s) as t eqn:Ht.
  revert c s Ht.
  induction Hm as [| | | | | |r0 s1 s2 H1 _ H2 IH2]; intros a u Ht; try discriminate.
  inversion Hr; subst r0.
  destruct s1 as [|c1 s1]; cbn in Ht.
  - apply IH2; auto.
  - inversion Ht; subst. eauto.
Qed.

Lemma deriv_spec c r s : re_matches (deriv c r) s <-> re_matches r (String c s).
Proof.
  revert s. induction r as [| |p|r1 IH1 r2 IH2|r1 IH1 r2 IH2|r IH]; intros s; simpl.
  - split; intros Hm; inversion Hm.
  - split; intros Hm; inversion Hm.
  - destruct (p c) eqn:Hp; split; intros Hm.
    + inversion Hm; subst. by constructor.
    + inversion Hm; subst. constructor.
    + inversion Hm.
    + inversion Hm; subst. congruence.
  - assert (Hseq : re_matches (Seq (deriv c r1) r2) s ->
                   re_matches (Seq r1 r2) (String c s)).
    { intros Hm. apply seq_inv in Hm as (s1 & s2 & -> & H1 & H2).
      change (String c (s1 +:+ s2)) with (String c s1 +:+ s2).
      constructor; [by apply IH1 | done]. }
    assert (Hinv : re_matches (Seq r1 r2) (String c s) ->
                   re_matches (Seq (deriv c r1) r2) s \/
                   (re_matches r1 "" /\ re_matches (deriv c r2) s)).
    { intros Hm. apply seq_inv in Hm as (s1 & s2 & Heq & H1 & H2).
      destruct s1 as [|c1 s1]; cbn in Heq.
      - subst s2. right. split; [done | by apply IH2].
      - inversion Heq; subst. left. constructor; [by apply IH1 | done]. }
    destruct (nullable r1) eqn:Hn; split; intros Hm.
    + apply alt_inv in Hm as [Hm|Hm]; [by apply Hseq |].
      change (String c s) with ("" +:+ String c s).
      constructor; [by apply nullable_spec | by apply IH2].
    + apply Hinv in Hm as [Hm|[_ Hm]]; [by apply MAltL | by apply MAltR].
    + by apply Hseq.
    + apply Hinv in Hm as [Hm|[Hm _]]; [done |].
      apply nullable_spec in Hm. congruence.
  - split; intros Hm; apply alt_inv in Hm as [Hm|Hm];
      solve [apply MAltL; by apply IH1 | apply MAltR; by apply IH2].
  - split; intros Hm.
    + apply seq_inv in Hm as (s1 & s2 & -> & H1 & H2).
      change (String c (s1 +:+ s2)) with (String c s1 +:+ s2).
      apply MStarS; [by apply IH | done].
    + apply star_cons_inv in Hm as (s1 & s2 & -> & H1 & H2).
      constructor; [by apply IH | done].
Qed.

Lemma regex_test_spec r s : regex_test r s = true <-> re_matches r s.
Proof.
  revert r. induction s as [|c s IH]; intros r; simpl.
  - apply nullable_spec.
  - rewrite IH. apply deriv_spec.
Qed.

(** *** The identifier pattern *)

Lemma class_inv p s :
  re_matches (Class p) s -> exists c, s = String c "" /\ p c = true.
Proof. inversion 1; subst; eauto. Qed.

Lemma star_class_spec p s :
  re_matches (Star (Class p)) s <-> string_forall p s = true.
Proof.
  induction s as [|c s IH]; simpl.
  - split; [reflexivity | constructor].
  - rewrite andb_true_iff, <- IH. split.
    + intros Hm. apply star_cons_inv in Hm as (s1 & s2 & -> & H1 & H2).
      apply class_inv in H1 as (c' & Heq & Hp). inversion Heq; subst. auto.
    + intros [Hp Hm]. change (String c s) with (String c "" +:+ s).
      constructor; [by constructor | done].
Qed.

Lemma plus_class_spec p s :
  re_matches (Plus (Class p)) s <-> s <> "" /\ string_forall p s = true.
Proof.
  unfold Plus. split.
  - intros Hm. apply seq_inv in Hm as (s1 & s2 & -> & H1 & H2).
    apply class_inv in H1 as (c & -> & Hp). apply star_class_spec in H2.
    simpl. rewrite Hp, H2. split; [discriminate | reflexivity].
  - intros [Hne Hall]. destruct s as [|c s]; [done |].
    simpl in Hall. apply andb_true_iff in Hall as [Hp Hall].
    change (String c s) with (String c "" +:+ s).
    constructor; [by constructor | by apply star_class_spec].
Qed.

Lemma hex_prefix_spec s :
  re_matches (Opt (Alt (Seq (lit "0") (lit_i "x" "X")) (Seq (lit "0") (lit_i "h" "H")))) s
  <-> In s hex_prefixes.
Proof.
  unfold Opt, lit, lit_i, hex_prefixes. split.
  - intros Hm. apply alt_inv in Hm as [Hm|Hm]; [|inversion Hm; simpl; auto].
    apply alt_inv in Hm as [Hm|Hm];
      apply seq_inv in Hm as (s1 & s2 & -> & H1 & H2);
      apply class_inv in H1 as (c1 & -> & Hc1);
      apply class_inv in H2 as (c2 & -> & Hc2);
      apply Ascii.eqb_eq in Hc1 as <-;
      apply orb_true_iff in Hc2 as [Hc2|Hc2]; apply Ascii.eqb_eq in Hc2 as <-;
      simpl; auto 6.
  - simpl. intros [<-|[<-|[<-|[<-|[<-|[]]]]]].
    + apply MAltR. constructor.
    + apply MAltL, MAltL. change "0x" with ("0" +:+ "x"). by constructor; constructor.
    + apply MAltL, MAltL. change "0X" with ("0" +:+ "X"). by constructor; constructor.
    + apply MAltL, MAltR. change "0h" with ("0" +:+ "h"). by constructor; constructor.
    + apply MAltL, MAltR. change "0H" with ("0" +:+ "H"). by constructor; constructor.
Qed.

(** The pattern spelled out: an optional [0x] or [0h] (either case), then
    one or more hexadecimal digits. *)
Lemma HEX_REGEX_spec s :
  regex_test HEX_REGEX s = true <->
  exists p t, s = p +:+ t /\ In p hex_prefixes /\ t <> "" /\
              string_forall hex_class t = true.
Proof.
  rewrite regex_test_spec. unfold HEX_REGEX. split.
  - intros Hm. apply seq_inv in Hm as (p & t & -> & H1 & H2).
    apply hex_prefix_spec in H1. apply plus_class_spec in H2 as [? ?]. eauto 6.
  - intros (p & t & -> & Hp & Hne & Hall).
    constructor; [by apply hex_prefix_spec | by apply plus_class_spec].
Qed.

Lemma hex_prefixed_test (a : ascii) h :
  In (String "0" (String a "")) hex_prefixes ->
  regex_test HEX_REGEX (String "0" (String a h)) =
  negb (h =? "") && string_forall hex_class h.
Proof.
  intros Hin. apply eq_iff_eq_true. rewrite HEX_REGEX_spec.
  rewrite andb_true_iff, negb_true_iff, String.eqb_neq. split.
  - intros (p & t & Heq & Hp & Hne & Hall).
    simpl in Hp, Hin.
    destruct Hp as [<-|[<-|[<-|[<-|[<-|[]]]]]]; simpl in Heq.
    + subst t. simpl in Hall.
      destruct Hin as [Hin|[Hin|[Hin|[Hin|[Hin|[]]]]]];
        inversion Hin; subst; simpl in Hall; discriminate.
    + inversion Heq; subst. auto.
    + inversion Heq; subst. auto.
    + inversion Heq; subst. auto.
    + inversion Heq; subst. auto.
  - intros [Hne Hall]. exists (String "0" (String a "")), h. auto.
Qed.

(** C10. [isObjectId] accepts exactly the strings of length 24 in the
    language of [HEX_REGEX], and [MongoIdSchema] validates exactly what
    [isObjectId] accepts; a value of any other type is rejected.  In
    particular [0x] or [0h] followed by 22 hexadecimal digits is accepted,
    although such a string is not made of hexadecimal digits only. *)
Theorem isObjectId_exactly_hex_pattern_of_length_24 :
  (forall value : jsval,
      isObjectId value = true <->
      exists s, value = JString s /\ String.length s = 24%nat /\
                re_matches HEX_REGEX s) /\
  (forall value : jsval,
      MongoIdSchema value =
      match value with
      | JString s => if isObjectId value then Some s else None
      | _ => None
      end) /\
  (forall h : string,
      isObjectId (JString ("0x" +:+ h)) =
        (String.length h =? 22)%nat && string_forall hex_class h /\
      isObjectId (JString ("0h" +:+ h)) =
        (String.length h =? 22)%nat && string_forall hex_class h /\
      string_forall hex_class ("0x" +:+ h) = false /\
      string_forall hex_class ("0h" +:+ h) = false).
Proof.
  split; [|split].
  - intros value. destruct value; simpl;
      try (split; [discriminate | intros (s0 & Heq & _); discriminate]).
    rewrite andb_true_iff, regex_test_spec, Nat.eqb_eq. split.
    + intros [Hm Hlen]. eauto.
    + intros (s0 & Heq & Hlen & Hm). inversion Heq; subst. auto.
  - intros value. destruct value; try reflexivity.
    unfold MongoIdSchema. destruct (isObjectId (JString s)) eqn:Hid.
    + simpl in Hid. apply andb_true_iff in Hid as [_ Hlen].
      apply Nat.eqb_eq in Hlen. rewrite Hlen. reflexivity.
    + by rewrite andb_false_r.
  - intros h.
    assert (Hgen : forall a, In (String "0" (String a "")) hex_prefixes ->
              isObjectId (JString (String "0" (String a h))) =
              (String.length h =? 22)%nat && string_forall hex_class h).
    { intros a Hin. unfold isObjectId. rewrite hex_prefixed_test by done.
      change (String.length (String "0" (String a h)))
        with (S (S (String.length h))).
      change 24%nat with (S (S 22)). change (S (S (String.length h)) =? S (S 22))%nat
        with (String.length h =? 22)%nat.
      destruct h; [reflexivity |]. simpl (negb _).
      rewrite andb_true_l. apply andb_comm. }
    split; [|split; [|split]].
    + apply Hgen. simpl. auto.
    + apply Hgen. simpl. auto.
    + reflexivity.
    + reflexivity.
Qed.

(* ================================================================== *)
(** ** Direction resolver *)
(* ================================================================== *)

(** What [_getQuery] returns, by traversal mode. *)
Lemma getQuery_inv query parse base q :
  _getQuery query parse base = Normal q ->
  exists cursor,
    match truthy (prevCursor query), truthy (nextCursor query) with
    | Some token, _ => decodeCursor token = Normal cursor
    | None, Some token => decodeCursor token = Normal cursor
    | None, None => cursor = None
    end /\
    let pair :=
      match order query, traversal_mode query with
      | desc, initial => (Descending, op_gt)
      | asc, initial => (Ascending, op_lt)
      | o, m => fst (spec_current_table o m)
      end in
    q = {| q_filter := fst (getFiltersFromCursor cursor pair (sortBy query) parse base);
           q_cursor := cursor;
           q_sort := snd (getFiltersFromCursor cursor pair (sortBy query) parse base);
           q_order := {| current := pair;
                         next := match order query with
                                 | desc => (Ascending, op_lt)
                                 | asc => (Descending, op_gt)
                                 end;
                         prev := match order query with
                                 | desc => (Descending, op_gt)
                                 | asc => (Ascending, op_lt)
                                 end |};
           q_reverse := match traversal_mode query with backward => true | _ => false end;
           q_limit := limit query |}.
Proof.
  unfold _getQuery, traversal_mode. intros Hq.
  destruct (truthy (prevCursor query)) as [tp|] eqn:Hp.
  - destruct (decodeCursor tp) as [cursor|e] eqn:Hd; [|discriminate].
    exists cursor. split; [done |].
    cbn in Hq. destruct (order query); cbn in Hq |- *;
      destruct (getFiltersFromCursor _ _ _ _ _); by inversion Hq.
  - destruct (truthy (nextCursor query)) as [tn|] eqn:Hn.
    + destruct (decodeCursor tn) as [cursor|e] eqn:Hd; [|discriminate].
      exists cursor. split; [done |].
      cbn in Hq. destruct (order query); cbn in Hq |- *;
        destruct (getFiltersFromCursor _ _ _ _ _); by inversion Hq.
    + exists None. split; [done |].
      destruct (order query); cbn in Hq |- *; by inversion Hq.
Qed.

(** The direction of a pair decides the sort rules; without a cursor the
    operator is not used at all. *)
Lemma getFilters_no_cursor_operator dir op op' sort_by parse base :
  getFiltersFromCursor None (dir, op) sort_by parse base =
  getFiltersFromCursor None (dir, op') sort_by parse base.
Proof. reflexivity. Qed.

(** With a non-empty [prevCursor] the [nextCursor] plays no part. *)
Lemma nextCursor_ignored query parse base :
  traversal_mode query = backward ->
  _getQuery (without_nextCursor query) parse base = _getQuery query parse base.
Proof.
  unfold traversal_mode, _getQuery, without_nextCursor. cbn.
  destruct (truthy (prevCursor query)); [reflexivity |].
  destruct (truthy (nextCursor query)); discriminate.
Qed.

(** C1 (amended). For every request on which [_getQuery] returns: the sort
    direction of the current fetch and the reversal flag are those of the
    table in all six rows; the operator is the one of the table in forward
    and backward mode; in initial mode no cursor is decoded, so that the
    operator is not applied and the filter and sort rules are those that
    the pair of the table gives.  The mode is backward when [prevCursor]
    is a non-empty string (then [nextCursor] is ignored entirely),
    otherwise forward when [nextCursor] is a non-empty string, otherwise
    initial. *)
Theorem current_direction_follows_table query parse base q :
  _getQuery query parse base = Normal q ->
  let m := traversal_mode query in
  let row := spec_current_table (order query) m in
  fst (current (q_order q)) = fst (fst row) /\
  q_reverse q = snd row /\
  (m <> initial -> current (q_order q) = fst row) /\
  (m = initial -> q_cursor q = None) /\
  (q_filter q, q_sort q) =
    getFiltersFromCursor (q_cursor q) (fst row) (sortBy query) parse base /\
  (m = backward ->
   _getQuery (without_nextCursor query) parse base = Normal q).
Proof.
  intros Hq m row.
  assert (Hign : m = backward ->
                 _getQuery (without_nextCursor query) parse base = Normal q)
    by (intros Hm; by rewrite nextCursor_ignored).
  split_and!; try exact Hign; clear Hign;
    apply getQuery_inv in Hq as (cursor & Hc & ->); subst row m;
    unfold traversal_mode in *;
    destruct (truthy (prevCursor query)), (truthy (nextCursor query)),
      (order query);
    cbn; try done; try (by destruct (getFiltersFromCursor _ _ _ _ _));
    by subst cursor.
Qed.

(** C2. The pairs of the two boundary probes are functions of [order]
    alone and their operators are those stated, but their sort directions
    are the opposite ones: for [desc], next is (ascending, $lt) and prev
    is (descending, $gt); for [asc], next is (descending, $gt) and prev is
    (ascending, $lt). *)
Theorem probe_pairs_have_opposite_directions
    (query : PaginationFields)
    (parse : option (string -> value)) (base : option (doc -> bool)) :
  match _getQuery query parse base with
  | Normal q =>
      next (q_order q) = match order query with
                         | desc => (Ascending, op_lt)
                         | asc => (Descending, op_gt)
                         end /\
      prev (q_order q) = match order query with
                         | desc => (Descending, op_gt)
                         | asc => (Ascending, op_lt)
                         end /\
      snd (next (q_order q)) = snd (spec_next_pair (order query)) /\
      snd (prev (q_order q)) = snd (spec_prev_pair (order query)) /\
      fst (next (q_order q)) <> fst (spec_next_pair (order query)) /\
      fst (prev (q_order q)) <> fst (spec_prev_pair (order query))
  | Throw _ => True
  end /\
  exists q, _getQuery (without_cursors query) parse base = Normal q.
Proof.
  split.
  - destruct (_getQuery query parse base) as [q|e] eqn:Hq; [|done].
    apply getQuery_inv in Hq as (cursor & _ & ->).
    by destruct (order query).
  - eexists. reflexivity.
Qed.

(* ================================================================== *)
(** ** Filter builder *)
(* ================================================================== *)

Lemma getFilters_sort cursor order sort_by parse base :
  snd (getFiltersFromCursor cursor order sort_by parse base) =
  spec_sort_rules order sort_by.
Proof.
  unfold getFiltersFromCursor, spec_sort_rules.
  destruct cursor as [c|]; [destruct (v c)|]; cbn;
    destruct (sort_by =? "_id") eqn:E; cbn; rewrite ?E; reflexivity.
Qed.

Lemma matches_with_base (f : FilterQuery) (base : option (doc -> bool)) d :
  matches_filter match base with
                 | Some b => And [f; Base b]
                 | None => f
                 end d =
  matches_filter f d && match base with Some b => b d | None => true end.
Proof. destruct base; cbn; [by rewrite andb_true_r | by rewrite andb_true_r]. Qed.

Lemma getFilters_selects cursor order sort_by parse base :
  (forall c, cursor = Some c -> v c <> None -> sort_by <> "_id") ->
  forall d : doc,
    matches_filter (fst (getFiltersFromCursor cursor order sort_by parse base)) d =
    spec_filter_selects cursor order sort_by parse base d.
Proof.
  intros Hv d.
  unfold getFiltersFromCursor, spec_filter_selects.
  destruct cursor as [c|]; [destruct (v c) as [cv|] eqn:Ev|]; cbn [fst];
    rewrite matches_with_base; f_equal.
  - assert (Hne : sort_by <> "_id") by (apply (Hv c); congruence).
    apply String.eqb_neq in Hne. cbn. rewrite Hne. cbn.
    by rewrite !andb_true_r, orb_false_r.
  - cbn. by rewrite andb_true_r.
Qed.

(** C6 (amended). The sort rules are [{ sortField: direction }], with the
    primary key added as tiebreaker when the sort field is not the primary
    key.  The filter selects: without a cursor, what the base filter
    selects (everything when there is none); with a cursor without [v],
    the documents whose key is beyond [cursor.id], ANDed with the base
    filter; with a cursor with [v] and a sort field other than the primary
    key, the documents whose sort field is beyond the parsed value, or
    equal to it with a key beyond [cursor.id], ANDed with the base
    filter. *)
Theorem filter_builder_meets_spec cursor order sort_by parse base :
  (forall c, cursor = Some c -> v c <> None -> sort_by <> "_id") ->
  snd (getFiltersFromCursor cursor order sort_by parse base) =
    spec_sort_rules order sort_by /\
  forall d : doc,
    matches_filter (fst (getFiltersFromCursor cursor order sort_by parse base)) d =
    spec_filter_selects cursor order sort_by parse base d.
Proof.
  intros Hv. split; [apply getFilters_sort | by apply getFilters_selects].
Qed.

(* ================================================================== *)
(** ** Cursor codec *)
(* ================================================================== *)

(** *** Base64 *)

Lemma base64_value_char x : base64_value (base64_char x) = Some x.
Proof. destruct x as [[[[[[] []] []] []] []] []]; vm_compute; reflexivity. Qed.

Lemma base64_char_not_pad x : Ascii.eqb (base64_char x) "=" = false.
Proof. destruct x as [[[[[[] []] []] []] []] []]; vm_compute; reflexivity. Qed.

Lemma triple_of_sextets_of_triple x y z :
  (let '(a, b, c, d) := sextets_of_triple x y z in triple_of_sextets a b c d)
  = (x, y, z).
Proof. by destruct x, y, z. Qed.

Lemma decode_quad_encode x y z :
  (let '(a, b, c, d) := sextets_of_triple x y z in
   decode_quad (base64_char a) (base64_char b) (base64_char c) (base64_char d))
  = Some (String x (String y (String z ""))).
Proof.
  pose proof (triple_of_sextets_of_triple x y z) as H.
  destruct (sextets_of_triple x y z) as [[[a b] c] d].
  unfold decode_quad. rewrite !base64_value_char. by rewrite H.
Qed.

(** A full group in front of the rest of the text. *)
Lemma base64_decode_group a b c d r :
  Ascii.eqb d "=" = false ->
  base64_decode (String a (String b (String c (String d r)))) =
  match decode_quad a b c d, base64_decode r with
  | Some x, Some y => Some (x +:+ y)
  | _, _ => None
  end.
Proof.
  intros Hd. destruct r as [|e r]; [|reflexivity].
  cbn. unfold decode_last. rewrite Hd.
  destruct (decode_quad a b c d) as [x|]; [|reflexivity].
  f_equal. clear. induction x as [|h x IH]; cbn; [done | by rewrite <- IH].
Qed.

Lemma base64_decode_encode : forall bytes, base64_decode (base64_encode bytes) = Some bytes.
Proof.
  fix IH 1. intros [|x [|y [|z rest]]].
  - reflexivity.
  - cbn [base64_encode].
    destruct x as [x0 x1 x2 x3 x4 x5 x6 x7]. cbn [sextets_of_triple zero].
    cbn [base64_decode]. unfold decode_last. cbn [Ascii.eqb Bool.eqb].
    rewrite !base64_value_char. reflexivity.
  - cbn [base64_encode].
    destruct x as [x0 x1 x2 x3 x4 x5 x6 x7], y as [y0 y1 y2 y3 y4 y5 y6 y7].
    cbn [sextets_of_triple zero].
    cbn [base64_decode]. unfold decode_last. cbn [Ascii.eqb Bool.eqb].
    rewrite base64_char_not_pad, !base64_value_char. reflexivity.
  - cbn [base64_encode].
    pose proof (decode_quad_encode x y z) as Hq.
    destruct (sextets_of_triple x y z) as [[[a b] c] d].
    rewrite base64_decode_group by apply base64_char_not_pad.
    rewrite Hq, IH. reflexivity.
Qed.

Lemma base64_encode_nonempty bytes : bytes <> "" -> base64_encode bytes <> "".
Proof.
  destruct bytes as [|x [|y [|z rest]]]; [done | | |]; intros _; cbn [base64_encode].
  - by destruct (sextets_of_triple x zero zero) as [[[a b] c] d].
  - by destruct (sextets_of_triple x y zero) as [[[a b] c] d].
  - by destruct (sextets_of_triple x y z) as [[[a b] c] d].
Qed.

(** *** JSON strings *)

Lemma append_assoc_s (a b c : string) : (a +:+ b) +:+ c = a +:+ (b +:+ c).
Proof. induction a as [|x a IH]; cbn; [done | by rewrite IH]. Qed.

(** One step of the string parser, by the kind of the leading character. *)
Lemma parse_string_body_plain c t :
  Ascii.eqb c dquote = false -> Ascii.eqb c "\" = false ->
  (nat_of_ascii c <? 32)%nat = false ->
  parse_string_body (String c t) = prepend (String c "") (parse_string_body t).
Proof. intros H1 H2 H3. cbn [parse_string_body]. by rewrite H1, H2, H3. Qed.

Lemma parse_string_body_simple e ch t :
  simple_escape e = Some ch ->
  parse_string_body (String "\" (String e t)) =
  prepend (String ch "") (parse_string_body t).
Proof. intros H. cbn [parse_string_body]. by rewrite H. Qed.

Lemma parse_string_body_unicode h1 h2 h3 h4 hi t :
  hex4 h1 h2 h3 h4 = Some hi -> is_high_surrogate hi = false ->
  parse_string_body
    (String "\" (String "u" (String h1 (String h2 (String h3 (String h4 t)))))) =
  prepend (utf8_bytes hi) (parse_string_body t).
Proof. intros H1 H2. cbn [parse_string_body]. by rewrite H1, H2. Qed.

Lemma parse_string_body_escape_char c t r :
  parse_string_body t = Some r ->
  parse_string_body (escape_char c +:+ t) = Some (String c (fst r), snd r).
Proof.
  intros Ht. destruct r as [str rest].
  destruct c as [[] [] [] [] [] [] [] []];
    match goal with
    | |- context [escape_char ?c0] =>
        let e := eval vm_compute in (escape_char c0) in
        change (escape_char c0) with e
    end;
    cbn [String.append];
    first [ rewrite parse_string_body_plain by (vm_compute; reflexivity)
          | erewrite parse_string_body_simple by (vm_compute; reflexivity)
          | erewrite parse_string_body_unicode by (vm_compute; reflexivity) ];
    rewrite Ht; reflexivity.
Qed.

Lemma parse_string_body_escape s rest :
  parse_string_body (JSON_escape s +:+ String dquote rest) = Some (s, rest).
Proof.
  induction s as [|c s IH]; [reflexivity |].
  cbn [JSON_escape]. rewrite append_assoc_s.
  by rewrite (parse_string_body_escape_char c _ _ IH).
Qed.

(** *** The recursion budget of the parser *)

Lemma skip_ws_length s : (String.length (skip_ws s) <= String.length s)%nat.
Proof.
  induction s as [|c s IH]; cbn [skip_ws String.length]; [lia |].
  destruct (is_ws c); cbn [String.length]; lia.
Qed.

Lemma skip_ws_String_length s c r :
  skip_ws s = String c r -> (S (String.length r) <= String.length s)%nat.
Proof. intros H. pose proof (skip_ws_length s) as Hl. by rewrite H in Hl. Qed.

Lemma prepend_Some p res x r :
  prepend p res = Some (x, r) -> exists y, res = Some (y, r).
Proof. destruct res as [[y r']|]; cbn; [|done]. intros [= _ ->]. eauto. Qed.

Lemma parse_string_body_length n : forall s x r,
  (String.length s <= n)%nat ->
  parse_string_body s = Some (x, r) -> (String.length r < String.length s)%nat.
Proof.
  induction n as [|n IH]; intros s x r Hn H; destruct s as [|c s]; try done.
  { cbn in Hn. lia. }
  cbn [parse_string_body] in H. cbn [String.length] in Hn |- *.
  repeat (case_match; simplify_eq; try done);
    cbn [String.length] in *; try lia;
    match goal with
    | H : prepend _ (parse_string_body ?t) = Some _ |- _ =>
        apply prepend_Some in H as [y H]; apply IH in H; cbn [String.length] in *; lia
    end.
Qed.

Lemma span_digits_length s ds r :
  span_digits s = (ds, r) -> (String.length r <= String.length s)%nat.
Proof.
  revert ds r. induction s as [|c s IH]; intros ds r; cbn [span_digits].
  - intros [= <- <-]. done.
  - destruct (is_digit c); [|intros [= <- <-]; done].
    destruct (span_digits s) as [ds' r'] eqn:E. intros [= <- <-].
    cbn [String.length]. specialize (IH _ _ eq_refl). lia.
Qed.

Lemma parse_number_length s lit r :
  parse_number s = Some (lit, r) -> (String.length r < String.length s)%nat.
Proof.
  unfold parse_number. intros H.
  repeat (case_match; simplify_eq; try done);
    repeat match goal with
           | H : span_digits _ = (_, _) |- _ => apply span_digits_length in H
           end;
    cbn [String.length] in *; lia.
Qed.

Lemma strip_prefix_length p : forall s r,
  strip_prefix p s = Some r -> (String.length r <= String.length s)%nat.
Proof.
  induction p as [|a p IH]; intros [|b s] r; cbn [strip_prefix]; try done.
  - intros [= <-]. done.
  - intros [= <-]. done.
  - destruct (Ascii.eqb a b); [|done]. intros H. apply IH in H. cbn [String.length]. lia.
Qed.

Ltac parser_lengths :=
  repeat match goal with
         | H : skip_ws _ = String _ _ |- _ => apply skip_ws_String_length in H
         | H : parse_string_body _ = Some _ |- _ =>
             apply (parse_string_body_length _ _ _ _ (Nat.le_refl _)) in H
         | H : parse_number _ = Some _ |- _ => apply parse_number_length in H
         | H : strip_prefix _ _ = Some _ |- _ => apply strip_prefix_length in H
         end;
  cbn [String.length] in *.

(** With the budget stated, no call exhausts it, and each call that
    returns a value has consumed some text. *)
Lemma parser_budget fuel :
  (forall s,
      ((2 * String.length s + 1 <= fuel)%nat -> parse_value fuel s <> PFuel) /\
      (forall x r, parse_value fuel s = POk x r ->
                   (String.length r < String.length s)%nat)) /\
  (forall s,
      ((2 * String.length s + 2 <= fuel)%nat -> parse_elements fuel s <> PFuel) /\
      (forall x r, parse_elements fuel s = POk x r ->
                   (String.length r < String.length s)%nat)) /\
  (forall s,
      ((2 * String.length s + 1 <= fuel)%nat -> parse_members fuel s <> PFuel) /\
      (forall x r, parse_members fuel s = POk x r ->
                   (String.length r < String.length s)%nat)).
Proof.
  induction fuel as [|f (IHv & IHe & IHm)].
  { repeat split; intros; try done; cbn in *; lia. }
  assert (Hv : forall s x r, parse_value f s = POk x r ->
                             (String.length r < String.length s)%nat)
    by (intros s; apply IHv).
  assert (He : forall s x r, parse_elements f s = POk x r ->
                             (String.length r < String.length s)%nat)
    by (intros s; apply IHe).
  assert (Hm : forall s x r, parse_members f s = POk x r ->
                             (String.length r < String.length s)%nat)
    by (intros s; apply IHm).
  assert (Fv : forall s, parse_value f s = PFuel -> (f < 2 * String.length s + 1)%nat).
  { intros s H. destruct (IHv s) as [Hs _].
    destruct (decide (2 * String.length s + 1 <= f)%nat); [by apply Hs in H | lia]. }
  assert (Fe : forall s, parse_elements f s = PFuel -> (f < 2 * String.length s + 2)%nat).
  { intros s H. destruct (IHe s) as [Hs _].
    destruct (decide (2 * String.length s + 2 <= f)%nat); [by apply Hs in H | lia]. }
  assert (Fm : forall s, parse_members f s = PFuel -> (f < 2 * String.length s + 1)%nat).
  { intros s H. destruct (IHm s) as [Hs _].
    destruct (decide (2 * String.length s + 1 <= f)%nat); [by apply Hs in H | lia]. }
  clear IHv IHe IHm.
  repeat split; intros;
    match goal with
    | |- _ <> PFuel =>
        let Hfuel := fresh "Hfuel" in
        intros Hfuel; cbn [parse_value parse_elements parse_members] in Hfuel
    | H : _ = POk _ _ |- _ => cbn [parse_value parse_elements parse_members] in H
    end;
    repeat (case_match; simplify_eq; try done);
    repeat match goal with
           | H : parse_value _ _ = POk _ _ |- _ => apply Hv in H
           | H : parse_elements _ _ = POk _ _ |- _ => apply He in H
           | H : parse_members _ _ = POk _ _ |- _ => apply Hm in H
           | H : parse_value _ _ = PFuel |- _ => apply Fv in H
           | H : parse_elements _ _ = PFuel |- _ => apply Fe in H
           | H : parse_members _ _ = PFuel |- _ => apply Fm in H
           end;
    parser_lengths; lia.
Qed.

(** [JSON_parse] never runs out of budget: it throws on text that is not
    JSON only. *)
Lemma JSON_parse_budget text :
  parse_value (2 * String.length text + 2) text <> PFuel.
Proof. apply parser_budget. lia. Qed.

(** *** The cursor object *)

Lemma JSON_stringify_cursor_shape cursor :
  JSON_stringify_cursor cursor =
  String "{" (String dquote (JSON_escape "id" +:+
    String dquote (String ":" (String dquote (JSON_escape (id cursor) +:+
      String dquote
        match v cursor with
        | Some x =>
            String "," (String dquote (JSON_escape "v" +:+
              String dquote (String ":" (String dquote (JSON_escape x +:+
                String dquote "}")))))
        | None => "}"
        end))))).
Proof.
  unfold JSON_stringify_cursor, JSON_quote.
  destruct (v cursor);
    repeat (rewrite ?append_assoc_s; cbn [String.append]); reflexivity.
Qed.

Lemma parse_value_string f s rest :
  parse_value (S f) (String dquote (JSON_escape s +:+ String dquote rest)) =
  POk (JString s) rest.
Proof.
  cbn [parse_value skip_ws is_ws Ascii.eqb Bool.eqb orb].
  rewrite parse_string_body_escape. reflexivity.
Qed.

Lemma parse_members_string f k s rest :
  parse_members (S (S f))
    (String dquote (JSON_escape k +:+
       String dquote (String ":" (String dquote (JSON_escape s +:+ String dquote rest))))) =
  match skip_ws rest with
  | EmptyString => PSyntax
  | String d r =>
      if Ascii.eqb d "," then
        match parse_members (S f) r with
        | POk ms rest' => POk ((k, JString s) :: ms) rest'
        | PSyntax => PSyntax
        | PFuel => PFuel
        end
      else if Ascii.eqb d "}" then POk [(k, JString s)] r
      else PSyntax
  end.
Proof.
  cbn [parse_members skip_ws is_ws Ascii.eqb Bool.eqb orb].
  rewrite parse_string_body_escape.
  cbn [skip_ws is_ws Ascii.eqb Bool.eqb orb].
  rewrite parse_value_string. reflexivity.
Qed.

Lemma parse_value_cursor_text fuel cursor :
  parse_value (4 + fuel) (JSON_stringify_cursor cursor) =
  POk (JObject (("id", JString (id cursor)) ::
                match v cursor with
                | Some x => [("v", JString x)]
                | None => []
                end)) "".
Proof.
  rewrite JSON_stringify_cursor_shape.
  change (4 + fuel)%nat with (S (S (S (S fuel)))).
  cbn [parse_value skip_ws is_ws Ascii.eqb Bool.eqb orb].
  rewrite parse_members_string.
  destruct (v cursor) as [x|].
  - cbn [skip_ws is_ws Ascii.eqb Bool.eqb orb].
    rewrite parse_members_string. reflexivity.
  - reflexivity.
Qed.

Lemma JSON_parse_cursor_text cursor :
  JSON_parse (JSON_stringify_cursor cursor) =
  Normal (JObject (("id", JString (id cursor)) ::
                   match v cursor with
                   | Some x => [("v", JString x)]
                   | None => []
                   end)).
Proof.
  unfold JSON_parse.
  assert (Hlen : exists n, String.length (JSON_stringify_cursor cursor) = S n).
  { rewrite JSON_stringify_cursor_shape. cbn. eauto. }
  destruct Hlen as [n Hn]. rewrite Hn.
  replace (2 * S n + 2)%nat with (4 + 2 * n)%nat by lia.
  by rewrite parse_value_cursor_text.
Qed.

Lemma MongoIdSchema_isObjectId s :
  isObjectId (JString s) = true -> MongoIdSchema (JString s) = Some s.
Proof.
  intros Hid. unfold MongoIdSchema. rewrite Hid.
  cbn in Hid. apply andb_true_iff in Hid as [_ Hlen].
  apply Nat.eqb_eq in Hlen. by rewrite Hlen.
Qed.

(** Decoding undoes encoding. *)
Lemma decodeCursor_encodeCursor cursor :
  isObjectId (JString (id cursor)) = true ->
  decodeCursor (encodeCursor cursor) = Normal (Some cursor).
Proof.
  intros Hid. unfold decodeCursor, CursorSchema_safeParse, encodeCursor.
  rewrite base64_decode_encode, JSON_parse_cursor_text. cbn [mbind completion_bind].
  unfold CursorObjectSchema.
  change (obj_get "id" _) with (JString (id cursor)).
  rewrite MongoIdSchema_isObjectId by done.
  destruct cursor as [i [x|]]; reflexivity.
Qed.


Lemma encodeCursor_truthy cursor : truthy (Some (encodeCursor cursor)) = Some (encodeCursor cursor).
Proof.
  unfold truthy. destruct (String.eqb_spec (encodeCursor cursor) "") as [He|]; [|done].
  apply base64_encode_nonempty in He; [done |].
  by rewrite JSON_stringify_cursor_shape.
Qed.

(** C7. For every cursor whose [id] has the format of a key and whose [v]
    is absent or a string, decoding the token that encoding produces
    returns the cursor itself. *)
Theorem decode_encode_round_trip (cursor : DecodedCursor) :
  isObjectId (JString (id cursor)) = true ->
  decodeCursor (encodeCursor cursor) = Normal (Some cursor).
Proof. apply decodeCursor_encodeCursor. Qed.

(** C8. A token that is well-formed Base64 but whose bytes are not JSON
    makes [decodeCursor] throw: the [SyntaxError] of [JSON.parse] escapes
    [safeParse], and [paginate] throws with it. *)
Theorem decodeCursor_throws_on_non_JSON_bytes :
  base64_decode "aGVsbG8=" = Some "hello" /\
  decodeCursor "aGVsbG8=" = Throw SyntaxError /\
  forall this o n, paginate this (request_by_key o n None (Some "aGVsbG8=")) = Throw SyntaxError.
Proof. split; [|split]; [reflexivity | reflexivity | intros; reflexivity]. Qed.


(* ================================================================== *)
(** ** Pagination orchestrator *)
(* ================================================================== *)

(** The page returned is the fetch, reversed when the query says so. *)
Lemma run_query_data this opts q :
  Paginated.data (run_query this opts q) =
  if q_reverse q
  then rev (Model_find this (q_filter q) (q_sort q) (q_limit q))
  else Model_find this (q_filter q) (q_sort q) (q_limit q).
Proof.
  unfold run_query.
  destruct (if q_reverse q then _ else _) as [|first rest]; [reflexivity |].
  destruct (length (first :: rest) =? limit (pagination opts))%nat; reflexivity.
Qed.

(** X26. When [prevCursor] is given and [decodeCursor] returns no cursor
    for it, [_getQuery] builds the filter of the initial request (no
    cursor condition), with the sort rules of the backward direction and
    the reversal flag set; [paginate] answers as for the initial request
    run with that direction and that flag: the fetch is sorted in the
    backward direction and reversed in memory. *)
Theorem undecodable_prevCursor_gives_reversed_initial_fetch
    (this : list doc) (opts : PaginateOpts) (token : string) :
  truthy (prevCursor (pagination opts)) = Some token ->
  decodeCursor token = Normal None ->
  exists q0 : Query,
    _getQuery (pagination (initial_request opts)) (parseSortValue opts) (filters opts)
      = Normal q0 /\
    let pair := fst (spec_current_table (order (pagination opts)) backward) in
    let q := {| q_filter := q_filter q0;
                q_cursor := None;
                q_sort := spec_sort_rules pair (sortBy (pagination opts));
                q_order := {| current := pair;
                              next := next (q_order q0);
                              prev := prev (q_order q0) |};
                q_reverse := true;
                q_limit := q_limit q0 |} in
    _getQuery (pagination opts) (parseSortValue opts) (filters opts) = Normal q /\
    paginate this opts = Normal (run_query this (initial_request opts) q) /\
    Paginated.data (run_query this (initial_request opts) q) =
      rev (Model_find this (q_filter q0) (q_sort q) (limit (pagination opts))).
Proof.
  intros Hp Hd. eexists. split; [reflexivity |].
  assert (Hq : _getQuery (pagination opts) (parseSortValue opts) (filters opts) =
    Normal
      {| q_filter := match filters opts with
                     | Some b => And [Fields []; Base b]
                     | None => Fields []
                     end;
         q_cursor := None;
         q_sort := spec_sort_rules
                     (fst (spec_current_table (order (pagination opts)) backward))
                     (sortBy (pagination opts));
         q_order := {| current := fst (spec_current_table (order (pagination opts)) backward);
                       next := match order (pagination opts) with
                               | desc => (Ascending, op_lt)
                               | asc => (Descending, op_gt)
                               end;
                       prev := match order (pagination opts) with
                               | desc => (Descending, op_gt)
                               | asc => (Ascending, op_lt)
                               end |};
         q_reverse := true;
         q_limit := limit (pagination opts) |}).
  { unfold _getQuery. rewrite Hp, Hd. cbn [mbind completion_bind].
    rewrite (surjective_pairing (getFiltersFromCursor _ _ _ _ _)).
    rewrite getFilters_sort.
    destruct (order (pagination opts)); reflexivity. }
  cbn zeta.
  assert (Hq' : forall A (x y : A), match order (pagination opts) with
                                    | asc => x | desc => y end =
                match order (pagination opts) with desc => y | asc => x end)
    by (intros; by destruct (order (pagination opts))).
  split; [|split].
  - rewrite Hq. cbn. by destruct (order (pagination opts)).
  - unfold paginate. rewrite Hq. cbn [mbind completion_bind]. f_equal.
    unfold run_query. cbn. by destruct (order (pagination opts)).
  - by rewrite run_query_data.
Qed.

Lemma totalCount_is_sum this opts q :
  Paginated.totalCount (run_query this opts q) =
  (length (Paginated.data (run_query this opts q))
   + next_probe_count this opts (next (q_order q)) (Paginated.data (run_query this opts q))
   + prev_probe_count this opts (prev (q_order q)) (Paginated.data (run_query this opts q)))%nat.
Proof.
  unfold run_query, next_probe_count, prev_probe_count.
  destruct (if q_reverse q then _ else _) as [|first rest] eqn:Hdocs; [reflexivity |].
  destruct (length (first :: rest) =? limit (pagination opts))%nat eqn:Hlen;
    cbn [Paginated.totalCount Paginated.data]; rewrite ?Hlen; cbn [fst snd]; lia.
Qed.

(** C3. [totalCount] is the number of fetched documents plus the counts of
    the two probes, but the sum is not always the number of matching
    documents: following a [prevCursor] to a page shorter than the limit,
    the probe after the last document is skipped, and the documents after
    the page are not counted.  Here five documents match and the page
    before key 4, with limit 3, reports a total of 1. *)
Theorem totalCount_undercounts_on_short_backward_page :
  (forall this opts q,
      Paginated.totalCount (run_query this opts q) =
      (length (Paginated.data (run_query this opts q))
       + next_probe_count this opts (next (q_order q))
           (Paginated.data (run_query this opts q))
       + prev_probe_count this opts (prev (q_order q))
           (Paginated.data (run_query this opts q)))%nat) /\
  Model_countDocuments five_docs (Fields []) = 5%nat /\
  paginate five_docs (request_by_key desc 3 None None) =
    Normal (Paginated.mk
              [ {| _id := key "5"; fields := [] |};
                {| _id := key "4"; fields := [] |};
                {| _id := key "3"; fields := [] |} ]
              5 (Some (encodeCursor {| id := key "3"; v := None |})) None) /\
  paginate five_docs
    (request_by_key desc 3 None (Some (encodeCursor {| id := key "4"; v := None |}))) =
    Normal (Paginated.mk [ {| _id := key "5"; fields := [] |} ] 1 None None).
Proof.
  split; [apply totalCount_is_sum |].
  split; [reflexivity |]. split; vm_compute; reflexivity.
Qed.

(** C5. A [prevCursor] that [paginate] itself returned leads, with the
    same limit, to a page shorter than the limit; its [nextCursor] is
    null although three matching documents lie after its last document.
    (The first request carries a [prevCursor] that does not decode.) *)
Theorem nextCursor_null_although_documents_follow :
  paginate five_docs (request_by_key desc 3 None (Some "e30=")) =
    Normal (Paginated.mk
              [ {| _id := key "3"; fields := [] |};
                {| _id := key "2"; fields := [] |};
                {| _id := key "1"; fields := [] |} ]
              5 None (Some (encodeCursor {| id := key "3"; v := None |}))) /\
  paginate five_docs
    (request_by_key desc 3 None (Some (encodeCursor {| id := key "3"; v := None |}))) =
    Normal (Paginated.mk
              [ {| _id := key "5"; fields := [] |};
                {| _id := key "4"; fields := [] |} ]
              2 None None) /\
  Model_countDocuments five_docs
    (fst (getFiltersFromCursor
            (Some (cursor_of_doc "_id" {| _id := key "4"; fields := [] |}))
            (spec_next_pair desc) "_id" None None)) = 3%nat.
Proof. split; [|split]; vm_compute; reflexivity. Qed.

(* ================================================================== *)
(** ** Orders *)
(* ================================================================== *)

(** A comparison function that decides a strict total order. *)
Record compare_ok {A} (cmp : A -> A -> comparison) : Prop := {
  cmp_antisym : forall a b, cmp b a = CompOpp (cmp a b);
  cmp_eq : forall a b, cmp a b = Eq -> a = b;
  cmp_trans : forall a b c, cmp a b = Lt -> cmp b c = Lt -> cmp a c = Lt
}.

Lemma cmp_refl {A} (cmp : A -> A -> comparison) a : compare_ok cmp -> cmp a a = Eq.
Proof.
  intros H. pose proof (cmp_antisym cmp H a a) as Ha. by destruct (cmp a a).
Qed.

Lemma cmp_gt_trans {A} (cmp : A -> A -> comparison) a b c :
  compare_ok cmp -> cmp a b = Gt -> cmp b c = Gt -> cmp a c = Gt.
Proof.
  intros H Hab Hbc.
  rewrite (cmp_antisym cmp H c a).
  rewrite (cmp_trans cmp H c b a); [done | |].
  - rewrite (cmp_antisym cmp H b c), Hbc. done.
  - rewrite (cmp_antisym cmp H a b), Hab. done.
Qed.

Lemma Z_compare_ok : compare_ok Z.compare.
Proof.
  split.
  - intros a b. apply Z.compare_antisym.
  - intros a b. apply Z.compare_eq.
  - intros a b c. rewrite !Z.compare_lt_iff. lia.
Qed.

Lemma ascii_compare_ok : compare_ok Ascii.compare.
Proof.
  unfold Ascii.compare. split.
  - intros a b. apply N.compare_antisym.
  - intros a b Hab. apply N.compare_eq in Hab.
    rewrite <- (ascii_N_embedding a), <- (ascii_N_embedding b). by rewrite Hab.
  - intros a b c. rewrite !N.compare_lt_iff. lia.
Qed.

Lemma string_compare_ok : compare_ok String.compare.
Proof.
  split.
  - intros a b. apply String.compare_antisym.
  - intros a b. apply String.compare_eq_iff.
  - intros a. induction a as [|x a IH]; intros [|y b] [|z c]; cbn; try done.
    destruct (Ascii.compare x y) eqn:Hxy; [| |done].
    + apply (cmp_eq _ ascii_compare_ok) in Hxy as ->.
      destruct (Ascii.compare y z); [apply IH | done | done].
    + intros _. destruct (Ascii.compare y z) eqn:Hyz; [| |done].
      * apply (cmp_eq _ ascii_compare_ok) in Hyz as <-. by rewrite Hxy.
      * by rewrite (cmp_trans _ ascii_compare_ok x y z).
Qed.

Lemma nat_compare_ok : compare_ok Nat.compare.
Proof.
  split.
  - intros a b. apply Nat.compare_antisym.
  - intros a b. apply Nat.compare_eq.
  - intros a b c. rewrite !Nat.compare_lt_iff. lia.
Qed.

Lemma value_compare_rank a b :
  type_rank a <> type_rank b ->
  value_compare a b = Nat.compare (type_rank a) (type_rank b).
Proof. destruct a, b; cbn; congruence. Qed.

Lemma value_compare_same_rank_lt a b :
  value_compare a b = Lt -> (type_rank a <= type_rank b)%nat.
Proof.
  destruct (decide (type_rank a = type_rank b)) as [->|Hne]; [lia |].
  rewrite value_compare_rank by done. rewrite Nat.compare_lt_iff. lia.
Qed.

Lemma value_compare_ok : compare_ok value_compare.
Proof.
  split.
  - intros a b. destruct a, b; cbn; try done;
      solve [apply Z.compare_antisym | apply String.compare_antisym].
  - intros a b. destruct a, b; cbn; try done; intros H; f_equal;
      solve [by apply Z.compare_eq | by apply String.compare_eq_iff].
  - intros a b c Hab Hbc.
    pose proof (value_compare_same_rank_lt _ _ Hab) as Rab.
    pose proof (value_compare_same_rank_lt _ _ Hbc) as Rbc.
    destruct a, b, c; cbn in *; try done; try lia;
      solve [ eapply (cmp_trans _ Z_compare_ok); eauto
            | eapply (cmp_trans _ string_compare_ok); eauto ].
Qed.

Lemma key_compare_ok : compare_ok key_compare.
Proof.
  unfold key_compare. split.
  - intros [x i] [y j]. cbn.
    rewrite (cmp_antisym _ value_compare_ok x y).
    destruct (value_compare x y); cbn; [apply String.compare_antisym | done | done].
  - intros [x i] [y j]. cbn.
    destruct (value_compare x y) eqn:Hxy; [|done|done].
    intros Hij. apply (cmp_eq _ value_compare_ok) in Hxy.
    apply (cmp_eq _ string_compare_ok) in Hij. congruence.
  - intros [x i] [y j] [z k]. cbn.
    destruct (value_compare x y) eqn:Hxy; [| |done].
    + apply (cmp_eq _ value_compare_ok) in Hxy as ->.
      destruct (value_compare y z); [|done|done].
      apply (cmp_trans _ string_compare_ok).
    + intros _. destruct (value_compare y z) eqn:Hyz; [| |done].
      * apply (cmp_eq _ value_compare_ok) in Hyz as <-. by rewrite Hxy.
      * by rewrite (cmp_trans _ value_compare_ok x y z).
Qed.

Lemma compare_ok_flip {A} (cmp : A -> A -> comparison) :
  compare_ok cmp -> compare_ok (fun a b => CompOpp (cmp a b)).
Proof.
  intros H. split.
  - intros a b. by rewrite (cmp_antisym cmp H a b).
  - intros a b Hab. apply (cmp_eq cmp H). by destruct (cmp a b).
  - intros a b c Hab Hbc. apply CompOpp_iff in Hab, Hbc. cbn in Hab, Hbc.
    apply CompOpp_iff. cbn. by apply (cmp_gt_trans cmp a b c).
Qed.

(** *** Documents in the requested order *)

Lemma compare_docs_spec_rules dir op sort_by d1 d2 :
  compare_docs (spec_sort_rules (dir, op) sort_by) d1 d2 =
  apply_direction dir (key_compare (sort_key sort_by d1) (sort_key sort_by d2)).
Proof.
  unfold spec_sort_rules, sort_key, key_compare. cbn [fst snd].
  destruct (String.eqb_spec sort_by "_id") as [->|Hne]; cbn [compare_docs].
  - change (doc_get d1 "_id") with (VObjectId (_id d1)).
    change (doc_get d2 "_id") with (VObjectId (_id d2)).
    cbn [value_compare].
    destruct dir; cbn; by destruct (String.compare (_id d1) (_id d2)).
  - change (doc_get d1 "_id") with (VObjectId (_id d1)).
    change (doc_get d2 "_id") with (VObjectId (_id d2)).
    cbn [value_compare].
    generalize (doc_get d1 sort_by) (doc_get d2 sort_by). intros x y.
    destruct dir; cbn; destruct (value_compare x y); cbn; try done;
      by destruct (String.compare (_id d1) (_id d2)).
Qed.

Lemma forward_key_compare_ok o :
  compare_ok (fun k1 k2 => apply_direction (direction_of o) (key_compare k1 k2)).
Proof.
  destruct o; cbn.
  - apply key_compare_ok.
  - apply compare_ok_flip, key_compare_ok.
Qed.

Lemma forward_compare_antisym o sort_by d1 d2 :
  forward_compare o sort_by d2 d1 = CompOpp (forward_compare o sort_by d1 d2).
Proof. apply (cmp_antisym _ (forward_key_compare_ok o)). Qed.

Lemma forward_compare_eq o sort_by d1 d2 :
  forward_compare o sort_by d1 d2 = Eq -> _id d1 = _id d2.
Proof.
  intros H. apply (cmp_eq _ (forward_key_compare_ok o)) in H.
  unfold sort_key in H. congruence.
Qed.

Lemma forward_compare_same_key o sort_by d1 d2 :
  sort_key sort_by d1 = sort_key sort_by d2 -> forward_compare o sort_by d1 d2 = Eq.
Proof.
  intros H. unfold forward_compare. rewrite H.
  apply (cmp_refl _ _ (forward_key_compare_ok o)).
Qed.

Lemma forward_compare_trans o sort_by d1 d2 d3 :
  forward_compare o sort_by d1 d2 = Lt -> forward_compare o sort_by d2 d3 = Lt ->
  forward_compare o sort_by d1 d3 = Lt.
Proof. apply (cmp_trans _ (forward_key_compare_ok o)). Qed.

Lemma precedes_forward_compare o sort_by d1 d2 :
  precedes o sort_by d1 d2 <-> forward_compare o sort_by d1 d2 = Lt.
Proof.
  unfold precedes, forward_compare. destruct o; cbn; [done |].
  by destruct (key_compare _ _).
Qed.

(** The sort rules of a fetch in the requested direction order the
    documents by [forward_compare]. *)
Lemma sorted_before_forward o op sort_by d1 d2 :
  sorted_before (spec_sort_rules (direction_of o, op) sort_by) d1 d2 <->
  forward_compare o sort_by d1 d2 <> Gt.
Proof. unfold sorted_before. by rewrite compare_docs_spec_rules. Qed.

Lemma sorted_before_total o op sort_by :
  Total (sorted_before (spec_sort_rules (direction_of o, op) sort_by)).
Proof.
  intros d1 d2. rewrite !sorted_before_forward.
  rewrite (forward_compare_antisym o sort_by d1 d2).
  destruct (forward_compare o sort_by d1 d2); cbn; auto.
Qed.

Lemma sorted_before_transitive o op sort_by :
  Transitive (sorted_before (spec_sort_rules (direction_of o, op) sort_by)).
Proof.
  intros d1 d2 d3. rewrite !sorted_before_forward. intros H12 H23 H13.
  pose proof (forward_compare_antisym o sort_by d1 d3) as H31. rewrite H13 in H31.
  cbn in H31.
  destruct (forward_compare o sort_by d1 d2) eqn:E12; [| |done].
  - (* d1 and d2 have the same position *)
    apply (cmp_eq _ (forward_key_compare_ok o)) in E12.
    apply H23. unfold forward_compare in *. by rewrite <- E12.
  - destruct (forward_compare o sort_by d2 d3) eqn:E23; [| |done].
    + apply (cmp_eq _ (forward_key_compare_ok o)) in E23.
      unfold forward_compare in *. rewrite <- E23 in H13. congruence.
    + pose proof (forward_compare_trans o sort_by d1 d2 d3 E12 E23). congruence.
Qed.

(** *** What a cursor filter selects *)

Lemma cursor_of_doc_has_no_v_on_key sort_by c :
  v (cursor_of_doc sort_by c) <> None -> sort_by <> "_id".
Proof. unfold cursor_of_doc. cbn. intros H ->. by apply H. Qed.

(** The filter built from the cursor of [c] selects, among the documents
    of the base filter, those whose position compares with the position of
    [c] as the operator says. *)
Lemma cursor_filter_selects dir op sort_by parse base rank c d :
  (sort_by = "_id" \/
   (sort_value_ok sort_by parse rank c /\
    (selected_by base d = true -> sort_value_ok sort_by parse rank d))) ->
  matches_filter
    (fst (getFiltersFromCursor (Some (cursor_of_doc sort_by c))
            (dir, op) sort_by parse base)) d =
  match op, key_compare (sort_key sort_by d) (sort_key sort_by c) with
  | op_gt, Gt | op_lt, Lt => selected_by base d
  | _, _ => false
  end.
Proof.
  intros Hok.
  rewrite getFilters_selects
    by (intros c' [= <-]; apply cursor_of_doc_has_no_v_on_key).
  unfold spec_filter_selects, key_compare, sort_key, cursor_of_doc.
  fold (selected_by base d). cbn [v id fst snd].
  destruct (String.eqb_spec sort_by "_id") as [->|Hne].
  - (* sorted by the primary key *)
    cbn [value_compare].
    change (doc_get d "_id") with (VObjectId (_id d)). cbn.
    destruct op, (String.compare (_id d) (_id c)); cbn; try done;
      by destruct (selected_by base d).
  - destruct Hok as [?|[(Hrc & text & Htext & Hparse) Hd]]; [done |].
    rewrite Htext. fold (parsed_sort_value parse text). rewrite Hparse.
    destruct (selected_by base d) eqn:Hsel.
    2:{ rewrite andb_false_r.
        by destruct op, (value_compare (doc_get d sort_by) (doc_get c sort_by)),
             (String.compare (_id d) (_id c)). }
    destruct (Hd eq_refl) as (Hrd & _).
    rewrite andb_true_r.
    change (doc_get d "_id") with (VObjectId (_id d)).
    unfold condition_holds, cast_query_value.
    apply String.eqb_neq in Hne. rewrite Hne. cbn [String.eqb Ascii.eqb Bool.eqb].
    change ("_id" =? "_id") with true. cbn iota.
    rewrite Hrd, Hrc, Nat.eqb_refl. cbn [type_rank Nat.eqb andb value_compare].
    destruct op, (value_compare (doc_get d sort_by) (doc_get c sort_by));
      cbn; try done; by destruct (String.compare (_id d) (_id c)).
Qed.

(* ================================================================== *)
(** ** Lists *)
(* ================================================================== *)

Lemma List_filter_Permutation {A} (f : A -> bool) (l l' : list A) :
  l ≡ₚ l' -> List.filter f l ≡ₚ List.filter f l'.
Proof.
  induction 1 as [|x l l' _ IH|x y l|l l' l'' _ IH1 _ IH2]; cbn.
  - done.
  - destruct (f x); [by constructor | done].
  - destruct (f x), (f y); try done. apply perm_swap.
  - by etrans.
Qed.

Lemma List_filter_andb {A} (f g : A -> bool) (l : list A) :
  List.filter (fun x => f x && g x) l = List.filter f (List.filter g l).
Proof.
  induction l as [|x l IH]; cbn; [done |].
  destruct (g x); cbn; [|by rewrite andb_false_r].
  rewrite andb_true_r. destruct (f x); by rewrite IH.
Qed.

Lemma List_filter_elem_of {A} (f : A -> bool) (l : list A) x :
  x ∈ List.filter f l <-> x ∈ l /\ f x = true.
Proof. rewrite !list_elem_of_In. apply filter_In. Qed.

Lemma List_filter_all {A} (f : A -> bool) (l : list A) :
  (forall x, x ∈ l -> f x = true) -> List.filter f l = l.
Proof.
  induction l as [|x l IH]; cbn; intros H; [done |].
  rewrite H by left. f_equal. apply IH. intros y Hy. apply H. by right.
Qed.

Lemma List_filter_none {A} (f : A -> bool) (l : list A) :
  (forall x, x ∈ l -> f x = false) -> List.filter f l = [].
Proof.
  induction l as [|x l IH]; cbn; intros H; [done |].
  rewrite H by left. apply IH. intros y Hy. apply H. by right.
Qed.

Lemma StronglySorted_List_filter {A} (R : relation A) (f : A -> bool) l :
  StronglySorted R l -> StronglySorted R (List.filter f l).
Proof.
  induction 1 as [|x l Hl IH Hx]; cbn; [constructor |].
  destruct (f x); [|done]. constructor; [done |].
  apply Forall_forall. intros y Hy. apply List_filter_elem_of in Hy as [Hy _].
  by eapply Forall_forall in Hx.
Qed.

Lemma NoDup_map_inj_on {A B} (f : A -> B) (l : list A) x y :
  NoDup (map f l) -> x ∈ l -> y ∈ l -> f x = f y -> x = y.
Proof.
  induction l as [|z l IH]; cbn; intros Hnd Hx Hy Hf; [by inversion Hx |].
  apply NoDup_cons in Hnd as [Hz Hnd].
  apply elem_of_cons in Hx as [->|Hx]; apply elem_of_cons in Hy as [->|Hy].
  - done.
  - exfalso. apply Hz. rewrite Hf. by apply list_elem_of_fmap_2.
  - exfalso. apply Hz. rewrite <- Hf. by apply list_elem_of_fmap_2.
  - by apply IH.
Qed.

(** In a sorted list without repetition, the elements selected by a test
    that holds exactly after position [i] are the elements after [i]. *)
Lemma List_filter_after {A} (f : A -> bool) (l : list A) i c :
  l !! i = Some c ->
  (forall x, x ∈ take i l -> f x = false) ->
  f c = false ->
  (forall x, x ∈ drop (S i) l -> f x = true) ->
  List.filter f l = drop (S i) l.
Proof.
  intros Hi Hbefore Hc Hafter.
  rewrite <- (take_drop_middle l i c Hi) at 1.
  rewrite List.filter_app. cbn. rewrite Hc.
  rewrite List_filter_none by done. by rewrite List_filter_all.
Qed.

Lemma List_filter_before {A} (f : A -> bool) (l : list A) i c :
  l !! i = Some c ->
  (forall x, x ∈ take i l -> f x = true) ->
  f c = false ->
  (forall x, x ∈ drop (S i) l -> f x = false) ->
  List.filter f l = take i l.
Proof.
  intros Hi Hbefore Hc Hafter.
  rewrite <- (take_drop_middle l i c Hi) at 1.
  rewrite List.filter_app. cbn. rewrite Hc.
  rewrite (List_filter_none f (drop (S i) l)) by done.
  rewrite app_nil_r. by rewrite List_filter_all.
Qed.

(* ================================================================== *)
(** ** Following [nextCursor] *)
(* ================================================================== *)

Section Traversal.
Variable this : list doc.
Variable opts : PaginateOpts.
Hypothesis Hok : traversable this opts.

#[local] Abbreviation o := (order (pagination opts)).
#[local] Abbreviation sort_by := (sortBy (pagination opts)).
#[local] Abbreviation n := (limit (pagination opts)).
#[local] Abbreviation base := (filters opts).
#[local] Abbreviation parse := (parseSortValue opts).
#[local] Abbreviation rules :=
  (spec_sort_rules (direction_of o, forward_operator o) sort_by).
#[local] Abbreviation L := (matching_in_order this opts).

Lemma matching_Permutation : L ≡ₚ List.filter (selected_by base) this.
Proof. apply merge_sort_Permutation. Qed.

Lemma matching_elem_of d : d ∈ L <-> d ∈ this /\ selected_by base d = true.
Proof. rewrite matching_Permutation. apply List_filter_elem_of. Qed.

Lemma matching_StronglySorted : StronglySorted (sorted_before rules) L.
Proof.
  apply (@StronglySorted_merge_sort _ _ _ (sorted_before_transitive o (forward_operator o) sort_by)
           (sorted_before_total o (forward_operator o) sort_by)).
Qed.

Lemma same_position_same_doc d1 d2 :
  d1 ∈ this -> d2 ∈ this -> forward_compare o sort_by d1 d2 = Eq -> d1 = d2.
Proof.
  intros H1 H2 Heq. apply forward_compare_eq in Heq.
  by apply (NoDup_map_inj_on _id this); [apply Hok | | |].
Qed.

Lemma matching_NoDup : NoDup L.
Proof.
  rewrite matching_Permutation.
  apply NoDup_ListNoDup, List.NoDup_filter, NoDup_ListNoDup.
  eapply NoDup_fmap_1, Hok.
Qed.

(** A fetch in the requested direction whose filter selects, among the
    documents of the base filter, those passing [test], returns the
    documents of [L] passing [test], in the order of [L]. *)
Lemma fetch_in_order (test : doc -> bool) :
  merge_sort (sorted_before rules)
    (List.filter (fun d => test d && selected_by base d) this) =
  List.filter test L.
Proof.
  apply (@Sorted_unique_strong _ _ (sorted_before_transitive o (forward_operator o) sort_by)).
  - intros d1 d2 H1 H2 H12 H21.
    apply List_filter_elem_of in H2 as [H2 _]. apply matching_elem_of in H2 as [H2 _].
    rewrite merge_sort_Permutation in H1.
    apply List_filter_elem_of in H1 as [H1 _].
    apply sorted_before_forward in H12, H21.
    apply same_position_same_doc; [done | done |].
    rewrite forward_compare_antisym in H21.
    by destruct (forward_compare o sort_by d1 d2).
  - apply (@Sorted_merge_sort _ _ _ (sorted_before_total o (forward_operator o) sort_by)).
  - apply StronglySorted_Sorted, StronglySorted_List_filter, matching_StronglySorted.
  - rewrite merge_sort_Permutation, List_filter_andb.
    apply List_filter_Permutation. symmetry. apply matching_Permutation.
Qed.

Lemma comes_after_irrefl c : comes_after o sort_by c c = false.
Proof.
  unfold comes_after. by rewrite forward_compare_same_key.
Qed.

(** In [L], what stands before a document does not come after it, and
    what stands after it does. *)
Lemma positions_in_order i c :
  L !! i = Some c ->
  (forall x, x ∈ take i L ->
             comes_after o sort_by c x = false /\ comes_after o sort_by x c = true) /\
  (forall x, x ∈ drop (S i) L ->
             comes_after o sort_by c x = true /\ comes_after o sort_by x c = false).
Proof.
  intros Hi.
  pose proof matching_StronglySorted as Hs.
  pose proof matching_NoDup as Hnd.
  rewrite <- (take_drop_middle L i c Hi) in Hs, Hnd.
  apply StronglySorted_app in Hs as (Hs12 & _ & Hs2).
  apply StronglySorted_cons in Hs2 as (Hafter & _).
  rewrite Forall_forall in Hafter.
  apply NoDup_app in Hnd as (_ & Hnd1 & Hnd2).
  apply NoDup_cons in Hnd2 as [Hnd2 _].
  assert (Hin : forall x, x ∈ L -> x ∈ this).
  { intros x Hx. by apply matching_elem_of in Hx as [? _]. }
  assert (Hc : c ∈ L) by (by eapply list_elem_of_lookup_2).
  split; intros x Hx; unfold comes_after.
  - assert (Hxc : sorted_before rules x c) by (apply Hs12; [done | by left]).
    apply sorted_before_forward in Hxc.
    rewrite (forward_compare_antisym o sort_by x c).
    destruct (forward_compare o sort_by x c) eqn:E; [| done | done].
    exfalso. apply (Hnd1 x Hx).
    apply same_position_same_doc in E as ->; [by left | | by apply Hin].
    apply Hin. by eapply subseteq_take.
  - assert (Hcx : sorted_before rules c x) by (by apply Hafter).
    apply sorted_before_forward in Hcx.
    rewrite (forward_compare_antisym o sort_by c x).
    destruct (forward_compare o sort_by c x) eqn:E; [| done | done].
    exfalso. apply Hnd2.
    apply same_position_same_doc in E as ->; [done | by apply Hin |].
    apply Hin. by eapply subseteq_drop.
Qed.

(** The documents of [L] that come after the one at position [i] are
    those at the positions after [i]; those it comes after are those at
    the positions before [i]. *)
Lemma after_position i c :
  L !! i = Some c ->
  List.filter (comes_after o sort_by c) L = drop (S i) L.
Proof.
  intros Hi. destruct (positions_in_order i c Hi) as [Hb Ha].
  apply (List_filter_after _ _ i c Hi).
  - intros x Hx. by apply Hb.
  - apply comes_after_irrefl.
  - intros x Hx. by apply Ha.
Qed.

Lemma before_position i c :
  L !! i = Some c ->
  List.filter (fun d => comes_after o sort_by d c) L = take i L.
Proof.
  intros Hi. destruct (positions_in_order i c Hi) as [Hb Ha].
  apply (List_filter_before _ _ i c Hi).
  - intros x Hx. by apply Hb.
  - apply comes_after_irrefl.
  - intros x Hx. by apply Ha.
Qed.

Lemma sort_values_usable :
  sort_by = "_id" \/
  exists rank, forall d, d ∈ this -> selected_by base d = true ->
                         sort_value_ok sort_by parse rank d.
Proof.
  destruct (sort_values_ok _ _ Hok) as [?|[rank H]]; [by left | right].
  exists rank. intros d Hd. by eapply Forall_forall in H.
Qed.

Lemma cursor_filter_in_store dir op c d :
  c ∈ L -> d ∈ this ->
  matches_filter
    (fst (getFiltersFromCursor (Some (cursor_of_doc sort_by c))
            (dir, op) sort_by parse base)) d =
  match op, key_compare (sort_key sort_by d) (sort_key sort_by c) with
  | op_gt, Gt | op_lt, Lt => selected_by base d
  | _, _ => false
  end.
Proof.
  intros Hc Hd. apply matching_elem_of in Hc as [Hc Hsel].
  destruct sort_values_usable as [Hkey|[rank Hrank]].
  - by apply (cursor_filter_selects dir op sort_by parse base 0 c d); left.
  - apply (cursor_filter_selects dir op sort_by parse base rank c d).
    right. split; [by apply Hrank | by apply Hrank].
Qed.

(** The filter of the cursor of a matching document [c] selects, with the
    forward operator, the matching documents that come after [c] and, with
    the backward operator, those that [c] comes after. *)
Lemma cursor_filter_after dir c d :
  c ∈ L -> d ∈ this ->
  matches_filter
    (fst (getFiltersFromCursor (Some (cursor_of_doc sort_by c))
            (dir, forward_operator o) sort_by parse base)) d =
  comes_after o sort_by c d && selected_by base d.
Proof.
  intros Hc Hd. rewrite cursor_filter_in_store by done.
  unfold comes_after. rewrite (forward_compare_antisym o sort_by d c).
  unfold forward_compare.
  by destruct o, (key_compare (sort_key sort_by d) (sort_key sort_by c)).
Qed.

Lemma cursor_filter_before dir c d :
  c ∈ L -> d ∈ this ->
  matches_filter
    (fst (getFiltersFromCursor (Some (cursor_of_doc sort_by c))
            (dir, backward_operator o) sort_by parse base)) d =
  comes_after o sort_by d c && selected_by base d.
Proof.
  intros Hc Hd. rewrite cursor_filter_in_store by done.
  unfold comes_after, forward_compare.
  by destruct o, (key_compare (sort_key sort_by d) (sort_key sort_by c)).
Qed.

(** The fetch after the cursor of the document at position [i]. *)
Lemma fetch_after_cursor dir c i :
  L !! i = Some c ->
  merge_sort (sorted_before rules)
    (List.filter
       (matches_filter
          (fst (getFiltersFromCursor (Some (cursor_of_doc sort_by c))
                  (dir, forward_operator o) sort_by parse base))) this) =
  drop (S i) L.
Proof.
  intros Hi.
  rewrite <- (after_position i c Hi), <- fetch_in_order. f_equal.
  apply filter_ext_in. intros d Hd.
  apply cursor_filter_after; [by eapply list_elem_of_lookup_2 | by apply list_elem_of_In].
Qed.

(** The probes after and before the cursor of the document at position
    [i]. *)
Lemma count_after_cursor dir c i :
  L !! i = Some c ->
  Model_countDocuments this
    (fst (getFiltersFromCursor (Some (cursor_of_doc sort_by c))
            (dir, forward_operator o) sort_by parse base)) =
  (length L - S i)%nat.
Proof.
  intros Hi. unfold Model_countDocuments.
  rewrite <- (length_drop L (S i)), <- (fetch_after_cursor dir c i Hi).
  by rewrite merge_sort_Permutation.
Qed.

Lemma count_before_cursor dir c i :
  L !! i = Some c ->
  Model_countDocuments this
    (fst (getFiltersFromCursor (Some (cursor_of_doc sort_by c))
            (dir, backward_operator o) sort_by parse base)) = i.
Proof.
  intros Hi. unfold Model_countDocuments.
  assert (Hlen : length (take i L) = i).
  { apply length_take_le. apply lookup_lt_Some in Hi. lia. }
  transitivity (length (take i L)); [|exact Hlen].
  rewrite <- (before_position i c Hi), <- fetch_in_order.
  rewrite merge_sort_Permutation. f_equal.
  apply filter_ext_in. intros d Hd.
  apply cursor_filter_before; [by eapply list_elem_of_lookup_2 | by apply list_elem_of_In].
Qed.

(** The first fetch. *)
Lemma fetch_initial :
  merge_sort (sorted_before rules)
    (List.filter
       (matches_filter match base with
                       | Some b => And [Fields []; Base b]
                       | None => Fields []
                       end) this) = L.
Proof.
  unfold matching_in_order. f_equal. apply filter_ext. intros d.
  rewrite matches_with_base. reflexivity.
Qed.

Lemma List_last_lookup {A} (l : list A) (d x : A) i :
  l !! i = Some x -> length l = S i -> List.last l d = x.
Proof.
  revert i. induction l as [|y l IH]; intros i Hi Hlen; [done |].
  destruct l as [|z l].
  - destruct i; [by inversion Hi | done].
  - destruct i as [|i]; [done |].
    change (List.last (y :: z :: l) d) with (List.last (z :: l) d).
    apply (IH i); [done | by inversion Hlen].
Qed.

(** A page of a walk along [nextCursor]: when the fetch of the query is
    [L] from position [p] on, the page is the next [n] documents, its
    [nextCursor] is [next_token], and its [totalCount] is the number of
    documents in [L]. *)
Lemma run_query_forward_page p token q :
  q_reverse q = false ->
  q_limit q = n ->
  merge_sort (sorted_before (q_sort q))
    (List.filter (matches_filter (q_filter q)) this) = drop p L ->
  snd (next (q_order q)) = forward_operator o ->
  snd (prev (q_order q)) = backward_operator o ->
  (p = 0 \/ p < length L)%nat ->
  Paginated.data (run_query this (with_nextCursor opts token) q) = take n (drop p L) /\
  Paginated.nextCursor (run_query this (with_nextCursor opts token) q) =
    next_token this opts p /\
  Paginated.totalCount (run_query this (with_nextCursor opts token) q) = length L.
Proof.
  intros Hrev Hlim Hfetch Hop Hop' Hp.
  pose proof (limit_positive _ _ Hok) as Hn.
  split; [rewrite run_query_data, Hrev; unfold Model_find; rewrite Hfetch, Hlim;
          by destruct n as [|?]; [lia |] |].
  unfold run_query, Model_find. rewrite Hrev, Hlim, Hfetch.
  destruct (Nat.eqb_spec n 0) as [?|_]; [lia |].
  cbn [with_nextCursor pagination sortBy limit parseSortValue filters].
  unfold next_token.
  pose proof (length_take (drop p L) n) as Hlen. rewrite length_drop in Hlen.
  destruct (take n (drop p L)) as [|first rest] eqn:Hdocs.
  - cbn in Hlen. rewrite decide_False by lia.
    split; [reflexivity |]. cbn [Paginated.totalCount]. lia.
  - assert (Hfirst : L !! p = Some first).
    { rewrite <- (Nat.add_0_r p), <- lookup_drop, <- (lookup_take_lt _ n) by lia.
      by rewrite Hdocs. }
    destruct (prev (q_order q)) as [dir' op']. cbn in Hop'. subst op'.
    rewrite (count_before_cursor dir' first p Hfirst).
    cbn [length] in Hlen.
    destruct (Nat.eqb_spec (length (first :: rest)) n) as [Hfull|Hshort].
    + (* a full page: the probe decides *)
      cbn [length] in Hfull.
      assert (Hlast : exists c, L !! (p + n - 1)%nat = Some c) by
        (apply lookup_lt_is_Some; lia).
      destruct Hlast as [c Hc].
      assert (Hl : List.last (first :: rest) first = c).
      { apply (List_last_lookup _ _ _ (n - 1)); [|cbn [length]; lia].
        rewrite <- Hdocs, lookup_take_lt, lookup_drop by lia.
        rewrite <- Hc. f_equal. lia. }
      rewrite Hl. destruct (next (q_order q)) as [dir op]. cbn in Hop. subst op.
      rewrite (count_after_cursor dir c _ Hc).
      cbn [Paginated.nextCursor Paginated.totalCount length]. rewrite Hc.
      split; [|lia].
      destruct (Nat.eqb_spec (length L - S (p + n - 1)) 0) as [Hz|Hnz].
      * rewrite decide_False by lia. reflexivity.
      * rewrite decide_True by lia. reflexivity.
    + cbn [length] in Hshort.
      cbn [Paginated.nextCursor Paginated.totalCount length].
      rewrite decide_False by lia. split; [reflexivity | lia].
Qed.

Lemma spec_sort_rules_forward dir op :
  dir = direction_of o -> spec_sort_rules (dir, op) sort_by = rules.
Proof. by intros ->. Qed.

(** The query of the first request and of a request with a token. *)
Lemma getQuery_first :
  _getQuery (pagination (with_nextCursor opts None)) parse base =
  Normal {| q_filter := match base with
                        | Some b => And [Fields []; Base b]
                        | None => Fields []
                        end;
            q_cursor := None;
            q_sort := rules;
            q_order := {| current := match o with
                                     | desc => (Descending, op_gt)
                                     | asc => (Ascending, op_lt)
                                     end;
                          next := match o with
                                  | desc => (Ascending, op_lt)
                                  | asc => (Descending, op_gt)
                                  end;
                          prev := match o with
                                  | desc => (Descending, op_gt)
                                  | asc => (Ascending, op_lt)
                                  end |};
            q_reverse := false;
            q_limit := n |}.
Proof.
  unfold _getQuery.
  cbn [with_nextCursor pagination prevCursor nextCursor order limit sortBy truthy].
  cbn [mbind completion_bind].
  rewrite (surjective_pairing (getFiltersFromCursor _ _ _ _ _)), getFilters_sort.
  by destruct o.
Qed.

Lemma getQuery_forward token cursor :
  truthy (Some token) = Some token ->
  decodeCursor token = Normal cursor ->
  _getQuery (pagination (with_nextCursor opts (Some token))) parse base =
  Normal {| q_filter :=
              fst (getFiltersFromCursor cursor (direction_of o, forward_operator o)
                     sort_by parse base);
            q_cursor := cursor;
            q_sort := rules;
            q_order := {| current := (direction_of o, forward_operator o);
                          next := match o with
                                  | desc => (Ascending, op_lt)
                                  | asc => (Descending, op_gt)
                                  end;
                          prev := match o with
                                  | desc => (Descending, op_gt)
                                  | asc => (Ascending, op_lt)
                                  end |};
            q_reverse := false;
            q_limit := n |}.
Proof.
  intros Ht Hd. unfold _getQuery.
  cbn [with_nextCursor pagination prevCursor nextCursor order limit sortBy].
  change (truthy None) with (@None string). cbn iota.
  rewrite Ht, Hd. cbn [mbind completion_bind].
  rewrite (surjective_pairing (getFiltersFromCursor _ _ _ _ _)), getFilters_sort.
  by destruct o.
Qed.

(** The first page. *)
Lemma paginate_first_page :
  exists r,
    paginate this (with_nextCursor opts None) = Normal r /\
    Paginated.data r = take n (drop 0 L) /\
    Paginated.nextCursor r = next_token this opts 0 /\
    Paginated.totalCount r = length L.
Proof.
  unfold paginate.
  change (parseSortValue (with_nextCursor opts None)) with parse.
  change (filters (with_nextCursor opts None)) with base.
  rewrite getQuery_first. cbn [mbind completion_bind].
  eexists. split; [reflexivity |].
  apply run_query_forward_page;
    cbn [q_reverse q_limit q_sort q_filter q_order next prev].
  - reflexivity.
  - reflexivity.
  - apply fetch_initial.
  - by destruct o.
  - by destruct o.
  - by left.
Qed.

(** The page after the cursor of the document at position [p]. *)
Lemma paginate_next_page p c :
  L !! p = Some c ->
  (S p < length L)%nat ->
  exists r,
    paginate this
      (with_nextCursor opts (Some (encodeCursor (cursor_of_doc sort_by c)))) = Normal r /\
    Paginated.data r = take n (drop (S p) L) /\
    Paginated.nextCursor r = next_token this opts (S p) /\
    Paginated.totalCount r = length L.
Proof.
  intros Hp Hlt.
  assert (Hdec : decodeCursor (encodeCursor (cursor_of_doc sort_by c)) =
                 Normal (Some (cursor_of_doc sort_by c))).
  { apply decodeCursor_encodeCursor. cbn [cursor_of_doc id].
    pose proof (keys_valid _ _ Hok) as Hv. rewrite Forall_forall in Hv.
    apply Hv. apply list_elem_of_lookup_2 in Hp. by apply matching_elem_of in Hp as [? _]. }
  unfold paginate.
  change (parseSortValue (with_nextCursor opts ?t)) with parse.
  change (filters (with_nextCursor opts ?t)) with base.
  rewrite (getQuery_forward _ _ (encodeCursor_truthy _) Hdec).
  cbn [mbind completion_bind].
  eexists. split; [reflexivity |].
  apply run_query_forward_page;
    cbn [q_reverse q_limit q_sort q_filter q_order next prev].
  - reflexivity.
  - reflexivity.
  - by apply fetch_after_cursor.
  - by destruct o.
  - by destruct o.
  - by right.
Qed.

(** The page requested at position [p] of the walk: with no token at the
    start, and otherwise with the token of the document at [p - 1]. *)
Lemma paginate_page_at p token :
  (p = 0%nat /\ token = None) \/
  (exists c, L !! (p - 1)%nat = Some c /\ (0 < p < length L)%nat /\
             token = Some (encodeCursor (cursor_of_doc sort_by c))) ->
  exists r,
    paginate this (with_nextCursor opts token) = Normal r /\
    Paginated.data r = take n (drop p L) /\
    Paginated.nextCursor r = next_token this opts p /\
    Paginated.totalCount r = length L.
Proof.
  intros [[-> ->]|(c & Hc & Hp & ->)].
  - apply paginate_first_page.
  - destruct p as [|p]; [lia |].
    replace (S p - 1)%nat with p in Hc by lia. apply paginate_next_page; [done | lia].
Qed.

(** From position [p] on, the walk sees the rest of [L] and ends, and
    every response on the way reports the number of documents in [L]. *)
Lemma follow_next_from calls : forall p token,
  (p = 0%nat /\ token = None) \/
  (exists c, L !! (p - 1)%nat = Some c /\ (0 < p < length L)%nat /\
             token = Some (encodeCursor (cursor_of_doc sort_by c))) ->
  (length L - p < calls)%nat ->
  exists pages,
    follow_next calls this opts token = Normal (pages, true) /\
    visited pages = drop p L /\
    Forall (fun r => Paginated.totalCount r = length L) pages.
Proof.
  pose proof (limit_positive _ _ Hok) as Hn.
  induction calls as [|calls IH]; intros p token Hpos Hcalls; [lia |].
  destruct (paginate_page_at p token Hpos) as (r & Hr & Hdata & Hnext & Htotal).
  cbn [follow_next]. rewrite Hr. cbn [mbind completion_bind].
  rewrite Hnext. unfold next_token.
  destruct (decide (p + n < length L)%nat) as [Hmore|Hlast].
  - destruct (lookup_lt_is_Some_2 L (p + n - 1)) as [c Hc]; [lia |].
    rewrite Hc. cbn [option_map].
    destruct (IH (p + n)%nat (Some (encodeCursor (cursor_of_doc sort_by c))))
      as (pages & Hpages & Hvisited & Htotals).
    + right. exists c. split; [done | split; [lia | done]].
    + lia.
    + rewrite Hpages. cbn [mbind completion_bind].
      eexists. split; [reflexivity |]. split; [|by constructor].
      unfold visited in *. cbn [map concat]. rewrite Hvisited, Hdata.
      rewrite <- (drop_drop L n p). apply take_drop.
  - eexists. split; [reflexivity |]. split; [|by repeat constructor].
    unfold visited. cbn [map concat]. rewrite app_nil_r, Hdata.
    apply take_ge. rewrite length_drop. lia.
Qed.

Lemma matching_in_requested_order : StronglySorted (precedes o sort_by) L.
Proof.
  pose proof matching_StronglySorted as Hs.
  pose proof matching_NoDup as Hnd.
  assert (Hin : forall x, x ∈ L -> x ∈ this).
  { intros x Hx. by apply matching_elem_of in Hx as [? _]. }
  revert Hs Hnd Hin. generalize L. intros l Hs.
  induction Hs as [|x l Hl IH Hx]; intros Hnd Hin; [constructor |].
  apply NoDup_cons in Hnd as [Hxl Hnd].
  constructor.
  - apply IH; [done |]. intros y Hy. apply Hin. by right.
  - rewrite Forall_forall in Hx |- *. intros y Hy.
    apply precedes_forward_compare.
    pose proof (Hx y Hy) as Hxy. apply sorted_before_forward in Hxy.
    destruct (forward_compare o sort_by x y) eqn:E; [| done | done].
    apply same_position_same_doc in E as ->; [done | |].
    + apply Hin. by left.
    + apply Hin. by right.
Qed.

Lemma matching_length : (length L <= length this)%nat.
Proof.
  rewrite matching_Permutation. apply List.filter_length_le.
Qed.

(** X27. On a store whose keys are distinct and have the format
    of a key, with a positive limit and, when the sort field is not the
    primary key, with selected documents whose sort values are of one
    type, not null, and recovered by the parser from their text: starting
    without cursor and calling [paginate] with each returned [nextCursor],
    more than [length this] calls are never needed; the walk ends on a
    page whose [nextCursor] is null, and the pages put end to end hold
    every document the filter selects exactly once, in the requested
    order with ties broken by the primary key. *)
Theorem following_nextCursor_visits_each_match_once (calls : nat) :
  (length this < calls)%nat ->
  exists pages : list (Paginated.t doc),
    follow_next calls this opts None = Normal (pages, true) /\
    visited pages ≡ₚ List.filter (selected_by base) this /\
    NoDup (visited pages) /\
    StronglySorted (precedes o sort_by) (visited pages).
Proof.
  intros Hcalls.
  destruct (follow_next_from calls 0 None) as (pages & Hpages & Hvisited & _).
  - by left.
  - pose proof matching_length. lia.
  - exists pages. rewrite Hvisited. cbn [drop].
    split; [done |]. split; [apply matching_Permutation |].
    split; [apply matching_NoDup | apply matching_in_requested_order].
Qed.

(** Along such a walk every response reports as [totalCount] the number
    of documents the filter selects. *)
Lemma totalCount_exact_along_nextCursor (calls : nat) :
  (length this < calls)%nat ->
  exists pages : list (Paginated.t doc),
    follow_next calls this opts None = Normal (pages, true) /\
    Forall (fun r => Paginated.totalCount r =
                     Model_countDocuments this
                       match base with
                       | Some b => And [Fields []; Base b]
                       | None => Fields []
                       end) pages.
Proof.
  intros Hcalls.
  destruct (follow_next_from calls 0 None) as (pages & Hpages & _ & Htotals).
  - by left.
  - pose proof matching_length. lia.
  - exists pages. split; [done |].
    assert (Hlen : length L =
                   Model_countDocuments this
                     match base with
                     | Some b => And [Fields []; Base b]
                     | None => Fields []
                     end).
    { rewrite <- fetch_initial. unfold Model_countDocuments.
      by rewrite merge_sort_Permutation. }
    by rewrite <- Hlen.
Qed.

End Traversal.
(* ================================================================== *)
(** ** Every page, whatever the request *)
(* ================================================================== *)

(** A filter built by [getFiltersFromCursor] selects nothing that the
    base filter does not select. *)
Lemma getFilters_within_base cursor order sort_by parse base d :
  matches_filter (fst (getFiltersFromCursor cursor order sort_by parse base)) d = true ->
  selected_by base d = true.
Proof.
  unfold getFiltersFromCursor, selected_by.
  destruct cursor as [c|]; [destruct (v c)|]; cbn [fst];
    rewrite matches_with_base; intros H; apply andb_true_iff in H as [_ H];
    by destruct base.
Qed.

Lemma List_filter_submseteq {A} (f g : A -> bool) (l : list A) :
  (forall x, f x = true -> g x = true) -> List.filter f l ⊆+ List.filter g l.
Proof.
  intros Hfg. induction l as [|x l IH]; cbn; [done |].
  destruct (f x) eqn:Hf.
  - rewrite (Hfg x Hf). by constructor.
  - destruct (g x); [by constructor | done].
Qed.

Lemma Model_find_submseteq this f rules n :
  Model_find this f rules n ⊆+ List.filter (matches_filter f) this.
Proof.
  unfold Model_find. destruct (n =? 0)%nat.
  - by rewrite merge_sort_Permutation.
  - etrans; [apply submseteq_take |]. by rewrite merge_sort_Permutation.
Qed.

Lemma Model_find_length this f rules n :
  (1 <= n)%nat -> (length (Model_find this f rules n) <= n)%nat.
Proof.
  intros Hn. unfold Model_find. destruct (Nat.eqb_spec n 0) as [?|_]; [lia |].
  rewrite length_take. lia.
Qed.

(** The documents of the page [run_query] answers with. *)
Lemma run_query_page this opts q :
  run_query this opts q = Paginated.mk [] 0 None None \/
  exists first rest, Paginated.data (run_query this opts q) = first :: rest.
Proof.
  unfold run_query.
  destruct (if q_reverse q then _ else _) as [|first rest]; [by left | right].
  exists first, rest.
  destruct (length (first :: rest) =? limit (pagination opts))%nat; reflexivity.
Qed.

Lemma paginate_inv this opts r :
  paginate this opts = Normal r ->
  exists q, _getQuery (pagination opts) (parseSortValue opts) (filters opts) = Normal q /\
            r = run_query this opts q.
Proof.
  unfold paginate.
  destruct (_getQuery _ _ _) as [q|e]; cbn; [|discriminate].
  intros [= <-]. eauto.
Qed.

Lemma page_submseteq this opts r :
  paginate this opts = Normal r ->
  Paginated.data r ⊆+ List.filter (selected_by (filters opts)) this.
Proof.
  intros Hr. apply paginate_inv in Hr as (q & Hq & ->).
  apply getQuery_inv in Hq as (cursor & _ & Hq).
  rewrite run_query_data.
  assert (Hsub : Model_find this (q_filter q) (q_sort q) (q_limit q) ⊆+
                 List.filter (selected_by (filters opts)) this).
  { etrans; [apply Model_find_submseteq |].
    apply List_filter_submseteq. intros d. rewrite Hq. apply getFilters_within_base. }
  destruct (q_reverse q); [|done]. by rewrite <- Permutation_rev.
Qed.

Lemma page_length this opts r :
  paginate this opts = Normal r ->
  (1 <= limit (pagination opts))%nat ->
  (length (Paginated.data r) <= limit (pagination opts))%nat.
Proof.
  intros Hr Hn. apply paginate_inv in Hr as (q & Hq & ->).
  apply getQuery_inv in Hq as (cursor & _ & Hq).
  rewrite run_query_data.
  assert (Hlim : q_limit q = limit (pagination opts)) by (by rewrite Hq).
  rewrite Hlim.
  destruct (q_reverse q); rewrite ?length_rev; by apply Model_find_length.
Qed.

(** X1. Whatever the request and whatever the cursor it carries, the page
    that [paginate] returns is made of documents of the collection that
    the caller's filter selects, each taken at most as often as the
    collection holds it, and, for a positive limit, of at most [limit]
    documents. *)
Theorem page_is_part_of_the_selected_documents
    (this : list doc) (opts : PaginateOpts) (r : Paginated.t doc) :
  paginate this opts = Normal r ->
  Paginated.data r ⊆+ List.filter (selected_by (filters opts)) this /\
  ((1 <= limit (pagination opts))%nat ->
   (length (Paginated.data r) <= limit (pagination opts))%nat).
Proof.
  intros Hr. split; [by apply page_submseteq | by apply (page_length this)].
Qed.

(** X2. When the caller's filter selects no document of the collection,
    every request that returns answers with the empty page: no document,
    a total of zero and no cursor. *)
Theorem nothing_selected_gives_the_empty_page
    (this : list doc) (opts : PaginateOpts) (r : Paginated.t doc) :
  List.filter (selected_by (filters opts)) this = [] ->
  paginate this opts = Normal r ->
  r = Paginated.mk [] 0 None None.
Proof.
  intros Hnone Hr.
  pose proof (page_submseteq this opts r Hr) as Hsub.
  rewrite Hnone in Hsub. apply submseteq_nil_r in Hsub.
  apply paginate_inv in Hr as (q & _ & ->).
  destruct (run_query_page this opts q) as [->|(first & rest & Hd)]; [done |].
  rewrite Hd in Hsub. discriminate.
Qed.

(** *** The order of a page *)

Lemma StronglySorted_take {A} (R : relation A) (l : list A) i :
  StronglySorted R l -> StronglySorted R (take i l).
Proof.
  intros H. rewrite <- (take_drop i l) in H. by apply StronglySorted_app_1_l in H.
Qed.

Lemma StronglySorted_rev {A} (R : relation A) (l : list A) :
  StronglySorted R l -> StronglySorted (flip R) (rev l).
Proof.
  induction 1 as [|x l Hl IH Hx]; cbn [rev]; [constructor |].
  apply StronglySorted_app_2; [| done | by repeat constructor].
  intros y z Hy Hz. apply list_elem_of_singleton in Hz as ->.
  rewrite Forall_forall in Hx. apply Hx.
  apply list_elem_of_In in Hy. apply in_rev in Hy. by apply list_elem_of_In.
Qed.

Lemma StronglySorted_impl {A} (R1 R2 : relation A) (l : list A) :
  (forall x y, R1 x y -> R2 x y) -> StronglySorted R1 l -> StronglySorted R2 l.
Proof.
  intros H12. induction 1 as [|x l Hl IH Hx]; constructor; [done |].
  eapply Forall_impl; [exact Hx | apply H12].
Qed.

(** The requested order [o'] whose direction is [dir]. *)
Lemma direction_of_surj dir : exists o', direction_of o' = dir.
Proof. destruct dir; [by exists desc | by exists asc]. Qed.

Lemma Model_find_StronglySorted this f dir op sort_by n :
  StronglySorted (sorted_before (spec_sort_rules (dir, op) sort_by))
    (Model_find this f (spec_sort_rules (dir, op) sort_by) n).
Proof.
  destruct (direction_of_surj dir) as [o' <-].
  assert (Hs : StronglySorted
                 (sorted_before (spec_sort_rules (direction_of o', op) sort_by))
                 (merge_sort (sorted_before (spec_sort_rules (direction_of o', op) sort_by))
                    (List.filter (matches_filter f) this))).
  { apply (@StronglySorted_merge_sort _ _ _ (sorted_before_transitive o' op sort_by)
             (sorted_before_total o' op sort_by)). }
  unfold Model_find. destruct (n =? 0)%nat; [done | by apply StronglySorted_take].
Qed.

(** Sorting in the requested direction puts no document before one that
    precedes it; sorting in the other direction puts no document after
    one that precedes it. *)
Lemma sorted_before_requested o op sort_by d1 d2 :
  sorted_before (spec_sort_rules (direction_of o, op) sort_by) d1 d2 ->
  ~ precedes o sort_by d2 d1.
Proof.
  rewrite sorted_before_forward, precedes_forward_compare.
  rewrite (forward_compare_antisym o sort_by d1 d2).
  by destruct (forward_compare o sort_by d1 d2).
Qed.

Lemma sorted_before_opposite o op sort_by d1 d2 :
  sorted_before
    (spec_sort_rules
       (match o with desc => Ascending | asc => Descending end, op) sort_by) d1 d2 ->
  ~ precedes o sort_by d1 d2.
Proof.
  unfold sorted_before. rewrite compare_docs_spec_rules, precedes_forward_compare.
  unfold forward_compare.
  by destruct o, (key_compare (sort_key sort_by d1) (sort_key sort_by d2)).
Qed.

(** X3. In every mode (first page, after a [nextCursor], before a
    [prevCursor]) and on every collection, the page is in the requested
    order: no document of the page stands before a document that precedes
    it in the order of the sort field, ties broken by the key. *)
Theorem page_is_in_requested_order
    (this : list doc) (opts : PaginateOpts) (r : Paginated.t doc) :
  paginate this opts = Normal r ->
  StronglySorted
    (fun d1 d2 => ~ precedes (order (pagination opts)) (sortBy (pagination opts)) d2 d1)
    (Paginated.data r).
Proof.
  intros Hr. apply paginate_inv in Hr as (q & Hq & ->).
  apply getQuery_inv in Hq as (cursor & _ & Hq).
  rewrite run_query_data, Hq. cbn [q_filter q_sort q_limit q_reverse].
  rewrite getFilters_sort.
  destruct (traversal_mode (pagination opts)) eqn:Hm;
    destruct (order (pagination opts)) eqn:Ho; cbn [spec_current_table fst snd].
  - refine (StronglySorted_impl _ _ _ _ (Model_find_StronglySorted _ _ _ _ _ _)).
    intros d1 d2. apply (sorted_before_requested asc).
  - refine (StronglySorted_impl _ _ _ _ (Model_find_StronglySorted _ _ _ _ _ _)).
    intros d1 d2. apply (sorted_before_requested desc).
  - refine (StronglySorted_impl _ _ _ _ (Model_find_StronglySorted _ _ _ _ _ _)).
    intros d1 d2. apply (sorted_before_requested asc).
  - refine (StronglySorted_impl _ _ _ _ (Model_find_StronglySorted _ _ _ _ _ _)).
    intros d1 d2. apply (sorted_before_requested desc).
  - refine (StronglySorted_impl _ _ _ _
              (StronglySorted_rev _ _ (Model_find_StronglySorted _ _ _ _ _ _))).
    intros d1 d2. apply (sorted_before_opposite asc).
  - refine (StronglySorted_impl _ _ _ _
              (StronglySorted_rev _ _ (Model_find_StronglySorted _ _ _ _ _ _))).
    intros d1 d2. apply (sorted_before_opposite desc).
Qed.

(** *** The cursors of a page *)

Lemma List_last_last {A} (l : list A) (d : A) :
  l <> [] -> last l = Some (List.last l d).
Proof.
  induction l as [|x l IH]; [done |]. intros _.
  destruct l as [|y l]; [done |].
  rewrite last_cons_cons. change (List.last (x :: y :: l) d) with (List.last (y :: l) d).
  by apply IH.
Qed.

(** The cursors [run_query] returns are the encoded cursors of the first
    and of the last document of the page, and a [nextCursor] is returned
    for a full page only. *)
Lemma run_query_cursors this opts q :
  let r := run_query this opts q in
  let sort_by := sortBy (pagination opts) in
  (forall token, Paginated.prevCursor r = Some token ->
     exists d, head (Paginated.data r) = Some d /\
               token = encodeCursor (cursor_of_doc sort_by d)) /\
  (forall token, Paginated.nextCursor r = Some token ->
     exists d, last (Paginated.data r) = Some d /\
               length (Paginated.data r) = limit (pagination opts) /\
               token = encodeCursor (cursor_of_doc sort_by d)).
Proof.
  unfold run_query.
  destruct (if q_reverse q then _ else _) as [|first rest]; [by split |].
  destruct (Nat.eqb_spec (length (first :: rest)) (limit (pagination opts)))
    as [Hfull|Hshort]; cbn zeta.
  - destruct (Model_countDocuments _ _ =? 0)%nat, (Model_countDocuments _ _ =? 0)%nat;
      cbn [Paginated.prevCursor Paginated.nextCursor Paginated.data option_map];
      (split; intros token [= <-]);
      first [ by exists first
            | exists (List.last (first :: rest) first);
              split; [by apply List_last_last | done] ].
  - destruct (Model_countDocuments _ _ =? 0)%nat;
      cbn [Paginated.prevCursor Paginated.nextCursor Paginated.data option_map];
      (split; intros token [= <-]); by exists first.
Qed.

(** X4. On a collection whose keys have the format of a key, the cursors
    of every response are usable tokens for its own page: [prevCursor],
    when present, is a non-empty string that decodes to the key and the
    sort value of the first document of the page, and [nextCursor], when
    present, one that decodes to those of the last document; a
    [nextCursor] is present only when the page holds [limit] documents. *)
Theorem returned_cursors_decode_to_the_page_boundaries
    (this : list doc) (opts : PaginateOpts) (r : Paginated.t doc) :
  Forall (fun d => isObjectId (JString (_id d)) = true) this ->
  paginate this opts = Normal r ->
  (forall token, Paginated.prevCursor r = Some token ->
     truthy (Some token) = Some token /\
     exists d, head (Paginated.data r) = Some d /\
               decodeCursor token =
                 Normal (Some (cursor_of_doc (sortBy (pagination opts)) d))) /\
  (forall token, Paginated.nextCursor r = Some token ->
     truthy (Some token) = Some token /\
     length (Paginated.data r) = limit (pagination opts) /\
     exists d, last (Paginated.data r) = Some d /\
               decodeCursor token =
                 Normal (Some (cursor_of_doc (sortBy (pagination opts)) d))).
Proof.
  intros Hkeys Hr.
  assert (Hin : forall d, d ∈ Paginated.data r -> isObjectId (JString (_id d)) = true).
  { intros d Hd. rewrite Forall_forall in Hkeys. apply Hkeys.
    eapply elem_of_submseteq in Hd; [|by apply page_submseteq].
    by apply List_filter_elem_of in Hd as [? _]. }
  apply paginate_inv in Hr as (q & _ & ->).
  destruct (run_query_cursors this opts q) as [Hprev Hnext].
  split; intros token Ht.
  - destruct (Hprev token Ht) as (d & Hd & ->).
    split; [apply encodeCursor_truthy |]. exists d. split; [done |].
    apply decodeCursor_encodeCursor. apply Hin. by apply head_Some_elem_of.
  - destruct (Hnext token Ht) as (d & Hd & Hlen & ->).
    split; [apply encodeCursor_truthy |]. split; [done |]. exists d. split; [done |].
    apply decodeCursor_encodeCursor. apply Hin. by apply last_Some_elem_of.
Qed.

(* ================================================================== *)
(** ** More on the cursor codec *)
(* ================================================================== *)

(** Text that [base64_decode] accepts is made of groups of four
    characters of the alphabet, the last of which may be padded. *)
Lemma decode_quad_alphabet a b c d x :
  decode_quad a b c d = Some x ->
  Forall (fun ch => base64_value ch <> None) [a; b; c; d].
Proof.
  unfold decode_quad.
  destruct (base64_value a) eqn:Ha, (base64_value b) eqn:Hb,
    (base64_value c) eqn:Hc, (base64_value d) eqn:Hd; try done.
  intros _. rewrite !Forall_cons. split_and!; first [congruence | apply Forall_nil_2].
Qed.

Lemma decode_last_alphabet a b c d x :
  decode_last a b c d = Some x ->
  Forall (fun ch => base64_value ch <> None \/ ch = "="%char) [a; b; c; d].
Proof.
  unfold decode_last.
  destruct (Ascii.eqb_spec d "=") as [->|_].
  - destruct (Ascii.eqb_spec c "=") as [->|_].
    + destruct (base64_value a) eqn:Ha, (base64_value b) eqn:Hb; try done.
      intros _. rewrite !Forall_cons. split_and!; first [left; congruence | by right | apply Forall_nil_2].
    + destruct (base64_value a) eqn:Ha, (base64_value b) eqn:Hb,
        (base64_value c) eqn:Hc; try done.
      intros _. rewrite !Forall_cons. split_and!; first [left; congruence | by right | apply Forall_nil_2].
  - intros H. apply decode_quad_alphabet in H.
    eapply Forall_impl; [exact H | by left].
Qed.

Lemma base64_decode_shape n : forall s text,
  (String.length s <= n)%nat ->
  base64_decode s = Some text ->
  (String.length s mod 4 = 0)%nat /\
  string_forall (fun ch => match base64_value ch with
                           | Some _ => true
                           | None => Ascii.eqb ch "="
                           end) s = true.
Proof.
  induction n as [|n IH]; intros s text Hn Hs.
  { destruct s; [done | cbn in Hn; lia]. }
  destruct s as [|a [|b [|c [|d rest]]]]; try done.
  cbn [String.length] in Hn.
  assert (Hmod : forall k, (S (S (S (S k))) mod 4 = k mod 4)%nat).
  { intros k. replace (S (S (S (S k)))) with (k + 1 * 4)%nat by lia.
    by rewrite Nat.Div0.mod_add. }
  cbn [String.length string_forall]. rewrite Hmod.
  assert (Hchar : forall ch, (base64_value ch <> None \/ ch = "="%char) ->
            match base64_value ch with Some _ => true | None => Ascii.eqb ch "=" end = true).
  { intros ch [H| ->]; [by destruct (base64_value ch) | done]. }
  destruct rest as [|e rest].
  - change (decode_last a b c d = Some text) in Hs.
    apply decode_last_alphabet in Hs.
    rewrite !Forall_cons in Hs. destruct Hs as (Ha & Hb & Hc & Hd & _).
    split; [done |]. cbn [string_forall]. by rewrite !Hchar.
  - change (match decode_quad a b c d, base64_decode (String e rest) with
            | Some x, Some y => Some (x +:+ y)
            | _, _ => None
            end = Some text) in Hs.
    destruct (decode_quad a b c d) as [x|] eqn:Hq; [|done].
    destruct (base64_decode (String e rest)) as [y|] eqn:Hr; [|done].
    apply decode_quad_alphabet in Hq.
    rewrite !Forall_cons in Hq. destruct Hq as (Ha & Hb & Hc & Hd & _).
    destruct (IH (String e rest) y) as [Hlen Hall]; [cbn [String.length] in *; lia | done |].
    split; [done |].
    rewrite !Hchar by (by left). exact Hall.
Qed.

(** X5. A token whose length is not a multiple of four, or which holds a
    character that is neither of the Base64 alphabet nor the padding
    sign, is rejected without exception: [decodeCursor] returns null. *)
Theorem malformed_token_decodes_to_null (token : string) :
  (String.length token mod 4 <> 0)%nat \/
  string_forall (fun ch => match base64_value ch with
                           | Some _ => true
                           | None => Ascii.eqb ch "="
                           end) token = false ->
  decodeCursor token = Normal None.
Proof.
  intros Hbad. unfold decodeCursor, CursorSchema_safeParse.
  destruct (base64_decode token) as [text|] eqn:Hd; [|reflexivity].
  apply (base64_decode_shape _ _ _ (Nat.le_refl _)) in Hd as [Hlen Hall].
  destruct Hbad as [?|Hbad]; [done | congruence].
Qed.

(** X6. Two cursors with the same token are the same cursor: encoding
    loses nothing of the key or of the sort value. *)
Theorem encodeCursor_injective (c1 c2 : DecodedCursor) :
  encodeCursor c1 = encodeCursor c2 -> c1 = c2.
Proof.
  unfold encodeCursor. intros H.
  apply (f_equal base64_decode) in H. rewrite !base64_decode_encode in H.
  assert (Ht : JSON_parse (JSON_stringify_cursor c1) =
               JSON_parse (JSON_stringify_cursor c2)) by congruence.
  rewrite !JSON_parse_cursor_text in Ht.
  destruct c1 as [i1 [x1|]], c2 as [i2 [x2|]]; cbn in Ht; congruence.
Qed.

(** X7. A cursor that [decodeCursor] returns carries an [id] in the
    format of a key (24 characters accepted by [isObjectId]), and is a
    fixed point of the codec: encoding it and decoding the token gives it
    back. *)
Theorem decoded_cursor_is_well_formed (token : string) (c : DecodedCursor) :
  decodeCursor token = Normal (Some c) ->
  isObjectId (JString (id c)) = true /\
  String.length (id c) = 24%nat /\
  decodeCursor (encodeCursor c) = Normal (Some c).
Proof.
  unfold decodeCursor, CursorSchema_safeParse. intros H.
  assert (Hid : isObjectId (JString (id c)) = true).
  { destruct (base64_decode token) as [text|]; [|done].
    destruct (JSON_parse text) as [j|e]; [|done]. cbn [mbind completion_bind] in H.
    unfold CursorObjectSchema in H.
    destruct j as [| | | | | |props]; try done.
    destruct (match obj_get "v" props with
              | JUndefined => Normal None
              | x => Some <$> ToString x
              end) as [parsed_v|e]; [|done].
    cbn [mbind completion_bind] in H.
    destruct (MongoIdSchema (obj_get "id" props)) as [i|] eqn:Hi; [|done].
    injection H as <-. cbn [id].
    unfold MongoIdSchema in Hi. destruct (obj_get "id" props) as [| | | |s| |]; try done.
    destruct ((24 <=? String.length s)%nat && isObjectId (JString s)) eqn:E; [|done].
    injection Hi as <-. by apply andb_true_iff in E as [_ ?]. }
  split; [done |]. split.
  - cbn in Hid. apply andb_true_iff in Hid as [_ Hlen]. by apply Nat.eqb_eq in Hlen.
  - by apply decodeCursor_encodeCursor.
Qed.

(* ================================================================== *)
(** ** When decoding a cursor throws *)
(* ================================================================== *)




(* ================================================================== *)
(** ** What the filter of a cursor selects *)
(* ================================================================== *)

(** X9. When the sort field is the key, or holds a string in both
    documents, the filter built from the cursor of a document [c] needs no
    [parseSortValue]: among the documents of the caller's filter it
    selects exactly those that stand beyond [c] on the side of the
    operator, in the order of the sort field with ties broken by the
    key. *)
Theorem cursor_filter_selects_what_lies_beyond
    (dir : SortDirection) (op : Operator) (sort_by : string)
    (base : option (doc -> bool)) (c d : doc) :
  sort_by = "_id" \/
  ((exists s, doc_get c sort_by = VString s) /\
   (exists s, doc_get d sort_by = VString s)) ->
  matches_filter
    (fst (getFiltersFromCursor (Some (cursor_of_doc sort_by c))
            (dir, op) sort_by None base)) d =
  match op, key_compare (sort_key sort_by d) (sort_key sort_by c) with
  | op_gt, Gt | op_lt, Lt => selected_by base d
  | _, _ => false
  end.
Proof.
  intros [Hkey|[[sc Hc] [sd Hd]]].
  - apply (cursor_filter_selects dir op sort_by None base 0 c d). by left.
  - apply (cursor_filter_selects dir op sort_by None base 2 c d). right.
    split; [|intros _]; (split; [by rewrite ?Hc, ?Hd |]).
    + exists sc. by rewrite Hc.
    + exists sd. by rewrite Hd.
Qed.

(* ================================================================== *)
(** ** Pages along the cursors, in both directions *)
(* ================================================================== *)

Section Steps.
Variable this : list doc.
Variable opts : PaginateOpts.
Hypothesis Hok : traversable this opts.

#[local] Abbreviation o := (order (pagination opts)).
#[local] Abbreviation sort_by := (sortBy (pagination opts)).
#[local] Abbreviation n := (limit (pagination opts)).
#[local] Abbreviation base := (filters opts).
#[local] Abbreviation parse := (parseSortValue opts).
#[local] Abbreviation rules :=
  (spec_sort_rules (direction_of o, forward_operator o) sort_by).
#[local] Abbreviation back_rules :=
  (spec_sort_rules
     (match o with desc => Ascending | asc => Descending end, backward_operator o)
     sort_by).
#[local] Abbreviation L := (matching_in_order this opts).

(** The response to a query whose documents are the positions [a] to
    [b - 1] of [L]. *)
Lemma run_query_segment opts' q a b :
  sortBy (pagination opts') = sort_by ->
  limit (pagination opts') = n ->
  parseSortValue opts' = parse ->
  filters opts' = base ->
  (a < b <= length L)%nat ->
  (if q_reverse q
   then rev (Model_find this (q_filter q) (q_sort q) (q_limit q))
   else Model_find this (q_filter q) (q_sort q) (q_limit q)) = take (b - a) (drop a L) ->
  snd (next (q_order q)) = forward_operator o ->
  snd (prev (q_order q)) = backward_operator o ->
  run_query this opts' q =
  Paginated.mk (take (b - a) (drop a L))
    ((b - a) + (if decide (b - a = n) then length L - b else 0) + a)
    (if decide (b - a = n /\ b < length L)%nat then token_at this opts (b - 1) else None)
    (if decide (0 < a)%nat then token_at this opts a else None).
Proof.
  intros Hsort Hlim Hparse Hbase Hab Hdocs Hnext Hprev.
  unfold run_query. cbv zeta. rewrite Hdocs, Hsort, Hlim, Hparse, Hbase.
  pose proof (length_take (drop a L) (b - a)) as Hlen. rewrite length_drop in Hlen.
  destruct (take (b - a) (drop a L)) as [|first rest] eqn:Hseg; [cbn in Hlen; lia |].
  assert (Hfirst : L !! a = Some first).
  { rewrite <- (Nat.add_0_r a), <- lookup_drop, <- (lookup_take_lt _ (b - a)) by lia.
    by rewrite Hseg. }
  assert (Hlast : exists c, L !! (b - 1)%nat = Some c) by (apply lookup_lt_is_Some; lia).
  destruct Hlast as [c Hc].
  assert (Hl : List.last (first :: rest) first = c).
  { apply (List_last_lookup _ _ _ (b - a - 1)); [|lia].
    rewrite <- Hseg, lookup_take_lt, lookup_drop by lia.
    rewrite <- Hc. f_equal. lia. }
  rewrite Hl.
  destruct (prev (q_order q)) as [dir' op']. cbn in Hprev. subst op'.
  destruct (next (q_order q)) as [dir op]. cbn in Hnext. subst op.
  rewrite (count_before_cursor this opts Hok dir' first a Hfirst).
  unfold token_at. rewrite Hfirst, Hc. cbn [option_map].
  assert (Hlen' : length (first :: rest) = (b - a)%nat) by lia.
  rewrite Hlen'.
  destruct (Nat.eqb_spec (b - a) n) as [Hfull|Hshort].
  - rewrite (count_after_cursor this opts Hok dir c _ Hc).
    rewrite (decide_True (P := (b - a)%nat = n)) by done.
    destruct (Nat.eqb_spec (length L - S (b - 1)) 0) as [Hz|Hnz];
      destruct (Nat.eqb_spec a 0) as [Ha|Ha].
    + rewrite decide_False by lia. rewrite decide_False by lia. cbn. f_equal. lia.
    + rewrite decide_False by lia. rewrite decide_True by lia. cbn. f_equal. lia.
    + rewrite decide_True by lia. rewrite decide_False by lia. cbn. f_equal. lia.
    + rewrite decide_True by lia. rewrite decide_True by lia. cbn. f_equal. lia.
  - rewrite (decide_False (P := (b - a)%nat = n)) by done.
    rewrite (decide_False (P := ((b - a)%nat = n /\ (b < length L)%nat))) by lia.
    destruct (Nat.eqb_spec a 0) as [Ha|Ha].
    + rewrite decide_False by lia. cbn. f_equal. lia.
    + rewrite decide_True by lia. cbn. f_equal. lia.
Qed.

(** A position of the walk and the token that leads to it: the start
    without token, and a later position with the token of the document
    just before it. *)
#[local] Abbreviation leads_to p token :=
  (((p = 0)%nat /\ token = None) \/
   (exists c, L !! (p - 1)%nat = Some c /\ (0 < p < length L)%nat /\
              token = Some (encodeCursor (cursor_of_doc sort_by c)))).

Lemma Model_find_positive f rs :
  Model_find this f rs n =
  take n (merge_sort (sorted_before rs) (List.filter (matches_filter f) this)).
Proof.
  pose proof (limit_positive _ _ Hok) as Hn.
  unfold Model_find. destruct (Nat.eqb_spec n 0) as [?|_]; [lia | done].
Qed.

(** The whole response at position [p] of the walk. *)
Lemma forward_page_at p token :
  leads_to p token ->
  paginate this (with_nextCursor opts token) =
  Normal (Paginated.mk (take n (drop p L)) (length L)
            (next_token this opts p)
            (if decide (0 < p)%nat then token_at this opts p else None)).
Proof.
  intros Hpos.
  pose proof (limit_positive _ _ Hok) as Hn.
  assert (Hq : exists q,
    _getQuery (pagination (with_nextCursor opts token)) parse base = Normal q /\
    q_reverse q = false /\
    Model_find this (q_filter q) (q_sort q) (q_limit q) = take n (drop p L) /\
    snd (next (q_order q)) = forward_operator o /\
    snd (prev (q_order q)) = backward_operator o).
  { destruct Hpos as [[-> ->]|(c & Hc & Hp & ->)].
    - eexists. split; [apply (getQuery_first opts) |].
      cbn [q_reverse q_limit q_sort q_filter q_order next prev].
      split; [done |]. split; [|by destruct o].
      by rewrite Model_find_positive, (fetch_initial this opts).
    - assert (Hdec : decodeCursor (encodeCursor (cursor_of_doc sort_by c)) =
                     Normal (Some (cursor_of_doc sort_by c))).
      { apply decodeCursor_encodeCursor. cbn [cursor_of_doc id].
        pose proof (keys_valid _ _ Hok) as Hv. rewrite Forall_forall in Hv.
        apply Hv. apply list_elem_of_lookup_2 in Hc.
        by apply (matching_elem_of this opts) in Hc as [? _]. }
      eexists. split; [apply (getQuery_forward opts _ _ (encodeCursor_truthy _) Hdec) |].
      cbn [q_reverse q_limit q_sort q_filter q_order next prev].
      split; [done |]. split; [|by destruct o].
      rewrite Model_find_positive, (fetch_after_cursor this opts Hok _ c (p - 1) Hc).
      do 2 f_equal. lia. }
  destruct Hq as (q & Hq & Hrev & Hfetch & Hnext & Hprev).
  unfold paginate.
  change (parseSortValue (with_nextCursor opts token)) with parse.
  change (filters (with_nextCursor opts token)) with base.
  rewrite Hq. cbn [mbind completion_bind]. f_equal.
  destruct (decide (p < length L)%nat) as [Hp|Hp].
  - (* documents remain *)
    rewrite (run_query_segment (with_nextCursor opts token) q p
               (Nat.min (p + n) (length L))); try done; [| lia |].
    + unfold next_token, token_at.
      assert (Hdata : take (Nat.min (p + n) (length L) - p) (drop p L) =
                      take n (drop p L)).
      { destruct (decide (p + n <= length L)%nat) as [H1|H1].
        - rewrite Nat.min_l by lia. f_equal. lia.
        - rewrite !take_ge; [done | rewrite length_drop; lia | rewrite length_drop; lia]. }
      rewrite Hdata.
      destruct (decide (p + n < length L)%nat) as [Hmore|Hlast].
      * rewrite Nat.min_l by lia.
        replace (p + n - p)%nat with n by lia.
        rewrite (decide_True (P := n = n)) by done.
        rewrite (decide_True (P := (n = n /\ (p + n < length L)%nat))) by lia.
        f_equal. lia.
      * rewrite (decide_False (P := ((Nat.min (p + n) (length L) - p)%nat = n /\
                                     (Nat.min (p + n) (length L) < length L)%nat))) by lia.
        f_equal.
        destruct (decide (Nat.min (p + n) (length L) - p = n)%nat) as [H1|H1]; lia.
    + rewrite Hrev, Hfetch.
      destruct (decide (p + n <= length L)%nat) as [H1|H1].
      * rewrite Nat.min_l by lia. f_equal. lia.
      * rewrite Nat.min_r by lia.
        rewrite !take_ge; [done | rewrite length_drop; lia | rewrite length_drop; lia].
  - (* nothing is selected *)
    assert (Hp0 : p = 0%nat).
    { destruct Hpos as [[-> _]|(c & _ & ? & _)]; [done | lia]. }
    subst p. assert (HL : L = []) by (apply nil_length_inv; lia).
    unfold run_query. rewrite Hrev, Hfetch. unfold next_token. rewrite HL.
    cbn [drop]. rewrite !take_nil. cbn [length].
    rewrite (decide_False (P := (0 + n < 0)%nat)) by lia. reflexivity.
Qed.

(** *** Backwards *)

Lemma sorted_before_back d1 d2 :
  sorted_before back_rules d1 d2 <-> forward_compare o sort_by d1 d2 <> Lt.
Proof.
  unfold sorted_before. rewrite compare_docs_spec_rules. unfold forward_compare.
  by destruct o, (key_compare (sort_key sort_by d1) (sort_key sort_by d2)).
Qed.

Lemma back_rules_total : Total (sorted_before back_rules).
Proof.
  destruct o; [apply (sorted_before_total desc) | apply (sorted_before_total asc)].
Qed.

Lemma back_rules_transitive : Transitive (sorted_before back_rules).
Proof.
  destruct o; [apply (sorted_before_transitive desc) | apply (sorted_before_transitive asc)].
Qed.

(** A fetch in the direction opposite to the requested one returns the
    selected documents in the order of [L] reversed. *)
Lemma fetch_in_reverse_order (test : doc -> bool) :
  merge_sort (sorted_before back_rules)
    (List.filter (fun d => test d && selected_by base d) this) =
  rev (List.filter test L).
Proof.
  apply (@Sorted_unique_strong _ _ back_rules_transitive).
  - intros d1 d2 H1 H2 H12 H21.
    apply list_elem_of_In, in_rev, list_elem_of_In in H2.
    apply List_filter_elem_of in H2 as [H2 _].
    apply (matching_elem_of this opts) in H2 as [H2 _].
    rewrite merge_sort_Permutation in H1.
    apply List_filter_elem_of in H1 as [H1 _].
    apply sorted_before_back in H12, H21.
    apply (same_position_same_doc this opts Hok); [done | done |].
    rewrite forward_compare_antisym in H21.
    by destruct (forward_compare o sort_by d1 d2).
  - apply (@Sorted_merge_sort _ _ _ back_rules_total).
  - apply StronglySorted_Sorted.
    apply (StronglySorted_impl (flip (sorted_before rules))).
    + intros d1 d2. unfold flip. rewrite sorted_before_forward, sorted_before_back.
      rewrite (forward_compare_antisym o sort_by d1 d2).
      by destruct (forward_compare o sort_by d1 d2).
    + apply StronglySorted_rev, StronglySorted_List_filter.
      apply (matching_StronglySorted this opts).
  - rewrite merge_sort_Permutation, List_filter_andb, <- Permutation_rev.
    apply List_filter_Permutation. symmetry. apply (matching_Permutation this opts).
Qed.

(** The fetch before the cursor of the document at position [i]. *)
Lemma fetch_before_cursor dir c i :
  L !! i = Some c ->
  merge_sort (sorted_before back_rules)
    (List.filter
       (matches_filter
          (fst (getFiltersFromCursor (Some (cursor_of_doc sort_by c))
                  (dir, backward_operator o) sort_by parse base))) this) =
  rev (take i L).
Proof.
  intros Hi.
  rewrite <- (before_position this opts Hok i c Hi), <- fetch_in_reverse_order. f_equal.
  apply filter_ext_in. intros d Hd.
  apply (cursor_filter_before this opts Hok);
    [by eapply list_elem_of_lookup_2 | by apply list_elem_of_In].
Qed.

Lemma getQuery_backward token cursor :
  truthy (Some token) = Some token ->
  decodeCursor token = Normal cursor ->
  _getQuery (pagination (with_prevCursor opts (Some token))) parse base =
  Normal {| q_filter :=
              fst (getFiltersFromCursor cursor
                     (match o with desc => Ascending | asc => Descending end,
                      backward_operator o)
                     sort_by parse base);
            q_cursor := cursor;
            q_sort := back_rules;
            q_order := {| current := (match o with desc => Ascending | asc => Descending end,
                                      backward_operator o);
                          next := match o with
                                  | desc => (Ascending, op_lt)
                                  | asc => (Descending, op_gt)
                                  end;
                          prev := match o with
                                  | desc => (Descending, op_gt)
                                  | asc => (Ascending, op_lt)
                                  end |};
            q_reverse := true;
            q_limit := n |}.
Proof.
  intros Ht Hd. unfold _getQuery.
  cbn [with_prevCursor pagination prevCursor nextCursor order limit sortBy].
  rewrite Ht, Hd. cbn [mbind completion_bind].
  rewrite (surjective_pairing (getFiltersFromCursor _ _ _ _ _)), getFilters_sort.
  by destruct o.
Qed.

(** The whole response to the request with the [prevCursor] of the
    document at position [i]. *)
Lemma backward_page_at i c :
  L !! i = Some c ->
  paginate this
    (with_prevCursor opts (Some (encodeCursor (cursor_of_doc sort_by c)))) =
  Normal
    (if decide (0 < i)%nat
     then Paginated.mk (drop (i - n) (take i L))
            (if decide (n <= i)%nat then length L else i)
            (if decide (n <= i)%nat then token_at this opts (i - 1) else None)
            (if decide (n < i)%nat then token_at this opts (i - n) else None)
     else Paginated.mk [] 0 None None).
Proof.
  intros Hi.
  pose proof (limit_positive _ _ Hok) as Hn.
  pose proof (lookup_lt_Some _ _ _ Hi) as Hlt.
  assert (Hdec : decodeCursor (encodeCursor (cursor_of_doc sort_by c)) =
                 Normal (Some (cursor_of_doc sort_by c))).
  { apply decodeCursor_encodeCursor. cbn [cursor_of_doc id].
    pose proof (keys_valid _ _ Hok) as Hv. rewrite Forall_forall in Hv.
    apply Hv. apply list_elem_of_lookup_2 in Hi.
    by apply (matching_elem_of this opts) in Hi as [? _]. }
  unfold paginate.
  change (parseSortValue (with_prevCursor opts ?t)) with parse.
  change (filters (with_prevCursor opts ?t)) with base.
  rewrite (getQuery_backward _ _ (encodeCursor_truthy _) Hdec).
  cbn [mbind completion_bind]. f_equal.
  set (q := {| q_reverse := true |}).
  assert (Hdocs : rev (Model_find this (q_filter q) (q_sort q) (q_limit q)) =
                  drop (i - n) (take i L)).
  { subst q. cbn [q_filter q_sort q_limit].
    rewrite Model_find_positive, (fetch_before_cursor _ c i Hi).
    rewrite firstn_rev, rev_involutive, length_take. do 2 f_equal. lia. }
  destruct (decide (0 < i)%nat) as [Hpos|Hzero].
  - rewrite (run_query_segment _ q (i - n) i); try done.
    + rewrite skipn_firstn_comm. f_equal.
      * destruct (decide (i - (i - n) = n)%nat) as [H1|H1],
          (decide (n <= i)%nat) as [H2|H2]; lia.
      * destruct (decide (i - (i - n) = n /\ i < length L)%nat) as [H1|H1],
          (decide (n <= i)%nat) as [H2|H2]; solve [done | lia].
      * destruct (decide (0 < i - n)%nat) as [H1|H1],
          (decide (n < i)%nat) as [H2|H2]; solve [done | lia].
    + lia.
    + cbn [q_reverse q]. rewrite Hdocs. by rewrite skipn_firstn_comm.
    + subst q. cbn. by destruct o.
    + subst q. cbn. by destruct o.
  - assert (i = 0%nat) as -> by lia.
    unfold run_query. cbv zeta. cbn [q_reverse q]. rewrite Hdocs. reflexivity.
Qed.

(** *** The pages of a walk *)

Lemma token_at_Some i :
  (i < length L)%nat -> exists c, L !! i = Some c /\
    token_at this opts i = Some (encodeCursor (cursor_of_doc sort_by c)).
Proof.
  intros Hi. destruct (lookup_lt_is_Some_2 L i Hi) as [c Hc].
  exists c. split; [done |]. unfold token_at. by rewrite Hc.
Qed.

(** The [k]-th response of a walk that starts at position [p]. *)
Lemma follow_next_pages calls : forall p token pages fin,
  leads_to p token ->
  follow_next calls this opts token = Normal (pages, fin) ->
  forall k r, pages !! k = Some r ->
    (k = 0 \/ p + k * n < length L)%nat /\
    r = Paginated.mk (take n (drop (p + k * n) L)) (length L)
          (next_token this opts (p + k * n))
          (if decide (0 < p + k * n)%nat then token_at this opts (p + k * n) else None).
Proof.
  pose proof (limit_positive _ _ Hok) as Hn.
  induction calls as [|calls IH]; intros p token pages fin Hpos Hwalk k r Hk.
  { cbn in Hwalk. injection Hwalk as <- <-. done. }
  cbn [follow_next] in Hwalk.
  rewrite (forward_page_at p token Hpos) in Hwalk.
  cbn [mbind completion_bind Paginated.nextCursor] in Hwalk.
  unfold next_token in Hwalk at 1.
  destruct (decide (p + n < length L)%nat) as [Hmore|Hlast].
  - destruct (lookup_lt_is_Some_2 L (p + n - 1)) as [c Hc]; [lia |].
    rewrite Hc in Hwalk. cbn [option_map] in Hwalk.
    destruct (follow_next calls this opts _) as [[pages' fin']|e] eqn:Hrest;
      cbn [mbind completion_bind] in Hwalk; [|done].
    injection Hwalk as <- <-.
    destruct k as [|k].
    + injection Hk as <-. split; [by left |]. by rewrite Nat.add_0_r.
    + cbn in Hk.
      destruct (IH (p + n)%nat (Some (encodeCursor (cursor_of_doc sort_by c)))
                  pages' fin') with (k := k) (r := r) as [Hlt Hr];
        [ right; exists c; split; [by replace (p + n - 1)%nat with (p + n - 1)%nat by lia
                                  | split; [lia | done]] | done | done | ].
      replace (p + S k * n)%nat with (p + n + k * n)%nat by lia.
      split; [right; destruct Hlt; [subst k|]; lia | done].
  - injection Hwalk as <- <-.
    destruct k as [|k]; [|done].
    injection Hk as <-. split; [by left |]. by rewrite Nat.add_0_r.
Qed.

Lemma matching_count : length L = length (List.filter (selected_by base) this).
Proof. by rewrite (matching_Permutation this opts). Qed.

(** X10. On a store on which cursors work (distinct keys in the format of a
    key, a positive limit, sort values that cursors can carry), the walk
    along [nextCursor] cuts the selected documents, in the requested
    order, into consecutive pages of [limit] documents: the response
    number [k] holds the documents at positions [k * limit] and
    following, reports as [totalCount] the number of selected documents,
    has no [prevCursor] exactly when it is the first, and has no
    [nextCursor] exactly when no selected document is left after it. *)
Theorem walk_cuts_the_selection_into_pages (calls : nat) :
  (length this < calls)%nat ->
  exists pages : list (Paginated.t doc),
    follow_next calls this opts None = Normal (pages, true) /\
    forall k r, pages !! k = Some r ->
      Paginated.data r = take n (drop (k * n) L) /\
      Paginated.totalCount r = length (List.filter (selected_by base) this) /\
      (Paginated.prevCursor r = None <-> k = 0%nat) /\
      (Paginated.nextCursor r = None <-> (length L <= k * n + n)%nat).
Proof.
  intros Hcalls.
  pose proof (limit_positive _ _ Hok) as Hn.
  destruct (follow_next_from this opts Hok calls 0 None) as (pages & Hpages & _ & _).
  { by left. }
  { pose proof (matching_length this opts). lia. }
  exists pages. split; [done |]. intros k r Hk.
  destruct (follow_next_pages calls 0 None pages true) with (k := k) (r := r)
    as [Hlt ->]; [by left | done | done |].
  cbn [Nat.add Paginated.data Paginated.totalCount Paginated.prevCursor
         Paginated.nextCursor].
  split; [done |]. split; [apply matching_count |]. split.
  - destruct (decide (0 < k * n)%nat) as [Hpos|Hzero].
    + destruct (token_at_Some (k * n)) as (c & _ & ->); [lia |].
      split; [done | nia].
    + split; [nia | done].
  - unfold next_token.
    destruct (decide (k * n + n < length L)%nat) as [Hmore|Hlast].
    + destruct (lookup_lt_is_Some_2 L (k * n + n - 1)) as [c ->]; [lia |].
      cbn. split; [done | lia].
    + split; [lia | done].
Qed.

(** X11. The request with the [prevCursor] of the selected document at
    position [i] of the requested order returns the documents just before
    it, at most [limit] of them and the nearest ones, in the requested
    order; it has no [prevCursor] exactly when no selected document is
    left before the page.  A [nextCursor] is returned only when the page
    is full, and [totalCount] is the number of selected documents only
    when the page is full: on a shorter page it is the number of
    documents of the page. *)
Theorem page_before_a_cursor (i : nat) (c : doc) :
  L !! i = Some c ->
  exists r : Paginated.t doc,
    paginate this
      (with_prevCursor opts (Some (encodeCursor (cursor_of_doc sort_by c)))) = Normal r /\
    Paginated.data r = drop (i - n) (take i L) /\
    (Paginated.prevCursor r = None <-> (i <= n)%nat) /\
    (Paginated.nextCursor r = None <-> (i < n)%nat) /\
    Paginated.totalCount r = (if decide (n <= i)%nat then length L else i).
Proof.
  intros Hi.
  pose proof (limit_positive _ _ Hok) as Hn.
  pose proof (lookup_lt_Some _ _ _ Hi) as Hlt.
  eexists. split; [by apply backward_page_at |].
  destruct (decide (0 < i)%nat) as [Hpos|Hzero];
    cbn [Paginated.data Paginated.totalCount Paginated.prevCursor Paginated.nextCursor].
  - split; [done |]. split; [|split; [|done]].
    + destruct (decide (n < i)%nat) as [H1|H1].
      * destruct (token_at_Some (i - n)) as (c' & _ & ->); [lia |].
        split; [done | lia].
      * split; [lia | done].
    + destruct (decide (n <= i)%nat) as [H1|H1].
      * destruct (token_at_Some (i - 1)) as (c' & _ & ->); [lia |].
        split; [done | lia].
      * split; [lia | done].
  - assert (i = 0%nat) as -> by lia.
    split; [done |]. split; [split; [lia | done] |].
    split; [split; [lia | done] |].
    by rewrite decide_False by lia.
Qed.

(** X12. The request with the [nextCursor] of the selected document at
    position [i] of the requested order returns the documents just after
    it, at most [limit] of them; it has no [nextCursor] exactly when no
    selected document is left after the page; after the last selected
    document the page is empty, without cursors and with a total of
    zero. *)
Theorem page_after_a_cursor (i : nat) (c : doc) :
  L !! i = Some c ->
  exists r : Paginated.t doc,
    paginate this
      (with_nextCursor opts (Some (encodeCursor (cursor_of_doc sort_by c)))) = Normal r /\
    Paginated.data r = take n (drop (S i) L) /\
    (Paginated.nextCursor r = None <-> (length L <= S i + n)%nat) /\
    (Paginated.prevCursor r = None <-> S i = length L) /\
    Paginated.totalCount r = (if decide (S i < length L)%nat then length L else 0%nat).
Proof.
  intros Hi.
  pose proof (limit_positive _ _ Hok) as Hn.
  pose proof (lookup_lt_Some _ _ _ Hi) as Hlt.
  destruct (decide (S i < length L)%nat) as [Hmore|Hlast].
  - eexists. split.
    { apply (forward_page_at (S i)). right. exists c.
      split; [by replace (S i - 1)%nat with i by lia | split; [lia | done]]. }
    cbn [Paginated.data Paginated.totalCount Paginated.prevCursor Paginated.nextCursor].
    split; [done |]. split; [|split; [|done]].
    + unfold next_token.
      destruct (decide (S i + n < length L)%nat) as [H1|H1].
      * destruct (lookup_lt_is_Some_2 L (S i + n - 1)) as [c' ->]; [lia |].
        cbn. split; [done | lia].
      * split; [lia | done].
    + rewrite decide_True by lia.
      destruct (token_at_Some (S i)) as (c' & _ & ->); [lia |].
      split; [done | lia].
  - assert (Hdec : decodeCursor (encodeCursor (cursor_of_doc sort_by c)) =
                   Normal (Some (cursor_of_doc sort_by c))).
    { apply decodeCursor_encodeCursor. cbn [cursor_of_doc id].
      pose proof (keys_valid _ _ Hok) as Hv. rewrite Forall_forall in Hv.
      apply Hv. apply list_elem_of_lookup_2 in Hi.
      by apply (matching_elem_of this opts) in Hi as [? _]. }
    eexists. split.
    { unfold paginate.
      change (parseSortValue (with_nextCursor opts ?t)) with parse.
      change (filters (with_nextCursor opts ?t)) with base.
      rewrite (getQuery_forward opts _ _ (encodeCursor_truthy _) Hdec).
      cbn [mbind completion_bind]. unfold run_query.
      cbn [q_reverse q_filter q_sort q_limit].
      rewrite Model_find_positive, (fetch_after_cursor this opts Hok _ c i Hi).
      rewrite drop_ge by lia. rewrite take_nil. reflexivity. }
    cbn [Paginated.data Paginated.totalCount Paginated.prevCursor Paginated.nextCursor].
    rewrite drop_ge by lia. rewrite take_nil.
    split; [done |]. split; [split; [lia | done] |]. split; [split; [lia | done] | done].
Qed.

(** In a sorted list, a test that holds from some element on selects a
    final segment. *)
Lemma List_filter_final_segment {A} (R : relation A) (f : A -> bool) (l : list A) :
  StronglySorted R l ->
  (forall x y, R x y -> f x = true -> f y = true) ->
  exists j, (j <= length l)%nat /\ List.filter f l = drop j l.
Proof.
  intros Hs Hmono. induction Hs as [|x l Hl IH Hx].
  - by exists 0%nat.
  - cbn [List.filter]. destruct (f x) eqn:Hfx.
    + exists 0%nat. split; [lia |]. cbn [drop]. f_equal.
      apply List_filter_all. intros y Hy. rewrite Forall_forall in Hx.
      by apply (Hmono x y); [apply Hx |].
    + destruct IH as (j & Hj & IH). exists (S j). split; [cbn; lia | done].
Qed.

(** A key in the form of [key_text] passes [isObjectId]. *)
Lemma key_text_isObjectId s : key_text s = true -> isObjectId (JString s) = true.
Proof.
  unfold key_text, isObjectId. intros H.
  apply andb_true_iff in H as [Hlen Hall]. rewrite Hlen, andb_true_r.
  apply HEX_REGEX_spec. exists "", s. split; [done |]. split; [by left |]. split.
  - intros ->. discriminate.
  - clear Hlen. induction s as [|a s IH]; [done |].
    cbn [string_forall] in *. apply andb_true_iff in Hall as [Ha Hall].
    rewrite (IH Hall), andb_true_r. unfold hex_class.
    apply orb_true_iff in Ha as [->| ->]; [done | by rewrite orb_true_r].
Qed.

(** X13. A cursor outlives its document.  The cursor made from a document
    [c] whose key is written as the [id] getter writes keys (24
    hexadecimal digits in lower case) -- whether [c] is still in the
    collection or not -- leads to the selected documents that come after
    [c] in the requested order, the first [limit] of them; [nextCursor]
    is null exactly when no more than [limit] come after [c], and
    [totalCount] is the number of selected documents unless none comes
    after [c], when it is zero. *)
Theorem cursor_outlives_its_document (c : doc) :
  key_text (_id c) = true ->
  sort_by = "_id" \/
  (exists rank,
     sort_value_ok sort_by parse rank c /\
     forall d, d ∈ this -> selected_by base d = true ->
               sort_value_ok sort_by parse rank d) ->
  exists r : Paginated.t doc,
    paginate this
      (with_nextCursor opts (Some (encodeCursor (cursor_of_doc sort_by c)))) = Normal r /\
    Paginated.data r = take n (List.filter (comes_after o sort_by c) L) /\
    (Paginated.nextCursor r = None <->
     (length (List.filter (comes_after o sort_by c) L) <= n)%nat) /\
    Paginated.totalCount r =
      match List.filter (comes_after o sort_by c) L with
      | [] => 0%nat
      | _ :: _ => length L
      end.
Proof.
  intros Hform Hval.
  pose proof (key_text_isObjectId _ Hform) as Hid.
  pose proof (limit_positive _ _ Hok) as Hn.
  assert (Hdec : decodeCursor (encodeCursor (cursor_of_doc sort_by c)) =
                 Normal (Some (cursor_of_doc sort_by c)))
    by (by apply decodeCursor_encodeCursor).
  (* the fetch *)
  assert (Hsel : forall dir d, d ∈ this ->
            matches_filter
              (fst (getFiltersFromCursor (Some (cursor_of_doc sort_by c))
                      (dir, forward_operator o) sort_by parse base)) d =
            comes_after o sort_by c d && selected_by base d).
  { intros dir d Hd.
    assert (Hcd : matches_filter
              (fst (getFiltersFromCursor (Some (cursor_of_doc sort_by c))
                      (dir, forward_operator o) sort_by parse base)) d =
            match forward_operator o, key_compare (sort_key sort_by d) (sort_key sort_by c) with
            | op_gt, Gt | op_lt, Lt => selected_by base d
            | _, _ => false
            end).
    { destruct Hval as [Hkey|(rank & Hc & Hrank)].
      - apply (cursor_filter_selects dir _ sort_by parse base 0 c d). by left.
      - apply (cursor_filter_selects dir _ sort_by parse base rank c d). right.
        split; [done | by apply Hrank]. }
    rewrite Hcd. unfold comes_after.
    rewrite (forward_compare_antisym o sort_by d c). unfold forward_compare.
    by destruct o, (key_compare (sort_key sort_by d) (sort_key sort_by c)). }
  assert (Hfetch : forall dir,
            merge_sort (sorted_before rules)
              (List.filter
                 (matches_filter
                    (fst (getFiltersFromCursor (Some (cursor_of_doc sort_by c))
                            (dir, forward_operator o) sort_by parse base))) this) =
            List.filter (comes_after o sort_by c) L).
  { intros dir. rewrite <- (fetch_in_order this opts Hok). f_equal.
    apply filter_ext_in. intros d Hd. apply Hsel. by apply list_elem_of_In. }
  (* what comes after [c] is a final segment of [L] *)
  destruct (List_filter_final_segment (sorted_before rules) (comes_after o sort_by c) L)
    as (j & Hj & Hseg).
  { apply (matching_StronglySorted this opts). }
  { intros x y Hxy. unfold comes_after.
    apply sorted_before_forward in Hxy.
    destruct (forward_compare o sort_by c x) eqn:Hcx; try done. intros _.
    destruct (forward_compare o sort_by x y) eqn:Exy; [| |done].
    - apply (cmp_eq _ (forward_key_compare_ok o)) in Exy.
      unfold forward_compare in *. by rewrite <- Exy, Hcx.
    - by rewrite (forward_compare_trans o sort_by c x y Hcx Exy). }
  rewrite Hseg.
  unfold paginate.
  change (parseSortValue (with_nextCursor opts ?t)) with parse.
  change (filters (with_nextCursor opts ?t)) with base.
  rewrite (getQuery_forward opts _ _ (encodeCursor_truthy _) Hdec).
  cbn [mbind completion_bind].
  set (q := {| q_reverse := false |}).
  assert (Hdocs : Model_find this (q_filter q) (q_sort q) (q_limit q) = take n (drop j L)).
  { subst q. cbn [q_filter q_sort q_limit]. by rewrite Model_find_positive, Hfetch, Hseg. }
  eexists. split; [reflexivity |].
  destruct (decide (j < length L)%nat) as [Hlt|Hge].
  - rewrite (run_query_segment _ q j (Nat.min (j + n) (length L))); try done; [| lia | |
      subst q; cbn; by destruct o | subst q; cbn; by destruct o].
    2:{ cbn [q_reverse q]. rewrite Hdocs.
        destruct (decide (j + n <= length L)%nat) as [H1|H1].
        - rewrite Nat.min_l by lia. f_equal. lia.
        - rewrite !take_ge; [done | rewrite length_drop; lia | rewrite length_drop; lia]. }
    cbn [Paginated.data Paginated.totalCount Paginated.nextCursor].
    assert (Hdata : take (Nat.min (j + n) (length L) - j) (drop j L) = take n (drop j L)).
    { destruct (decide (j + n <= length L)%nat) as [H1|H1].
      - rewrite Nat.min_l by lia. f_equal. lia.
      - rewrite !take_ge; [done | rewrite length_drop; lia | rewrite length_drop; lia]. }
    split; [exact Hdata |]. rewrite length_drop. split.
    + destruct (decide (Nat.min (j + n) (length L) - j = n /\
                        Nat.min (j + n) (length L) < length L)%nat) as [H1|H1].
      * destruct (token_at_Some (Nat.min (j + n) (length L) - 1)) as (c' & _ & ->); [lia |].
        split; [done | lia].
      * split; [lia | done].
    + destruct (drop j L) as [|first rest] eqn:Hdrop.
      * apply (f_equal length) in Hdrop. rewrite length_drop in Hdrop. cbn in Hdrop. lia.
      * destruct (decide (Nat.min (j + n) (length L) - j = n)%nat) as [H1|H1]; lia.
  - rewrite drop_ge by lia. rewrite drop_ge in Hdocs by lia. rewrite take_nil in Hdocs.
    unfold run_query. cbv zeta. cbn [q_reverse q]. rewrite Hdocs.
    cbn [Paginated.data Paginated.totalCount Paginated.nextCursor length].
    rewrite take_nil. split; [done |]. split; [split; [lia | done] | done].
Qed.

(** X14. Stepping back undoes stepping forward: the [prevCursor] of a
    response of the walk along [nextCursor] leads back to the response
    before it, with the same documents, the same total and the same
    cursors. *)
Theorem prevCursor_leads_back_to_the_previous_page
    (calls : nat) (pages : list (Paginated.t doc)) (fin : bool)
    (k : nat) (r1 r2 : Paginated.t doc) :
  follow_next calls this opts None = Normal (pages, fin) ->
  pages !! k = Some r1 ->
  pages !! S k = Some r2 ->
  exists token : string,
    Paginated.prevCursor r2 = Some token /\
    paginate this (with_prevCursor opts (Some token)) = Normal r1.
Proof.
  intros Hwalk H1 H2.
  pose proof (limit_positive _ _ Hok) as Hn.
  destruct (follow_next_pages calls 0 None pages fin) with (k := k) (r := r1)
    as [_ ->]; [by left | done | done |].
  destruct (follow_next_pages calls 0 None pages fin) with (k := S k) (r := r2)
    as [Hlt ->]; [by left | done | done |].
  destruct Hlt as [?|Hlt]; [done |].
  cbn [Nat.add Paginated.prevCursor] in *.
  destruct (token_at_Some (S k * n) Hlt) as (c & Hc & Htoken).
  rewrite decide_True by lia. rewrite Htoken.
  eexists. split; [reflexivity |].
  rewrite (backward_page_at _ c Hc).
  rewrite decide_True by lia. f_equal.
  replace (S k * n - n)%nat with (k * n)%nat by lia.
  replace (S k * n)%nat with (k * n + n)%nat by lia.
  rewrite (decide_True (P := (n <= k * n + n)%nat)) by lia.
  f_equal.
  - symmetry. apply take_drop_commute.
  - unfold next_token, token_at.
    rewrite (decide_True (P := (n <= k * n + n)%nat)) by lia.
    by rewrite (decide_True (P := (k * n + n < length L)%nat)) by lia.
  - destruct (decide (n < k * n + n)%nat) as [H3|H3],
      (decide (0 < k * n)%nat) as [H4|H4]; solve [done | lia].
Qed.

End Steps.

End Pagination.

(* ================================================================== *)
(** ** Deep merge of objects *)
(* ================================================================== *)

(** *** Properties of an object, by key *)

Lemma obj_lookup_set {A} (k k' : string) (x : A) o :
  obj_lookup k (obj_set k' x o) = if k' =? k then Some x else obj_lookup k o.
Proof.
  induction o as [|[k0 y] o IH]; cbn; [done |].
  destruct (String.eqb_spec k0 k') as [->|Hne]; cbn.
  - by destruct (k' =? k).
  - rewrite IH. destruct (String.eqb_spec k' k) as [->|Hne'].
    + by apply String.eqb_neq in Hne as ->.
    + done.
Qed.

Lemma obj_set_same {A} (k : string) (x : A) o :
  obj_lookup k o = Some x -> obj_set k x o = o.
Proof.
  induction o as [|[k0 y] o IH]; cbn; [done |].
  destruct (String.eqb_spec k0 k) as [->|Hne].
  - by intros [= ->].
  - intros H. by rewrite IH.
Qed.

Lemma obj_set_fresh {A} (k : string) (x : A) o :
  obj_lookup k o = None -> obj_set k x o = o ++ [(k, x)].
Proof.
  induction o as [|[k0 y] o IH]; cbn; [done |].
  destruct (k0 =? k); [done |]. intros H. by rewrite IH.
Qed.

Lemma obj_lookup_app {A} (k : string) (o1 o2 : list (string * A)) :
  obj_lookup k (o1 ++ o2) =
  match obj_lookup k o1 with
  | Some x => Some x
  | None => obj_lookup k o2
  end.
Proof.
  induction o1 as [|[k0 y] o1 IH]; cbn; [done |]. by destruct (k0 =? k).
Qed.

Lemma obj_lookup_None {A} (k : string) (o : list (string * A)) :
  obj_lookup k o = None <-> k ∉ map fst o.
Proof.
  induction o as [|[k0 y] o IH]; cbn.
  - split; [intros _; apply not_elem_of_nil | done].
  - rewrite not_elem_of_cons, <- IH.
    destruct (String.eqb_spec k0 k) as [->|Hne].
    + split; [done | by intros [? _]].
    + split; [by intros ?; split | by intros [_ ?]].
Qed.

Lemma obj_lookup_member {A} (k : string) (x : A) (o : list (string * A)) :
  NoDup (map fst o) -> (k, x) ∈ o -> obj_lookup k o = Some x.
Proof.
  induction o as [|[k0 y] o IH]; cbn; intros Hnd Hin; [by inversion Hin |].
  apply NoDup_cons in Hnd as [Hk0 Hnd].
  apply elem_of_cons in Hin as [[= <- <-]|Hin].
  - by rewrite String.eqb_refl.
  - destruct (String.eqb_spec k0 k) as [->|Hne]; [|by apply IH].
    exfalso. apply Hk0. by apply (list_elem_of_fmap_2 fst _ (k, x)).
Qed.

(** *** The loop of [deepMerge] *)

Lemma fold_left_ext {A B} (f g : A -> B -> A) (l : list B) (a : A) :
  (forall a b, f a b = g a b) -> fold_left f l a = fold_left g l a.
Proof.
  intros Hfg. revert a. induction l as [|b l IH]; intros a; cbn; [done |].
  by rewrite Hfg, IH.
Qed.

(** What the loop assigns for a member [(key, x)] of the source. *)
#[local] Abbreviation merged tprops :=
  (fun (key : string) (x : jsval) =>
     if isObject x && has_property key tprops
     then if has_own key tprops
          then deepMerge (obj_get key tprops) x
          else JObject []
     else x).

Lemma deepMerge_unfold tprops sprops :
  deepMerge (JObject tprops) (JObject sprops) =
  JObject
    (fold_left
       (fun output member =>
          assign (fst member)
            (if isObject (snd member) && has_property (fst member) tprops
             then if has_own (fst member) tprops
                  then deepMerge (obj_get (fst member) tprops) (snd member)
                  else JObject []
             else snd member)
            output)
       sprops tprops).
Proof.
  cbn [deepMerge spread]. f_equal.
  apply fold_left_ext. intros output [key x]. cbn [fst snd].
  destruct (isObject x), (has_property key tprops); reflexivity.
Qed.

Lemma obj_lookup_assign k k' x o :
  obj_lookup k (assign k' x o) =
  if (k' =? k) && negb ((k' =? "__proto__") && negb (has_own k' o))
  then Some x else obj_lookup k o.
Proof.
  unfold assign.
  destruct ((k' =? "__proto__") && negb (has_own k' o)) eqn:Hskip; cbn [negb].
  - by rewrite andb_false_r.
  - rewrite andb_true_r. apply obj_lookup_set.
Qed.

Lemma has_own_assign k k' x o :
  has_own k o = true -> has_own k (assign k' x o) = true.
Proof.
  unfold has_own. rewrite obj_lookup_assign.
  by destruct ((k' =? k) && _).
Qed.

(** The property [k] after the loop has run over [members], when
    assigning to [k] adds a property. *)
Lemma merge_loop_lookup (val : string -> jsval -> jsval) k : forall members output,
  NoDup (map fst members) ->
  (k = "__proto__" -> has_own k output = true) ->
  obj_lookup k
    (fold_left (fun output member =>
                  assign (fst member) (val (fst member) (snd member)) output)
       members output) =
  match obj_lookup k members with
  | Some x => Some (val k x)
  | None => obj_lookup k output
  end.
Proof.
  induction members as [|[k' x] members IH]; intros output Hnd Hk; [done |].
  cbn [map fst] in Hnd. apply NoDup_cons in Hnd as [Hk' Hnd].
  cbn [fold_left fst snd obj_lookup].
  rewrite IH; [| done | intros Hp; by apply has_own_assign, Hk].
  destruct (String.eqb_spec k' k) as [->|Hne].
  - apply obj_lookup_None in Hk' as ->.
    rewrite obj_lookup_assign, String.eqb_refl. cbn [andb].
    destruct (String.eqb_spec k "__proto__") as [Hp|_]; [|done].
    by rewrite (Hk Hp).
  - destruct (obj_lookup k members); [done |].
    rewrite obj_lookup_assign.
    by apply String.eqb_neq in Hne as ->.
Qed.

(** The name [__proto__] never becomes an own property. *)
Lemma merge_loop_proto (val : string -> jsval -> jsval) : forall members output,
  has_own "__proto__" output = false ->
  obj_lookup "__proto__"
    (fold_left (fun output member =>
                  assign (fst member) (val (fst member) (snd member)) output)
       members output) = None.
Proof.
  induction members as [|[k' x] members IH]; intros output Hown.
  - cbn. unfold has_own in Hown. by destruct (obj_lookup _ output).
  - cbn [fold_left fst snd]. apply IH.
    unfold has_own. rewrite obj_lookup_assign.
    destruct (String.eqb_spec k' "__proto__") as [->|_]; cbn [andb].
    + rewrite Hown. cbn. exact Hown.
    + exact Hown.
Qed.

Lemma not_prototype_key k :
  k ∉ Object_prototype_keys -> k <> "__proto__".
Proof. intros Hk ->. apply Hk. apply (bool_decide_unpack _). vm_compute. reflexivity. Qed.

Lemma deepMerge_lookup (tprops sprops : list (string * jsval)) (k : string) :
  NoDup (map fst sprops) ->
  k ∉ Object_prototype_keys ->
  exists props,
    deepMerge (JObject tprops) (JObject sprops) = JObject props /\
    obj_lookup k props =
    match obj_lookup k sprops, obj_lookup k tprops with
    | None, kept => kept
    | Some x, Some y => Some (if isObject x then deepMerge y x else x)
    | Some x, None => Some x
    end.
Proof.
  intros Hnd Hk. eexists. split; [apply deepMerge_unfold |].
  rewrite (merge_loop_lookup (merged tprops));
    [| done | intros ->; by apply not_prototype_key in Hk].
  destruct (obj_lookup k sprops) as [x|]; [|done].
  unfold has_property, has_own, obj_get.
  rewrite (bool_decide_eq_false_2 _ Hk), orb_false_r.
  destruct (obj_lookup k tprops) as [y|]; [|by rewrite andb_false_r].
  rewrite andb_true_r. by destruct (isObject x).
Qed.

(** X15. How [deepMerge] combines two objects, property by property, for
    a key that is not the name of a property of [Object.prototype]: a key
    that the source does not hold keeps the value of the target; a key
    that the source holds takes the value of the source, except that an
    object in the source is merged, by [deepMerge] again, into the value
    that the target holds under the same key. *)
Theorem deepMerge_by_key (tprops sprops : list (string * jsval)) (k : string) :
  NoDup (map fst sprops) ->
  k ∉ Object_prototype_keys ->
  exists props,
    deepMerge (JObject tprops) (JObject sprops) = JObject props /\
    obj_lookup k props =
    match obj_lookup k sprops, obj_lookup k tprops with
    | None, kept => kept
    | Some x, Some y => Some (if isObject x then deepMerge y x else x)
    | Some x, None => Some x
    end.
Proof. apply deepMerge_lookup. Qed.

(** X16. Keys named like the properties of [Object.prototype], on a
    target that does not own them: [__proto__] is never copied from the
    source, and under any other such name ([constructor], [toString],
    [valueOf], ...) an object of the source is replaced by the empty
    object, while any other value is copied. *)
Theorem deepMerge_of_prototype_keys
    (tprops sprops : list (string * jsval)) (k : string) (x : jsval) :
  NoDup (map fst sprops) ->
  k ∈ Object_prototype_keys ->
  obj_lookup k tprops = None ->
  obj_lookup k sprops = Some x ->
  exists props,
    deepMerge (JObject tprops) (JObject sprops) = JObject props /\
    obj_lookup k props =
    if k =? "__proto__" then None
    else if isObject x then Some (JObject []) else Some x.
Proof.
  intros Hnd Hk Ht Hs. eexists. split; [apply deepMerge_unfold |].
  destruct (String.eqb_spec k "__proto__") as [->|Hne].
  - apply (merge_loop_proto (merged tprops)). unfold has_own. by rewrite Ht.
  - rewrite (merge_loop_lookup (merged tprops)); [| done | done]. rewrite Hs.
    unfold has_property, has_own. rewrite Ht, (bool_decide_eq_true_2 _ Hk).
    cbn [orb]. rewrite andb_true_r. by destruct (isObject x).
Qed.

(** X17. Where the target holds a value that is not an object and the
    source holds an object, neither survives: the result holds the spread
    of the value of the target, which is the empty object for a number, a
    boolean, [null] and [undefined]. *)
Theorem deepMerge_object_over_scalar
    (tprops sprops : list (string * jsval)) (k : string) (x y : jsval) :
  NoDup (map fst sprops) ->
  obj_lookup k tprops = Some y ->
  obj_lookup k sprops = Some x ->
  isObject y = false ->
  isObject x = true ->
  exists props,
    deepMerge (JObject tprops) (JObject sprops) = JObject props /\
    obj_lookup k props = Some (JObject (spread y)) /\
    match y with
    | JUndefined | JNull | JBool _ | JNumber _ => spread y = []
    | _ => True
    end.
Proof.
  intros Hnd Ht Hs Hy Hx. eexists. split; [apply deepMerge_unfold |].
  split; [|by destruct y].
  rewrite (merge_loop_lookup (merged tprops));
    [| done | intros _; unfold has_own; by rewrite Ht].
  rewrite Hs, Hx. unfold has_property, has_own, obj_get. rewrite Ht. cbn [orb andb].
  f_equal. destruct x as [| | | | | |xprops]; try done. by destruct y.
Qed.

(** Induction on values, through arrays and objects. *)
Lemma jsval_ind_deep (P : jsval -> Prop) :
  P JUndefined -> P JNull -> (forall b, P (JBool b)) ->
  (forall literal, P (JNumber literal)) -> (forall s, P (JString s)) ->
  (forall items, Forall P items -> P (JArray items)) ->
  (forall props, Forall (fun member => P (snd member)) props -> P (JObject props)) ->
  forall x, P x.
Proof.
  intros Hu Hn Hb Hnum Hs Ha Ho. fix IH 1. intros [| |b|literal|s|items|props].
  - exact Hu.
  - exact Hn.
  - apply Hb.
  - apply Hnum.
  - apply Hs.
  - apply Ha. induction items as [|item items IHitems]; constructor; [apply IH | exact IHitems].
  - apply Ho. induction props as [|[k x] props IHprops]; constructor;
      [apply IH | exact IHprops].
Qed.

(** X18. Merging an object into itself changes nothing: [deepMerge] is
    idempotent on every object whose keys, at all depths, are distinct. *)
Theorem deepMerge_idempotent (t : jsval) :
  isObject t = true ->
  well_formed t = true ->
  deepMerge t t = t.
Proof.
  induction t as [| | | | | |props IH] using jsval_ind_deep; try done.
  intros _ Hwf. cbn [well_formed] in Hwf.
  apply andb_true_iff in Hwf as [Hnd Hwf]. apply bool_decide_eq_true in Hnd.
  rewrite forallb_forall in Hwf. rewrite Forall_forall in IH.
  rewrite deepMerge_unfold. f_equal.
  assert (Hloop : forall members, (forall m, m ∈ members -> m ∈ props) ->
            fold_left (fun output member =>
                         assign (fst member) (merged props (fst member) (snd member)) output)
              members props = props).
  { induction members as [|[k x] members IHm]; intros Hsub; [done |].
    cbn [fold_left fst snd].
    assert (Hkx : (k, x) ∈ props) by (apply Hsub; left).
    assert (Hlook : obj_lookup k props = Some x) by (by apply obj_lookup_member).
    assert (Hval : merged props k x = x).
    { unfold has_property, has_own, obj_get. rewrite Hlook. cbn [orb].
      rewrite andb_true_r. destruct (isObject x) eqn:Hx; [|done].
      apply (IH (k, x) Hkx Hx). apply (Hwf (k, x)). by apply list_elem_of_In. }
    rewrite Hval.
    assert (Hsame : assign k x props = props).
    { unfold assign, has_own. rewrite Hlook. rewrite andb_false_r.
      by apply obj_set_same. }
    rewrite Hsame. apply IHm. intros m Hm. apply Hsub. by right. }
  by apply Hloop.
Qed.

(** X19. The empty object is neutral: merged into an object, or with a
    missing source, it leaves the object as it is; and an object merged
    into the empty object gives the object itself, provided that none of
    its keys is the name of a property of [Object.prototype]. *)
Theorem empty_object_is_neutral (props : list (string * jsval)) :
  NoDup (map fst props) ->
  Forall (fun member => fst member ∉ Object_prototype_keys) props ->
  deepMerge (JObject []) (JObject props) = JObject props /\
  deepMerge (JObject props) (JObject []) = JObject props /\
  deepMerge (JObject props) JUndefined = JObject props.
Proof.
  intros Hnd Hkeys. split; [|by split].
  rewrite deepMerge_unfold. f_equal.
  assert (Hloop : forall members output,
            NoDup (map fst (output ++ members)) ->
            Forall (fun member => fst member ∉ Object_prototype_keys) members ->
            fold_left (fun output member =>
                         assign (fst member) (merged [] (fst member) (snd member)) output)
              members output = output ++ members).
  { induction members as [|[k x] members IHm]; intros output Hnd' Hk';
      [by rewrite app_nil_r |].
    apply Forall_cons in Hk' as [Hk Hk']. cbn [fst] in Hk.
    cbn [fold_left fst snd].
    assert (Hval : merged [] k x = x).
    { unfold has_property, has_own. cbn [obj_lookup orb].
      rewrite (bool_decide_eq_false_2 _ Hk). by rewrite andb_false_r. }
    assert (Hfresh : obj_lookup k output = None).
    { apply obj_lookup_None. rewrite map_app in Hnd'. cbn [map fst] in Hnd'.
      apply NoDup_app in Hnd' as (_ & Hdisj & _). intros Hin.
      apply (Hdisj k Hin). left. }
    assert (Hadd : assign k x output = output ++ [(k, x)]).
    { unfold assign. apply not_prototype_key, String.eqb_neq in Hk.
      rewrite Hk. cbn [andb]. by apply obj_set_fresh. }
    rewrite Hval, Hadd, IHm; [by rewrite <- app_assoc | by rewrite <- app_assoc | done]. }
  by apply (Hloop props []).
Qed.

(* ================================================================== *)
(** ** The query of the key-only variant *)
(* ================================================================== *)

(** The cursor that [_getQuery] uses: [prevCursor] when it is not empty,
    otherwise [nextCursor] when it is not empty. *)
#[local] Abbreviation token_of query :=
  (if Index.given (Index.prevCursor query) then Index.prevCursor query
   else if Index.given (Index.nextCursor query) then Index.nextCursor query
   else None).

Lemma Index_given_Some s :
  Index.given s = true -> exists cursor, s = Some cursor /\ (cursor =? "") = false.
Proof.
  destruct s as [cursor|]; [|done]. cbn. intros H. exists cursor.
  split; [done |]. by destruct (cursor =? "").
Qed.

Lemma Index_getQuery_filter query mergeFilters :
  Index.q_filter (Index._getQuery query mergeFilters) =
  deepMerge
    match token_of query with
    | Some cursor =>
        JObject [("_id",
                  JObject [(Index.operator_key
                              (Index.key (Index.q_order (Index._getQuery query mergeFilters))),
                            JString cursor)])]
    | None => JObject []
    end
    mergeFilters.
Proof.
  unfold Index._getQuery.
  destruct (Index.given (Index.prevCursor query)) eqn:Hp.
  - apply Index_given_Some in Hp as (cursor & -> & Hne).
    cbn [default from_option Datatypes.id Index.q_filter Index.q_order Index.key]. by rewrite Hne.
  - destruct (Index.given (Index.nextCursor query)) eqn:Hn.
    + apply Index_given_Some in Hn as (cursor & -> & Hne).
      cbn [default from_option Datatypes.id Index.q_filter Index.q_order Index.key]. by rewrite Hne.
    + reflexivity.
Qed.

(** X20. The filter that [_getQuery] of [index.ts] builds, property by
    property, for the caller's filters [mergeFilters] and a key that is
    not the name of a property of [Object.prototype]: every key other
    than [_id] holds what the caller gave; [_id] holds the condition of
    the cursor when the caller gave none for [_id], the caller's value
    when that is not an object, and otherwise the condition of the cursor
    with the caller's object merged into it. *)
Theorem Index_filter_by_key
    (query : Index.PaginationFields) (mprops : list (string * jsval)) (k : string) :
  NoDup (map fst mprops) ->
  k ∉ Object_prototype_keys ->
  let q := Index._getQuery query (JObject mprops) in
  exists props,
    Index.q_filter q = JObject props /\
    obj_lookup k props =
    match token_of query with
    | Some cursor =>
        if k =? "_id" then
          let condition :=
            JObject [(Index.operator_key (Index.key (Index.q_order q)), JString cursor)] in
          Some match obj_lookup "_id" mprops with
               | None => condition
               | Some y => if isObject y then deepMerge condition y else y
               end
        else obj_lookup k mprops
    | None => obj_lookup k mprops
    end.
Proof.
  intros Hnd Hk q. subst q. rewrite Index_getQuery_filter.
  destruct (token_of query) as [cursor|].
  - destruct (deepMerge_lookup
                [("_id", JObject [(Index.operator_key
                                     (Index.key (Index.q_order
                                        (Index._getQuery query (JObject mprops)))),
                                   JString cursor)])]
                mprops k Hnd Hk) as (props & Hprops & Hlook).
    exists props. split; [done |]. rewrite Hlook. cbn [obj_lookup].
    destruct (String.eqb_spec k "_id") as [->|Hne].
    + cbn. by destruct (obj_lookup "_id" mprops).
    + assert (Hne' : ("_id" =? k) = false) by (apply String.eqb_neq; congruence).
      rewrite Hne'. by destruct (obj_lookup k mprops).
  - destruct (deepMerge_lookup [] mprops k Hnd Hk) as (props & Hprops & Hlook).
    exists props. split; [done |]. rewrite Hlook. cbn [obj_lookup].
    by destruct (obj_lookup k mprops).
Qed.

(** X21. The caller's conditions on [_id] win over the cursor.  When
    [mergeFilters] gives for [_id] a value that is not an object, the
    filter holds that value for every cursor; when it gives an object with
    an operand that is not an object for the operator of the cursor, the
    filter holds the caller's operand under that operator, and the cursor
    nowhere. *)
Theorem caller_condition_on_id_replaces_the_cursor
    (query : Index.PaginationFields) (mprops : list (string * jsval))
    (cursor : string) (y : jsval) :
  NoDup (map fst mprops) ->
  token_of query = Some cursor ->
  obj_lookup "_id" mprops = Some y ->
  let q := Index._getQuery query (JObject mprops) in
  let operator := Index.operator_key (Index.key (Index.q_order q)) in
  exists props,
    Index.q_filter q = JObject props /\
    match y with
    | JObject yprops =>
        NoDup (map fst yprops) ->
        forall operand,
          obj_lookup operator yprops = Some operand ->
          isObject operand = false ->
          exists conditions,
            obj_lookup "_id" props = Some (JObject conditions) /\
            obj_lookup operator conditions = Some operand
    | _ => obj_lookup "_id" props = Some y
    end.
Proof.
  intros Hnd Htoken Hy q operator. subst q operator.
  rewrite Index_getQuery_filter, Htoken.
  set (op := Index.operator_key _).
  assert (Hid : "_id" ∉ Object_prototype_keys).
  { apply (bool_decide_unpack _). vm_compute. reflexivity. }
  destruct (deepMerge_lookup [("_id", JObject [(op, JString cursor)])] mprops "_id" Hnd Hid)
    as (props & Hprops & Hlook).
  exists props. split; [done |].
  rewrite Hy in Hlook. cbn [obj_lookup String.eqb Ascii.eqb Bool.eqb] in Hlook.
  change ("_id" =? "_id") with true in Hlook. cbn iota in Hlook.
  destruct y as [| | | | | |yprops]; try exact Hlook.
  intros Hndy operand Hoperand Hscalar.
  cbn [isObject] in Hlook.
  assert (Hop : op ∉ Object_prototype_keys).
  { subst op. destruct (Index.key _); apply (bool_decide_unpack _); vm_compute; reflexivity. }
  destruct (deepMerge_lookup [(op, JString cursor)] yprops op Hndy Hop)
    as (conditions & Hconditions & Hlook').
  exists conditions. split; [by rewrite Hlook, Hconditions |].
  rewrite Hlook', Hoperand. cbn [obj_lookup]. rewrite String.eqb_refl.
  by rewrite Hscalar.
Qed.

(** X22. In [index.ts] the operator of the fetch agrees with the
    operators of the two probes: after a [nextCursor] the fetch uses
    [nextKey] in the requested direction, before a [prevCursor] it uses
    [prevKey] in the opposite direction and the page is reversed; the two
    probe operators are opposite and depend on the order alone; and a
    non-empty [prevCursor] makes [nextCursor] irrelevant. *)
Theorem Index_fetch_agrees_with_probes
    (query : Index.PaginationFields) (mergeFilters : jsval) :
  let q := Index._getQuery query mergeFilters in
  let o := Index.q_order q in
  let requested := match Index.order query with desc => Descending | asc => Ascending end in
  let opposite := match Index.order query with desc => Ascending | asc => Descending end in
  Index.nextKey o = match Index.order query with desc => op_lt | asc => op_gt end /\
  Index.prevKey o = match Index.order query with desc => op_gt | asc => op_lt end /\
  Index.q_sort q = [("_id", Index.sortOrder o)] /\
  (if Index.given (Index.prevCursor query)
   then Index.key o = Index.prevKey o /\ Index.sortOrder o = opposite /\
        Index.q_reverse q = true /\
        forall other,
          Index._getQuery
            {| Index.nextCursor := other; Index.prevCursor := Index.prevCursor query;
               Index.order := Index.order query; Index.limit := Index.limit query |}
            mergeFilters = q
   else Index.sortOrder o = requested /\ Index.q_reverse q = false /\
        (Index.given (Index.nextCursor query) = true -> Index.key o = Index.nextKey o)).
Proof.
  unfold Index._getQuery.
  destruct (Index.given (Index.prevCursor query)) eqn:Hp;
    [|destruct (Index.given (Index.nextCursor query)) eqn:Hn];
    cbn; rewrite ?Hp; destruct (Index.order query); cbn; repeat split; done.
Qed.


(* ================================================================== *)
(** * Concrete runs *)
(* ================================================================== *)

#[local] Existing Instance sample_builtins.

(** C1 as stated fails on the first page in descending order: the pair of
    the current fetch is (descending, $gt), not (descending, $lt). *)
Lemma first_page_pair_differs_from_table :
  exists q,
    _getQuery (pagination (request_by_key desc 10 None None)) None None = Normal q /\
    current (q_order q) = (Descending, op_gt) /\
    (current (q_order q), q_reverse q) <>
      spec_current_table desc
        (traversal_mode (pagination (request_by_key desc 10 None None))).
Proof. eexists. split; [reflexivity |]. split; [reflexivity | discriminate]. Qed.

Lemma current_direction_follows_table_witness :
  exists q,
    _getQuery (pagination (request_by_key desc 3
                 (Some "eyJpZCI6IjAwMDAwMDAwMDAwMDAwMDAwMDAwMDAwMyJ9") None))
              None None = Normal q /\
    current (q_order q) = (Descending, op_lt) /\
    q_reverse q = false.
Proof.
  eexists. split; [vm_compute; reflexivity |].
  pose proof (current_direction_follows_table
                (pagination (request_by_key desc 3
                   (Some "eyJpZCI6IjAwMDAwMDAwMDAwMDAwMDAwMDAwMDAwMyJ9") None))
                None None _ ltac:(vm_compute; reflexivity)) as H.
  cbv zeta in H. destruct H as (_ & Hrev & Hcur & _).
  split; [apply Hcur; discriminate | exact Hrev].
Defined.

(** C6 as stated fails when the sort field is the primary key and the
    cursor carries a [v]: the second alternative of the filter keeps the
    key condition only, and the filter selects a document that the stated
    predicate does not select. *)
Lemma key_sorted_filter_with_v_differs_from_spec :
  matches_filter
    (fst (getFiltersFromCursor (Some {| id := key "3"; v := Some (key "9") |})
            (Ascending, op_gt) "_id" None None))
    {| _id := key "5"; fields := [] |} = true /\
  spec_filter_selects (Some {| id := key "3"; v := Some (key "9") |})
    (Ascending, op_gt) "_id" None None
    {| _id := key "5"; fields := [] |} = false /\
  fst (getFiltersFromCursor (Some {| id := key "3"; v := Some (key "9") |})
         (Ascending, op_gt) "_id" None None) =
    Or [ Fields [("_id", Compare op_gt (VString (key "9")))];
         Fields [("_id", Compare op_gt (VString (key "3")))] ].
Proof. split; [|split]; vm_compute; reflexivity. Qed.

Lemma filter_builder_meets_spec_witness :
  (forall c, Some {| id := key "3"; v := Some "bob" |} = Some c ->
             v c <> None -> "name" <> "_id") /\
  (snd (getFiltersFromCursor (Some {| id := key "3"; v := Some "bob" |})
          (Ascending, op_gt) "name" None None) =
     spec_sort_rules (Ascending, op_gt) "name" /\
   forall d : doc,
     matches_filter
       (fst (getFiltersFromCursor (Some {| id := key "3"; v := Some "bob" |})
               (Ascending, op_gt) "name" None None)) d =
     spec_filter_selects (Some {| id := key "3"; v := Some "bob" |})
       (Ascending, op_gt) "name" None None d).
Proof.
  assert (H : forall c, Some {| id := key "3"; v := Some "bob" |} = Some c ->
                        v c <> None -> "name" <> "_id") by (intros; discriminate).
  split; [exact H |].
  exact (filter_builder_meets_spec
           (Some {| id := key "3"; v := Some "bob" |})
           (Ascending, op_gt) "name" None None H).
Defined.

Lemma decode_encode_round_trip_witness :
  isObjectId (JString (id {| id := key "3"; v := Some "bob" |})) = true /\
  decodeCursor (encodeCursor {| id := key "3"; v := Some "bob" |}) =
    Normal (Some {| id := key "3"; v := Some "bob" |}).
Proof.
  assert (H : isObjectId (JString (id {| id := key "3"; v := Some "bob" |})) = true)
    by (vm_compute; reflexivity).
  split; [exact H |].
  exact (decode_encode_round_trip {| id := key "3"; v := Some "bob" |} H).
Defined.

Lemma undecodable_prevCursor_witness :
  truthy (prevCursor (pagination (request_by_key desc 3 None (Some "e30=")))) =
    Some "e30=" /\
  decodeCursor "e30=" = Normal None /\
  exists q : Query,
    paginate five_docs (request_by_key desc 3 None (Some "e30=")) =
      Normal (run_query five_docs
                (initial_request (request_by_key desc 3 None (Some "e30="))) q) /\
    q_reverse q = true /\ q_cursor q = None /\
    q_sort q = [("_id", Ascending)].
Proof.
  assert (H1 : truthy (prevCursor (pagination
                 (request_by_key desc 3 None (Some "e30=")))) = Some "e30=")
    by reflexivity.
  assert (H2 : decodeCursor "e30=" = Normal None) by (vm_compute; reflexivity).
  split; [exact H1 |]. split; [exact H2 |].
  destruct (undecodable_prevCursor_gives_reversed_initial_fetch
              five_docs (request_by_key desc 3 None (Some "e30=")) "e30=" H1 H2)
    as (q0 & H0 & Hq & Hp & Hdata).
  eexists. split; [exact Hp |]. split; [reflexivity |]. split; reflexivity.
Defined.

(** The page answered for an undecodable [prevCursor] is not the page of
    the initial request: it holds the last documents of the requested
    order, not the first. *)
Lemma undecodable_prevCursor_page_is_the_last :
  Paginated.data <$> paginate five_docs (request_by_key desc 3 None (Some "e30=")) =
    Normal (map (fun k => {| _id := key k; fields := [] |}) ["3"; "2"; "1"]) /\
  Paginated.data <$> paginate five_docs (request_by_key desc 3 None None) =
    Normal (map (fun k => {| _id := key k; fields := [] |}) ["5"; "4"; "3"]).
Proof. split; vm_compute; reflexivity. Qed.

(** C9. A [prevCursor] that fails to decode by making [decodeCursor] throw
    is not answered with the reversed initial fetch: [paginate] throws.
    The token [aGVsbG8=] is the Base64 of [hello], on which [JSON.parse]
    throws [SyntaxError]; the token [eyJ2Ijp7InRvU3RyaW5nIjowfX0=] is the
    Base64 of the JSON of an object whose [v] is an object with a
    [toString] of its own, on which [String] throws [TypeError].  The
    initial request on the same store returns a page. *)
Theorem prevCursor_that_throws_on_decoding_makes_paginate_throw :
  base64_decode "aGVsbG8=" = Some "hello" /\
  truthy (prevCursor (pagination (request_by_key desc 3 None (Some "aGVsbG8=")))) =
    Some "aGVsbG8=" /\
  paginate five_docs (request_by_key desc 3 None (Some "aGVsbG8=")) =
    Throw SyntaxError /\
  JSON_parse <$> base64_decode "eyJ2Ijp7InRvU3RyaW5nIjowfX0=" =
    Some (Normal (JObject [("v", JObject [("toString", JNumber "0")])])) /\
  paginate five_docs (request_by_key desc 3 None (Some "eyJ2Ijp7InRvU3RyaW5nIjowfX0=")) =
    Throw TypeError /\
  Paginated.data <$> paginate five_docs (request_by_key desc 3 None None) =
    Normal (map (fun k => {| _id := key k; fields := [] |}) ["5"; "4"; "3"]).
Proof. repeat split; vm_compute; reflexivity. Qed.

(** C4. On a store in which a selected document has no value for the
    sort field, the walk does not visit every selected document: in
    ascending order of name the nameless document comes first, its cursor
    carries no sort value, the probe for what follows it compares keys
    alone and finds nothing, and the first response has no [nextCursor]
    although the other document follows. *)
Lemma walk_stops_after_document_without_sort_value :
  exists pages : list (Paginated.t doc),
    follow_next 5 nameless_and_named (request_by_name asc 1) None =
      Normal (pages, true) /\
    visited pages = [ {| _id := key "2"; fields := [] |} ] /\
    List.filter (selected_by (filters (request_by_name asc 1))) nameless_and_named =
      nameless_and_named /\
    ~ (visited pages ≡ₚ nameless_and_named).
Proof.
  eexists. split; [vm_compute; reflexivity |].
  split; [reflexivity |]. split; [reflexivity |].
  intros H. apply Permutation_length in H. discriminate.
Qed.

Lemma people_traversable (o : SortOrderType) (n : nat) :
  (1 <= n)%nat -> traversable people (request_by_name o n).
Proof.
  intros Hn. split.
  - apply (bool_decide_unpack _). vm_compute. reflexivity.
  - repeat (constructor; [vm_compute; reflexivity |]). constructor.
  - exact Hn.
  - right. exists 2%nat.
    repeat (constructor;
            [intros _; split; [reflexivity | eexists; split; reflexivity] |]).
    constructor.
Defined.

Lemma following_nextCursor_witness :
  traversable people (request_by_name asc 2) /\
  (length people < 6)%nat /\
  exists pages : list (Paginated.t doc),
    follow_next 6 people (request_by_name asc 2) None = Normal (pages, true) /\
    visited pages ≡ₚ List.filter (selected_by None) people /\
    NoDup (visited pages) /\
    StronglySorted (precedes asc "name") (visited pages).
Proof.
  assert (H : traversable people (request_by_name asc 2))
    by (apply people_traversable; lia).
  assert (Hc : (length people < 6)%nat) by (cbn; lia).
  split; [exact H |]. split; [exact Hc |].
  exact (following_nextCursor_visits_each_match_once people (request_by_name asc 2) H 6 Hc).
Defined.

(** The walk of the witness, run: the pages, two documents at a time, by
    name and then by key. *)
Lemma people_walk :
  follow_next_data 6 people (request_by_name asc 2) =
    Normal ([ [person "2" "amy"; person "5" "amy"];
              [person "1" "bob"; person "3" "bob"];
              [person "4" "cat"] ], true) /\
  follow_next_data 6 people (request_by_name desc 2) =
    Normal ([ [person "4" "cat"; person "3" "bob"];
              [person "1" "bob"; person "5" "amy"];
              [person "2" "amy"] ], true).
Proof. split; vm_compute; reflexivity. Qed.

(** With keys that are not in the format of a key the returned token does
    not decode, and every call answers the first page again. *)
Lemma walk_repeats_first_page_on_foreign_keys :
  follow_next_data 3 [ {| _id := "user-1"; fields := [] |};
                       {| _id := "user-2"; fields := [] |} ]
    (request_by_key asc 1 None None) =
    Normal ([ [ {| _id := "user-1"; fields := [] |} ];
              [ {| _id := "user-1"; fields := [] |} ];
              [ {| _id := "user-1"; fields := [] |} ] ], false).
Proof. vm_compute. reflexivity. Qed.


(* ================================================================== *)
(** ** The pagination of the key-only variant *)
(* ================================================================== *)

(** Objects without common keys are merged by putting their properties
    one after the other. *)
Lemma deepMerge_disjoint (tprops sprops : list (string * jsval)) :
  NoDup (map fst (tprops ++ sprops)) ->
  Forall (fun member => fst member ∉ Object_prototype_keys) sprops ->
  deepMerge (JObject tprops) (JObject sprops) = JObject (tprops ++ sprops).
Proof.
  intros Hnd Hkeys. rewrite deepMerge_unfold. f_equal.
  assert (Hloop : forall members output,
            NoDup (map fst (output ++ members)) ->
            (forall k, k ∈ map fst members -> obj_lookup k tprops = None) ->
            Forall (fun member => fst member ∉ Object_prototype_keys) members ->
            fold_left (fun output member =>
                         assign (fst member) (merged tprops (fst member) (snd member)) output)
              members output = output ++ members).
  { induction members as [|[k x] members IHm]; intros output Hnd' Hfresh Hk';
      [by rewrite app_nil_r |].
    apply Forall_cons in Hk' as [Hk Hk']. cbn [fst] in Hk.
    cbn [fold_left fst snd].
    assert (Hval : merged tprops k x = x).
    { unfold has_property, has_own. rewrite (Hfresh k) by (cbn; left).
      cbn [orb]. rewrite (bool_decide_eq_false_2 _ Hk). by rewrite andb_false_r. }
    assert (Hnew : obj_lookup k output = None).
    { apply obj_lookup_None. rewrite map_app in Hnd'. cbn [map fst] in Hnd'.
      apply NoDup_app in Hnd' as (_ & Hdisj & _). intros Hin.
      apply (Hdisj k Hin). left. }
    assert (Hadd : assign k x output = output ++ [(k, x)]).
    { unfold assign. apply not_prototype_key, String.eqb_neq in Hk.
      rewrite Hk. cbn [andb]. by apply obj_set_fresh. }
    rewrite Hval, Hadd, IHm; [by rewrite <- app_assoc | by rewrite <- app_assoc | | done].
    intros k' Hk'in. apply Hfresh. cbn. by right. }
  apply Hloop; [done | | done].
  intros k Hk. apply obj_lookup_None. rewrite map_app in Hnd.
  apply NoDup_app in Hnd as (_ & Hdisj & _). intros Hin. by apply (Hdisj k Hin).
Qed.

Section IndexPages.
Context {conditions : Index.Conditions}.

Variable this : list doc.
Variable opts : Index.PaginateOpts.

(** The collections and the callers' filters for which the cursors of
    [index.ts] work: the keys are distinct and have the format of a key,
    the limit is positive, and the filters, when given, are an object
    that holds no condition on [_id] and no key named like a property of
    [Object.prototype]. *)
Hypothesis keys_distinct : NoDup (map _id this).
Hypothesis keys_valid : Forall (fun d => isObjectId (JString (_id d)) = true) this.
Hypothesis limit_positive : (1 <= Index.limit (Index.pagination opts))%nat.
Hypothesis filters_apart :
  Index.filters opts = JUndefined \/
  exists props,
    Index.filters opts = JObject props /\
    NoDup (map fst props) /\
    Forall (fun member => fst member ∉ Object_prototype_keys) props /\
    obj_lookup "_id" props = None.

#[local] Abbreviation o := (Index.order (Index.pagination opts)).
#[local] Abbreviation n := (Index.limit (Index.pagination opts)).
#[local] Abbreviation base := (Index.selects (Index.filters opts)).

(** The request of the plugin that sorts by the key under the same
    filter. *)
#[local] Abbreviation by_key :=
  {| pagination := {| nextCursor := None; prevCursor := None; order := o;
                      limit := n; sortBy := "_id" |};
     filters := Some base;
     parseSortValue := None |}.

(** The selected documents in the requested order of their keys. *)
#[local] Abbreviation L := (matching_in_order this by_key).

Lemma by_key_traversable : traversable this by_key.
Proof. split; [done | done | done | by left]. Qed.

(** The request with the given cursors. *)
#[local] Abbreviation request next_token prev_token :=
  {| Index.pagination :=
       {| Index.nextCursor := next_token; Index.prevCursor := prev_token;
          Index.order := o; Index.limit := n |};
     Index.filters := Index.filters opts |}.

(** *** What the filters select *)

#[local] Abbreviation beyond op c d :=
  (condition_holds "_id" (doc_get d "_id") (Compare op (VString c))).

Lemma operator_of_key op : Index.operator_of (Index.operator_key op) = Some op.
Proof. by destruct op. Qed.

Lemma selects_fetch_filter op c d :
  Index.selects
    (deepMerge (JObject [("_id", JObject [(Index.operator_key op, JString c)])])
       (Index.filters opts)) d =
  beyond op c d && base d.
Proof.
  destruct filters_apart as [->|(props & -> & Hnd & Hkeys & Hid)].
  - cbn. rewrite operator_of_key. by rewrite !andb_true_r.
  - rewrite deepMerge_disjoint; [| | done].
    + cbn. rewrite operator_of_key. by rewrite andb_true_r.
    + cbn. apply NoDup_cons. split; [by apply obj_lookup_None | done].
Qed.

Lemma selects_initial_filter d :
  Index.selects (deepMerge (JObject []) (Index.filters opts)) d = base d.
Proof.
  destruct filters_apart as [->|(props & -> & Hnd & Hkeys & Hid)]; [done |].
  by rewrite (deepMerge_disjoint [] props).
Qed.

Lemma selects_probe_filter op c d :
  Index.selects (Index.probe_filter (Index.filters opts) op c) d =
  beyond op c d && base d.
Proof.
  unfold Index.probe_filter.
  destruct filters_apart as [->|(props & -> & Hnd & Hkeys & Hid)].
  - cbn. rewrite operator_of_key. by rewrite !andb_true_r.
  - cbn [spread]. rewrite obj_set_fresh by done.
    cbn [Index.selects]. rewrite forallb_app. cbn.
    rewrite operator_of_key. rewrite !andb_true_r. apply andb_comm.
Qed.

(** The filter of the plugin for the cursor of a document, sorted by
    key, selects the same documents. *)
Lemma plugin_filter_beyond dir op c d :
  matches_filter
    (fst (getFiltersFromCursor (Some (cursor_of_doc "_id" c))
            (dir, op) "_id" None (Some base))) d =
  beyond op (_id c) d && base d.
Proof. cbn. by rewrite !andb_true_r. Qed.

Lemma key_not_empty c : c ∈ this -> Index.given (Some (_id c)) = true.
Proof.
  intros Hc. rewrite Forall_forall in keys_valid. specialize (keys_valid c Hc).
  cbn in keys_valid. apply andb_true_iff in keys_valid as [_ Hlen].
  apply Nat.eqb_eq in Hlen. cbn. by destruct (_id c).
Qed.

(** *** The queries *)

Lemma Index_query_first :
  Index._getQuery (Index.pagination (request None None)) (Index.filters opts) =
  {| Index.q_filter := deepMerge (JObject []) (Index.filters opts);
     Index.q_sort := [("_id", direction_of o)];
     Index.q_order :=
       {| Index.sortOrder := direction_of o;
          Index.key := backward_operator o;
          Index.query := o;
          Index.prevKey := backward_operator o;
          Index.nextKey := forward_operator o |};
     Index.q_reverse := false;
     Index.q_limit := n |}.
Proof. unfold Index._getQuery. cbn. by destruct o. Qed.

Lemma Index_query_forward c :
  Index.given (Some c) = true ->
  Index._getQuery (Index.pagination (request (Some c) None)) (Index.filters opts) =
  {| Index.q_filter :=
       deepMerge
         (JObject [("_id", JObject [(Index.operator_key (forward_operator o), JString c)])])
         (Index.filters opts);
     Index.q_sort := [("_id", direction_of o)];
     Index.q_order :=
       {| Index.sortOrder := direction_of o;
          Index.key := forward_operator o;
          Index.query := o;
          Index.prevKey := backward_operator o;
          Index.nextKey := forward_operator o |};
     Index.q_reverse := false;
     Index.q_limit := n |}.
Proof.
  intros Hc. apply Index_given_Some in Hc as (c' & [= <-] & Hne).
  unfold Index._getQuery.
  cbn [Index.pagination Index.prevCursor Index.nextCursor Index.order Index.limit
         Index.given negb]. rewrite Hne. cbn [negb default from_option Datatypes.id].
  rewrite Hne. by destruct o.
Qed.

Lemma Index_query_backward c :
  Index.given (Some c) = true ->
  Index._getQuery (Index.pagination (request None (Some c))) (Index.filters opts) =
  {| Index.q_filter :=
       deepMerge
         (JObject [("_id", JObject [(Index.operator_key (backward_operator o), JString c)])])
         (Index.filters opts);
     Index.q_sort := [("_id", match o with desc => Ascending | asc => Descending end)];
     Index.q_order :=
       {| Index.sortOrder := match o with desc => Ascending | asc => Descending end;
          Index.key := backward_operator o;
          Index.query := o;
          Index.prevKey := backward_operator o;
          Index.nextKey := forward_operator o |};
     Index.q_reverse := true;
     Index.q_limit := n |}.
Proof.
  intros Hc. apply Index_given_Some in Hc as (c' & [= <-] & Hne).
  unfold Index._getQuery.
  cbn [Index.pagination Index.prevCursor Index.nextCursor Index.order Index.limit
         Index.given negb]. rewrite Hne. cbn [negb default from_option Datatypes.id].
  rewrite Hne. by destruct o.
Qed.

(** *** Fetches and probes *)

Lemma Index_find_positive filter sort :
  Index.Model_find this filter sort n =
  take n (merge_sort (sorted_before sort) (List.filter (Index.selects filter) this)).
Proof.
  unfold Index.Model_find. destruct (Nat.eqb_spec n 0) as [?|_]; [lia | done].
Qed.

Lemma Index_fetch_first :
  merge_sort (sorted_before [("_id", direction_of o)])
    (List.filter (Index.selects (deepMerge (JObject []) (Index.filters opts))) this) = L.
Proof.
  unfold matching_in_order. f_equal. apply filter_ext. intros d.
  apply selects_initial_filter.
Qed.

Lemma Index_fetch_after c i :
  L !! i = Some c ->
  merge_sort (sorted_before [("_id", direction_of o)])
    (List.filter
       (Index.selects
          (deepMerge
             (JObject [("_id", JObject [(Index.operator_key (forward_operator o),
                                         JString (_id c))])])
             (Index.filters opts))) this) = drop (S i) L.
Proof.
  intros Hi.
  rewrite <- (fetch_after_cursor this by_key by_key_traversable (direction_of o) c i Hi).
  f_equal. apply filter_ext. intros d.
  by rewrite selects_fetch_filter, plugin_filter_beyond.
Qed.

Lemma Index_fetch_before c i :
  L !! i = Some c ->
  merge_sort
    (sorted_before [("_id", match o with desc => Ascending | asc => Descending end)])
    (List.filter
       (Index.selects
          (deepMerge
             (JObject [("_id", JObject [(Index.operator_key (backward_operator o),
                                         JString (_id c))])])
             (Index.filters opts))) this) = rev (take i L).
Proof.
  intros Hi.
  rewrite <- (fetch_before_cursor this by_key by_key_traversable (direction_of o) c i Hi).
  f_equal. apply filter_ext. intros d.
  by rewrite selects_fetch_filter, plugin_filter_beyond.
Qed.

Lemma Index_count_after c i :
  L !! i = Some c ->
  Index.Model_count this
    (Index.probe_filter (Index.filters opts) (forward_operator o) (_id c)) =
  (length L - S i)%nat.
Proof.
  intros Hi.
  rewrite <- (count_after_cursor this by_key by_key_traversable (direction_of o) c i Hi).
  unfold Index.Model_count, Model_countDocuments. f_equal.
  apply filter_ext. intros d.
  by rewrite selects_probe_filter, plugin_filter_beyond.
Qed.

Lemma Index_count_before c i :
  L !! i = Some c ->
  Index.Model_count this
    (Index.probe_filter (Index.filters opts) (backward_operator o) (_id c)) = i.
Proof.
  intros Hi.
  etrans; [|exact (count_before_cursor this by_key by_key_traversable
                     (direction_of o) c i Hi)].
  unfold Index.Model_count, Model_countDocuments. f_equal.
  apply filter_ext. intros d.
  by rewrite selects_probe_filter, plugin_filter_beyond.
Qed.

(** The key of the document at position [i] of [L]. *)
#[local] Abbreviation key_at i := (_id <$> L !! i).

(** The response when the documents of the page are the positions [a] to
    [b - 1] of [L]. *)
Lemma Index_paginate_segment req a b :
  Index.filters req = Index.filters opts ->
  (a < b <= length L)%nat ->
  let query := Index._getQuery (Index.pagination req) (Index.filters req) in
  (if Index.q_reverse query
   then rev (Index.Model_find this (Index.q_filter query) (Index.q_sort query)
               (Index.q_limit query))
   else Index.Model_find this (Index.q_filter query) (Index.q_sort query)
          (Index.q_limit query)) = take (b - a) (drop a L) ->
  Index.nextKey (Index.q_order query) = forward_operator o ->
  Index.prevKey (Index.q_order query) = backward_operator o ->
  Index.paginate this req =
  Index.Paginated.mk (take (b - a) (drop a L))
    (if decide (b < length L)%nat then key_at (b - 1) else None)
    (if decide (0 < a)%nat then key_at a else None).
Proof.
  intros Hfilters Hab query Hdocs Hnext Hprev.
  unfold Index.paginate. fold query. cbv zeta. rewrite Hdocs, Hnext, Hprev, Hfilters.
  pose proof (length_take (drop a L) (b - a)) as Hlen. rewrite length_drop in Hlen.
  destruct (take (b - a) (drop a L)) as [|first rest] eqn:Hseg; [cbn in Hlen; lia |].
  assert (Hfirst : L !! a = Some first).
  { rewrite <- (Nat.add_0_r a), <- lookup_drop, <- (lookup_take_lt _ (b - a)) by lia.
    by rewrite Hseg. }
  assert (Hlast : exists c, L !! (b - 1)%nat = Some c) by (apply lookup_lt_is_Some; lia).
  destruct Hlast as [c Hc].
  assert (Hl : List.last (first :: rest) first = c).
  { apply (List_last_lookup _ _ _ (b - a - 1)); [|lia].
    rewrite <- Hseg, lookup_take_lt, lookup_drop by lia.
    rewrite <- Hc. f_equal. lia. }
  rewrite Hl, (Index_count_after c _ Hc), (Index_count_before first a Hfirst).
  rewrite Hfirst, Hc. cbn [fmap option_fmap option_map].
  destruct (Nat.eqb_spec (length L - S (b - 1)) 0) as [Hz|Hnz];
    destruct (Nat.eqb_spec a 0) as [Ha|Ha]; cbn [negb].
  - rewrite decide_False by lia. by rewrite decide_False by lia.
  - rewrite decide_False by lia. by rewrite decide_True by lia.
  - rewrite decide_True by lia. by rewrite decide_False by lia.
  - rewrite decide_True by lia. by rewrite decide_True by lia.
Qed.

(** *** Pages *)

Lemma L_in_store c i : L !! i = Some c -> c ∈ this.
Proof.
  intros Hi. apply list_elem_of_lookup_2 in Hi.
  by apply (matching_elem_of this by_key) in Hi as [? _].
Qed.

(** The response at position [p] of the walk: at the start without
    cursor, and later with the key of the document just before [p]. *)
Lemma Index_forward_page_at p token :
  ((p = 0)%nat /\ token = None) \/
  (exists c, L !! (p - 1)%nat = Some c /\ (0 < p <= length L)%nat /\
             token = Some (_id c)) ->
  Index.paginate this (request token None) =
  Index.Paginated.mk (take n (drop p L))
    (if decide (p + n < length L)%nat then key_at (p + n - 1) else None)
    (if decide (0 < p)%nat then key_at p else None).
Proof.
  intros Hpos.
  assert (Hq : let query := Index._getQuery (Index.pagination (request token None))
                              (Index.filters opts) in
    Index.q_reverse query = false /\
    Index.Model_find this (Index.q_filter query) (Index.q_sort query)
      (Index.q_limit query) = take n (drop p L) /\
    Index.nextKey (Index.q_order query) = forward_operator o /\
    Index.prevKey (Index.q_order query) = backward_operator o).
  { destruct Hpos as [[-> ->]|(c & Hc & Hp & ->)]; cbv zeta.
    - rewrite Index_query_first.
      cbn [Index.q_reverse Index.q_filter Index.q_sort Index.q_limit Index.q_order
             Index.nextKey Index.prevKey].
      split; [done |]. split; [|done].
      by rewrite Index_find_positive, Index_fetch_first.
    - rewrite (Index_query_forward (_id c)) by (apply key_not_empty; by eapply L_in_store).
      cbn [Index.q_reverse Index.q_filter Index.q_sort Index.q_limit Index.q_order
             Index.nextKey Index.prevKey].
      split; [done |]. split; [|done].
      rewrite Index_find_positive, (Index_fetch_after c (p - 1) Hc).
      do 2 f_equal. lia. }
  cbv zeta in Hq. destruct Hq as (Hrev & Hfetch & Hnext & Hprev).
  destruct (decide (p < length L)%nat) as [Hp|Hp].
  - assert (Hdata : take (Nat.min (p + n) (length L) - p) (drop p L) = take n (drop p L)).
    { destruct (decide (p + n <= length L)%nat) as [H1|H1].
      - rewrite Nat.min_l by lia. f_equal. lia.
      - rewrite !take_ge; [done | rewrite length_drop; lia | rewrite length_drop; lia]. }
    pose proof (Index_paginate_segment (request token None) p
                  (Nat.min (p + n) (length L)) eq_refl) as Hseg.
    cbv zeta in Hseg.
    change (Index.filters (request token None)) with (Index.filters opts) in Hseg.
    rewrite Hrev, Hfetch, Hdata in Hseg.
    rewrite (Hseg ltac:(lia) eq_refl Hnext Hprev). f_equal.
    destruct (decide (p + n < length L)%nat) as [H1|H1].
    + rewrite Nat.min_l by lia. by rewrite decide_True by lia.
    + by rewrite decide_False by lia.
  - assert (Hdrop : drop p L = []) by (apply drop_ge; lia).
    unfold Index.paginate. cbv zeta.
    change (Index.filters (request token None)) with (Index.filters opts).
    rewrite Hrev, Hfetch, Hdrop, take_nil. f_equal.
    + by rewrite decide_False by lia.
    + destruct (decide (0 < p)%nat); [|done].
      by rewrite lookup_ge_None_2 by lia.
Qed.

(** The response to the request with the key of the document at position
    [i] for [prevCursor]. *)
Lemma Index_backward_page_at i c :
  L !! i = Some c ->
  Index.paginate this (request None (Some (_id c))) =
  if decide (0 < i)%nat
  then Index.Paginated.mk (drop (i - n) (take i L))
         (key_at (i - 1))
         (if decide (n < i)%nat then key_at (i - n) else None)
  else Index.Paginated.mk [] None None.
Proof.
  intros Hi.
  pose proof (lookup_lt_Some _ _ _ Hi) as Hlt.
  assert (Hgiven : Index.given (Some (_id c)) = true)
    by (apply key_not_empty; by eapply L_in_store).
  assert (Hdocs : rev (Index.Model_find this
                         (Index.q_filter (Index._getQuery
                            (Index.pagination (request None (Some (_id c))))
                            (Index.filters opts)))
                         (Index.q_sort (Index._getQuery
                            (Index.pagination (request None (Some (_id c))))
                            (Index.filters opts)))
                         (Index.q_limit (Index._getQuery
                            (Index.pagination (request None (Some (_id c))))
                            (Index.filters opts)))) =
                  drop (i - n) (take i L)).
  { rewrite (Index_query_backward (_id c) Hgiven).
    cbn [Index.q_filter Index.q_sort Index.q_limit].
    rewrite Index_find_positive, (Index_fetch_before c i Hi).
    rewrite firstn_rev, rev_involutive, length_take. do 2 f_equal. lia. }
  destruct (decide (0 < i)%nat) as [Hpos|Hzero].
  - pose proof (Index_paginate_segment (request None (Some (_id c))) (i - n) i
                  eq_refl) as Hseg.
    cbv zeta in Hseg.
    change (Index.filters (request None (Some (_id c)))) with (Index.filters opts) in Hseg.
    rewrite (Index_query_backward (_id c) Hgiven) in Hseg at 1.
    cbn [Index.q_reverse] in Hseg. rewrite Hdocs in Hseg.
    rewrite (Index_query_backward (_id c) Hgiven) in Hseg.
    cbn [Index.q_order Index.nextKey Index.prevKey] in Hseg.
    rewrite <- skipn_firstn_comm in Hseg.
    rewrite (Hseg ltac:(lia) eq_refl eq_refl eq_refl). f_equal.
    + by rewrite decide_True by lia.
    + destruct (decide (0 < i - n)%nat) as [H1|H1],
        (decide (n < i)%nat) as [H2|H2]; solve [done | lia].
  - assert (i = 0%nat) as -> by lia.
    assert (Hrev : Index.q_reverse (Index._getQuery
                     (Index.pagination (request None (Some (_id c))))
                     (Index.filters opts)) = true)
      by (by rewrite (Index_query_backward (_id c) Hgiven)).
    unfold Index.paginate. cbv zeta.
    change (Index.filters (request None (Some (_id c)))) with (Index.filters opts).
    rewrite !Hrev, !Hdocs. by rewrite take_0, drop_nil.
Qed.

(** From position [p] on, the walk sees the rest of [L] and ends. *)
Lemma Index_follow_next_from calls : forall p token,
  ((p = 0)%nat /\ token = None) \/
  (exists c, L !! (p - 1)%nat = Some c /\ (0 < p <= length L)%nat /\
             token = Some (_id c)) ->
  (length L - p < calls)%nat ->
  exists pages,
    Index.follow_next calls this opts token = (pages, true) /\
    concat (map Index.Paginated.data pages) = drop p L /\
    forall k r, pages !! k = Some r ->
      (k = 0 \/ p + k * n < length L)%nat /\
      r = Index.Paginated.mk (take n (drop (p + k * n) L))
            (if decide (p + k * n + n < length L)%nat
             then key_at (p + k * n + n - 1) else None)
            (if decide (0 < p + k * n)%nat then key_at (p + k * n) else None).
Proof.
  induction calls as [|calls IH]; intros p token Hpos Hcalls; [lia |].
  cbn [Index.follow_next].
  rewrite (Index_forward_page_at p token Hpos). cbn [Index.Paginated.nextCursor].
  destruct (decide (p + n < length L)%nat) as [Hmore|Hlast].
  - destruct (lookup_lt_is_Some_2 L (p + n - 1)) as [c Hc]; [lia |].
    rewrite Hc. cbn [fmap option_fmap option_map].
    destruct (IH (p + n)%nat (Some (_id c))) as (pages & Hpages & Hvisited & Hat).
    + right. exists c. split; [by rewrite Hc | split; [lia | done]].
    + lia.
    + rewrite Hpages. eexists. split; [reflexivity |]. split.
      * cbn [map concat Index.Paginated.data]. rewrite Hvisited.
        rewrite <- (drop_drop L n p). apply take_drop.
      * intros [|k] r Hk.
        -- injection Hk as <-. split; [by left |].
           cbn [Nat.mul]. rewrite Nat.add_0_r.
           rewrite (decide_True (P := (p + n < length L)%nat)) by done.
           by rewrite Hc.
        -- cbn [lookup list_lookup] in Hk. destruct (Hat k r Hk) as [Hk' ->].
           replace (p + S k * n)%nat with (p + n + k * n)%nat by lia.
           split; [right; lia | done].
  - eexists. split; [reflexivity |]. split.
    + cbn [map concat Index.Paginated.data]. rewrite app_nil_r.
      apply take_ge. rewrite length_drop. lia.
    + intros [|k] r Hk; [|done]. injection Hk as <-. split; [by left |].
      cbn [Nat.mul]. rewrite Nat.add_0_r.
      by rewrite (decide_False (P := (p + n < length L)%nat)) by done.
Qed.

(** X23. The walk of [index.ts].  On a collection with distinct keys in
    the format of a key, with a positive limit and with filters that hold
    no condition on [_id] (and no key named like a property of
    [Object.prototype]): starting without cursor and calling [paginate]
    with each returned [nextCursor], the walk ends on a response without
    [nextCursor] after at most [length this] calls, and the pages put end
    to end hold every document that the filters select exactly once, in
    the requested order of the keys; the response number [k] holds the
    documents at positions [k * limit] and following, has no [prevCursor]
    exactly when it is the first and no [nextCursor] exactly when no
    selected document is left after it. *)
Theorem Index_walk_visits_each_selected_document_once (calls : nat) :
  (length this < calls)%nat ->
  exists pages : list Index.Paginated.t,
    Index.follow_next calls this opts None = (pages, true) /\
    concat (map Index.Paginated.data pages) ≡ₚ List.filter base this /\
    NoDup (concat (map Index.Paginated.data pages)) /\
    StronglySorted (precedes o "_id") (concat (map Index.Paginated.data pages)) /\
    forall k r, pages !! k = Some r ->
      Index.Paginated.data r =
        take n (drop (k * n) (concat (map Index.Paginated.data pages))) /\
      (Index.Paginated.prevCursor r = None <-> k = 0%nat) /\
      (Index.Paginated.nextCursor r = None <->
       (length (List.filter base this) <= k * n + n)%nat).
Proof.
  intros Hcalls.
  destruct (Index_follow_next_from calls 0 None) as (pages & Hpages & Hvisited & Hat).
  { by left. }
  { pose proof (matching_length this by_key). lia. }
  exists pages. cbn [drop] in Hvisited. rewrite Hvisited.
  split; [done |]. split; [apply (matching_Permutation this by_key) |].
  split; [apply (matching_NoDup this by_key by_key_traversable) |].
  split; [apply (matching_in_requested_order this by_key by_key_traversable) |].
  intros k r Hk. destruct (Hat k r Hk) as [Hk' ->].
  cbn [Nat.add Index.Paginated.data Index.Paginated.prevCursor
         Index.Paginated.nextCursor].
  assert (Hlen : length (List.filter base this) = length L)
    by (by rewrite (matching_Permutation this by_key)).
  rewrite Hlen. split; [done |]. split.
  - destruct (decide (0 < k * n)%nat) as [Hpos|Hzero].
    + destruct (lookup_lt_is_Some_2 L (k * n)) as [c Hc]; [lia |].
      rewrite Hc. cbn [fmap option_fmap option_map]. split; [done | nia].
    + split; [nia | done].
  - destruct (decide (k * n + n < length L)%nat) as [Hmore|Hlast].
    + destruct (lookup_lt_is_Some_2 L (k * n + n - 1)) as [c Hc]; [lia |].
      rewrite Hc. cbn [fmap option_fmap option_map]. split; [done | lia].
    + split; [lia | done].
Qed.

(** The selected documents have one arrangement in the requested order of
    their keys. *)
Lemma selected_in_order_unique (l : list doc) :
  l ≡ₚ List.filter base this ->
  StronglySorted (precedes o "_id") l ->
  l = L.
Proof.
  intros Hperm Hsorted.
  apply (StronglySorted_unique_strong (precedes o "_id")); [| done | |].
  - intros d1 d2 _ _ H12 H21.
    apply precedes_forward_compare in H12, H21.
    rewrite forward_compare_antisym, H12 in H21. done.
  - apply (matching_in_requested_order this by_key by_key_traversable).
  - rewrite Hperm. symmetry. apply (matching_Permutation this by_key).
Qed.

(** X24. [paginate] of [index.ts] before a cursor.  Under the conditions
    of the walk, let the selected documents in the requested order of
    their keys be [before], then [c], then [after].  The request with the
    key of [c] for [prevCursor] returns the last [limit] documents of
    [before] (all of them when there are fewer), in the requested order;
    its [nextCursor] is the key of the last document of [before], hence
    null only when nothing is selected before [c], also when the page is
    shorter than the limit; its [prevCursor] is the key of the first
    document of the page when more than [limit] documents stand before
    [c], and null otherwise. *)
Theorem Index_page_before_a_cursor (before after : list doc) (c : doc) :
  before ++ c :: after ≡ₚ List.filter base this ->
  StronglySorted (precedes o "_id") (before ++ c :: after) ->
  let r := Index.paginate this (request None (Some (_id c))) in
  Index.Paginated.data r = drop (length before - n) before /\
  Index.Paginated.nextCursor r = _id <$> last before /\
  Index.Paginated.prevCursor r =
    (if decide (n < length before)%nat
     then _id <$> head (drop (length before - n) before)
     else None).
Proof.
  intros Hperm Hsorted r.
  pose proof (selected_in_order_unique _ Hperm Hsorted) as HL.
  assert (Hc : L !! length before = Some c) by (by rewrite <- HL, list_lookup_middle).
  subst r. rewrite (Index_backward_page_at _ c Hc).
  assert (Htake : take (length before) L = before)
    by (by rewrite <- HL, take_app_length).
  destruct (decide (0 < length before)%nat) as [Hpos|Hzero];
    cbn [Index.Paginated.data Index.Paginated.nextCursor Index.Paginated.prevCursor].
  - rewrite Htake. split; [done |]. split.
    + rewrite last_lookup. rewrite <- HL.
      rewrite lookup_app_l by lia. do 2 f_equal. lia.
    + destruct (decide (n < length before)%nat) as [Hmore|Hfew]; [|done].
      rewrite head_lookup, lookup_drop, Nat.add_0_r. rewrite <- HL.
      by rewrite lookup_app_l by lia.
  - assert (before = []) as -> by (apply nil_length_inv; lia).
    cbn [length drop last fmap option_fmap option_map].
    rewrite drop_nil. split; [done |]. split; [done |].
    by rewrite decide_False by lia.
Qed.

(** X25. [paginate] of [index.ts] after a cursor.  Under the conditions
    of the walk, let the selected documents in the requested order of
    their keys be [before], then [c], then [after].  The request with the
    key of [c] for [nextCursor] returns the first [limit] documents of
    [after]; its [nextCursor] is the key of the last document of the page
    when more than [limit] documents stand after [c], and null otherwise;
    its [prevCursor] is the key of the first document of the page, hence
    null exactly when the page is empty: after the last selected document
    the response holds no cursor at all. *)
Theorem Index_page_after_a_cursor (before after : list doc) (c : doc) :
  before ++ c :: after ≡ₚ List.filter base this ->
  StronglySorted (precedes o "_id") (before ++ c :: after) ->
  let r := Index.paginate this (request (Some (_id c)) None) in
  Index.Paginated.data r = take n after /\
  Index.Paginated.nextCursor r =
    (if decide (n < length after)%nat then _id <$> last (take n after) else None) /\
  Index.Paginated.prevCursor r = _id <$> head after.
Proof.
  intros Hperm Hsorted r.
  pose proof (selected_in_order_unique _ Hperm Hsorted) as HL.
  assert (Hc : L !! length before = Some c) by (by rewrite <- HL, list_lookup_middle).
  assert (Hlen : length L = (length before + S (length after))%nat)
    by (by rewrite <- HL, length_app).
  assert (Hat : forall j, L !! (S (length before) + j)%nat = after !! j).
  { intros j. rewrite <- HL.
    rewrite lookup_app_r by lia.
    by replace (S (length before) + j - length before)%nat with (S j) by lia. }
  assert (Hdrop : drop (S (length before)) L = after).
  { rewrite <- HL. rewrite drop_app_ge by lia.
    by replace (S (length before) - length before)%nat with 1%nat by lia. }
  subst r.
  rewrite (Index_forward_page_at (S (length before)) (Some (_id c))).
  2:{ right. exists c. split; [by rewrite Nat.sub_1_r | split; [lia | done]]. }
  cbn [Index.Paginated.data Index.Paginated.nextCursor Index.Paginated.prevCursor].
  rewrite Hdrop. split; [done |]. split.
  - destruct (decide (S (length before) + n < length L)%nat) as [Hmore|Hfew].
    + rewrite decide_True by lia.
      rewrite last_lookup, length_take, Nat.min_l by lia.
      rewrite lookup_take_lt by lia.
      replace (S (length before) + n - 1)%nat
        with (S (length before) + Nat.pred n)%nat by lia.
      by rewrite Hat.
    + by rewrite decide_False by lia.
  - rewrite decide_True by lia.
    rewrite <- (Nat.add_0_r (S (length before))), Hat. by rewrite head_lookup.
Qed.

End IndexPages.


(* ================================================================== *)
(** ** Instances of the further properties *)
(* ================================================================== *)

(** The first page of the people by name, two at a time. *)
Lemma page_is_part_of_the_selected_documents_witness :
  exists r : Paginated.t doc,
    paginate people (request_by_name asc 2) = Normal r /\
    Paginated.data r = [person "2" "amy"; person "5" "amy"] /\
    Paginated.data r ⊆+ List.filter (selected_by None) people /\
    ((1 <= 2)%nat -> (length (Paginated.data r) <= 2)%nat).
Proof.
  destruct (paginate people (request_by_name asc 2)) as [r|e] eqn:H;
    [|vm_compute in H; discriminate].
  exists r. split; [reflexivity |].
  split; [vm_compute in H; injection H as <-; reflexivity |].
  exact (page_is_part_of_the_selected_documents people (request_by_name asc 2) r H).
Defined.

(** A caller's filter that selects nobody. *)
Lemma nothing_selected_gives_the_empty_page_witness :
  List.filter (selected_by (Some (fun _ => false))) people = [] /\
  paginate people
    {| pagination := pagination (request_by_name asc 2);
       filters := Some (fun _ => false);
       parseSortValue := None |} = Normal (Paginated.mk [] 0 None None).
Proof.
  assert (H : List.filter (selected_by (Some (fun _ => false))) people = [])
    by reflexivity.
  split; [exact H |].
  destruct (paginate people
              {| pagination := pagination (request_by_name asc 2);
                 filters := Some (fun _ => false);
                 parseSortValue := None |}) as [r|e] eqn:Hr;
    [|vm_compute in Hr; discriminate].
  f_equal.
  exact (nothing_selected_gives_the_empty_page people
           {| pagination := pagination (request_by_name asc 2);
              filters := Some (fun _ => false);
              parseSortValue := None |} r H Hr).
Defined.

(** The page before the cursor of the fourth person in descending order
    of name. *)
Lemma page_is_in_requested_order_witness :
  exists r : Paginated.t doc,
    paginate people
      (with_prevCursor (request_by_name desc 2)
         (Some (encodeCursor (cursor_of_doc "name" (person "5" "amy"))))) = Normal r /\
    Paginated.data r = [person "3" "bob"; person "1" "bob"] /\
    StronglySorted (fun d1 d2 => ~ precedes desc "name" d2 d1) (Paginated.data r).
Proof.
  destruct (paginate people
              (with_prevCursor (request_by_name desc 2)
                 (Some (encodeCursor (cursor_of_doc "name" (person "5" "amy"))))))
    as [r|e] eqn:H; [|vm_compute in H; discriminate].
  exists r. split; [reflexivity |].
  split; [vm_compute in H; injection H as <-; reflexivity |].
  exact (page_is_in_requested_order people _ r H).
Defined.

Lemma returned_cursors_decode_to_the_page_boundaries_witness :
  Forall (fun d => isObjectId (JString (_id d)) = true) people /\
  exists r : Paginated.t doc,
    paginate people (request_by_name asc 2) = Normal r /\
    Paginated.prevCursor r = None /\
    exists token,
      Paginated.nextCursor r = Some token /\
      truthy (Some token) = Some token /\
      length (Paginated.data r) = 2%nat /\
      exists d, last (Paginated.data r) = Some d /\
                decodeCursor token = Normal (Some (cursor_of_doc "name" d)).
Proof.
  assert (Hkeys : Forall (fun d => isObjectId (JString (_id d)) = true) people)
    by (repeat (constructor; [vm_compute; reflexivity |]); constructor).
  split; [exact Hkeys |].
  destruct (paginate people (request_by_name asc 2)) as [r|e] eqn:H;
    [|vm_compute in H; discriminate].
  exists r. split; [reflexivity |].
  destruct (returned_cursors_decode_to_the_page_boundaries
              people (request_by_name asc 2) r Hkeys H) as [_ Hnext].
  split; [vm_compute in H; injection H as <-; reflexivity |].
  destruct (Paginated.nextCursor r) as [token|] eqn:Ht;
    [|vm_compute in H; injection H as <-; discriminate].
  exists token. split; [reflexivity |]. exact (Hnext token eq_refl).
Defined.

Lemma malformed_token_decodes_to_null_witness :
  ((String.length "abc" mod 4 <> 0)%nat \/
   string_forall (fun ch => match base64_value ch with
                            | Some _ => true
                            | None => Ascii.eqb ch "="
                            end) "abc" = false) /\
  decodeCursor "abc" = Normal None.
Proof.
  assert (H : (String.length "abc" mod 4 <> 0)%nat \/
              string_forall (fun ch => match base64_value ch with
                                       | Some _ => true
                                       | None => Ascii.eqb ch "="
                                       end) "abc" = false)
    by (left; vm_compute; discriminate).
  split; [exact H |]. exact (malformed_token_decodes_to_null "abc" H).
Defined.

Lemma encodeCursor_injective_witness :
  encodeCursor {| id := key "3"; v := Some "bob" |} =
    encodeCursor {| id := key "3"; v := Some ("b" +:+ "ob") |} /\
  {| id := key "3"; v := Some "bob" |} = {| id := key "3"; v := Some ("b" +:+ "ob") |}.
Proof.
  assert (H : encodeCursor {| id := key "3"; v := Some "bob" |} =
              encodeCursor {| id := key "3"; v := Some ("b" +:+ "ob") |}) by reflexivity.
  split; [exact H |]. exact (encodeCursor_injective _ _ H).
Defined.

Lemma decoded_cursor_is_well_formed_witness :
  decodeCursor "eyJpZCI6IjAwMDAwMDAwMDAwMDAwMDAwMDAwMDAwMyJ9" =
    Normal (Some {| id := key "3"; v := None |}) /\
  isObjectId (JString (key "3")) = true /\
  String.length (key "3") = 24%nat /\
  decodeCursor (encodeCursor {| id := key "3"; v := None |}) =
    Normal (Some {| id := key "3"; v := None |}).
Proof.
  assert (H : decodeCursor "eyJpZCI6IjAwMDAwMDAwMDAwMDAwMDAwMDAwMDAwMyJ9" =
              Normal (Some {| id := key "3"; v := None |}))
    by (vm_compute; reflexivity).
  split; [exact H |].
  exact (decoded_cursor_is_well_formed _ _ H).
Defined.

Lemma cursor_filter_selects_what_lies_beyond_witness :
  ("name" = "_id" \/
   ((exists s, doc_get (person "1" "bob") "name" = VString s) /\
    (exists s, doc_get (person "3" "bob") "name" = VString s))) /\
  matches_filter
    (fst (getFiltersFromCursor (Some (cursor_of_doc "name" (person "1" "bob")))
            (Ascending, op_gt) "name" None None)) (person "3" "bob") = true.
Proof.
  assert (H : "name" = "_id" \/
              ((exists s, doc_get (person "1" "bob") "name" = VString s) /\
               (exists s, doc_get (person "3" "bob") "name" = VString s)))
    by (right; split; eexists; reflexivity).
  split; [exact H |].
  exact (cursor_filter_selects_what_lies_beyond
           Ascending op_gt "name" None (person "1" "bob") (person "3" "bob") H).
Defined.

Lemma walk_cuts_the_selection_into_pages_witness :
  traversable people (request_by_name asc 2) /\
  (length people < 6)%nat /\
  exists pages : list (Paginated.t doc),
    follow_next 6 people (request_by_name asc 2) None = Normal (pages, true) /\
    forall k r, pages !! k = Some r ->
      Paginated.data r =
        take 2 (drop (k * 2) (matching_in_order people (request_by_name asc 2))) /\
      Paginated.totalCount r = length (List.filter (selected_by None) people) /\
      (Paginated.prevCursor r = None <-> k = 0%nat) /\
      (Paginated.nextCursor r = None <->
       (length (matching_in_order people (request_by_name asc 2)) <= k * 2 + 2)%nat).
Proof.
  assert (H : traversable people (request_by_name asc 2))
    by (apply people_traversable; lia).
  assert (Hc : (length people < 6)%nat) by (cbn; lia).
  split; [exact H |]. split; [exact Hc |].
  exact (walk_cuts_the_selection_into_pages people (request_by_name asc 2) H 6 Hc).
Defined.

Lemma page_before_a_cursor_witness :
  traversable people (request_by_name asc 2) /\
  matching_in_order people (request_by_name asc 2) !! 3%nat = Some (person "3" "bob") /\
  exists r : Paginated.t doc,
    paginate people
      (with_prevCursor (request_by_name asc 2)
         (Some (encodeCursor (cursor_of_doc "name" (person "3" "bob"))))) = Normal r /\
    Paginated.data r =
      drop (3 - 2) (take 3 (matching_in_order people (request_by_name asc 2))) /\
    (Paginated.prevCursor r = None <-> (3 <= 2)%nat) /\
    (Paginated.nextCursor r = None <-> (3 < 2)%nat) /\
    Paginated.totalCount r =
      (if decide (2 <= 3)%nat
       then length (matching_in_order people (request_by_name asc 2)) else 3%nat).
Proof.
  assert (H : traversable people (request_by_name asc 2))
    by (apply people_traversable; lia).
  assert (Hi : matching_in_order people (request_by_name asc 2) !! 3%nat =
               Some (person "3" "bob")) by (vm_compute; reflexivity).
  split; [exact H |]. split; [exact Hi |].
  exact (page_before_a_cursor people (request_by_name asc 2) H 3 (person "3" "bob") Hi).
Defined.

Lemma page_after_a_cursor_witness :
  traversable people (request_by_name asc 2) /\
  matching_in_order people (request_by_name asc 2) !! 1%nat = Some (person "5" "amy") /\
  exists r : Paginated.t doc,
    paginate people
      (with_nextCursor (request_by_name asc 2)
         (Some (encodeCursor (cursor_of_doc "name" (person "5" "amy"))))) = Normal r /\
    Paginated.data r =
      take 2 (drop 2 (matching_in_order people (request_by_name asc 2))) /\
    (Paginated.nextCursor r = None <->
     (length (matching_in_order people (request_by_name asc 2)) <= 2 + 2)%nat) /\
    (Paginated.prevCursor r = None <->
     2%nat = length (matching_in_order people (request_by_name asc 2))) /\
    Paginated.totalCount r =
      (if decide (2 < length (matching_in_order people (request_by_name asc 2)))%nat
       then length (matching_in_order people (request_by_name asc 2)) else 0%nat).
Proof.
  assert (H : traversable people (request_by_name asc 2))
    by (apply people_traversable; lia).
  assert (Hi : matching_in_order people (request_by_name asc 2) !! 1%nat =
               Some (person "5" "amy")) by (vm_compute; reflexivity).
  split; [exact H |]. split; [exact Hi |].
  exact (page_after_a_cursor people (request_by_name asc 2) H 1 (person "5" "amy") Hi).
Defined.

Lemma prevCursor_leads_back_to_the_previous_page_witness :
  traversable people (request_by_name asc 2) /\
  exists (pages : list (Paginated.t doc)) (r1 r2 : Paginated.t doc),
    follow_next 6 people (request_by_name asc 2) None = Normal (pages, true) /\
    pages !! 0%nat = Some r1 /\
    pages !! 1%nat = Some r2 /\
    Paginated.data r1 = [person "2" "amy"; person "5" "amy"] /\
    exists token : string,
      Paginated.prevCursor r2 = Some token /\
      paginate people (with_prevCursor (request_by_name asc 2) (Some token)) = Normal r1.
Proof.
  assert (H : traversable people (request_by_name asc 2))
    by (apply people_traversable; lia).
  split; [exact H |].
  destruct (follow_next 6 people (request_by_name asc 2) None)
    as [[[|r1 [|r2 pages]] fin]|e] eqn:Hwalk;
    try (vm_compute in Hwalk; discriminate).
  assert (Hfin : fin = true) by (vm_compute in Hwalk; congruence).
  subst fin.
  exists (r1 :: r2 :: pages), r1, r2.
  split; [reflexivity |]. split; [reflexivity |]. split; [reflexivity |].
  split; [vm_compute in Hwalk; injection Hwalk as <- _; reflexivity |].
  exact (prevCursor_leads_back_to_the_previous_page
           people (request_by_name asc 2) H 6 (r1 :: r2 :: pages) true 0 r1 r2
           Hwalk eq_refl eq_refl).
Defined.

(** *** Merged objects *)

Lemma deepMerge_by_key_witness :
  NoDup (map fst recent_open_tickets) /\
  ("owner" ∉ Object_prototype_keys) /\
  exists props,
    deepMerge (JObject open_tickets) (JObject recent_open_tickets) = JObject props /\
    obj_lookup "owner" props =
      Some (JObject [("$in", JArray [JString "amy"; JString "bob"]);
                     ("$ne", JString "cat")]).
Proof.
  assert (Hnd : NoDup (map fst recent_open_tickets))
    by (apply (bool_decide_unpack _); vm_compute; reflexivity).
  assert (Hk : "owner" ∉ Object_prototype_keys)
    by (apply (bool_decide_unpack _); vm_compute; reflexivity).
  split; [exact Hnd |]. split; [exact Hk |].
  destruct (deepMerge_by_key open_tickets recent_open_tickets "owner" Hnd Hk)
    as (props & Hprops & Hlook).
  exists props. split; [exact Hprops |]. rewrite Hlook. reflexivity.
Defined.

Lemma deepMerge_of_prototype_keys_witness :
  NoDup (map fst [("constructor", JObject [("name", JString "Ticket")])]) /\
  ("constructor" ∈ Object_prototype_keys) /\
  obj_lookup "constructor" open_tickets = None /\
  obj_lookup "constructor" [("constructor", JObject [("name", JString "Ticket")])] =
    Some (JObject [("name", JString "Ticket")]) /\
  exists props,
    deepMerge (JObject open_tickets)
      (JObject [("constructor", JObject [("name", JString "Ticket")])]) = JObject props /\
    obj_lookup "constructor" props = Some (JObject []).
Proof.
  assert (Hnd : NoDup (map fst [("constructor", JObject [("name", JString "Ticket")])]))
    by (apply (bool_decide_unpack _); vm_compute; reflexivity).
  assert (Hk : "constructor" ∈ Object_prototype_keys)
    by (apply (bool_decide_unpack _); vm_compute; reflexivity).
  assert (Ht : obj_lookup "constructor" open_tickets = None) by reflexivity.
  assert (Hs : obj_lookup "constructor"
                 [("constructor", JObject [("name", JString "Ticket")])] =
               Some (JObject [("name", JString "Ticket")])) by reflexivity.
  split; [exact Hnd |]. split; [exact Hk |]. split; [exact Ht |]. split; [exact Hs |].
  exact (deepMerge_of_prototype_keys open_tickets _ "constructor" _ Hnd Hk Ht Hs).
Defined.

Lemma deepMerge_object_over_scalar_witness :
  NoDup (map fst [("age", JObject [("$gt", JNumber "3")])]) /\
  obj_lookup "age" recent_open_tickets = Some (JNumber "7") /\
  exists props,
    deepMerge (JObject recent_open_tickets)
      (JObject [("age", JObject [("$gt", JNumber "3")])]) = JObject props /\
    obj_lookup "age" props = Some (JObject (spread (JNumber "7"))) /\
    spread (JNumber "7") = [].
Proof.
  assert (Hnd : NoDup (map fst [("age", JObject [("$gt", JNumber "3")])]))
    by (apply (bool_decide_unpack _); vm_compute; reflexivity).
  assert (Ht : obj_lookup "age" recent_open_tickets = Some (JNumber "7")) by reflexivity.
  split; [exact Hnd |]. split; [exact Ht |].
  exact (deepMerge_object_over_scalar recent_open_tickets
           [("age", JObject [("$gt", JNumber "3")])] "age"
           (JObject [("$gt", JNumber "3")]) (JNumber "7")
           Hnd Ht eq_refl eq_refl eq_refl).
Defined.

Lemma deepMerge_idempotent_witness :
  isObject (JObject open_tickets) = true /\
  well_formed (JObject open_tickets) = true /\
  deepMerge (JObject open_tickets) (JObject open_tickets) = JObject open_tickets.
Proof.
  assert (Hwf : well_formed (JObject open_tickets) = true) by (vm_compute; reflexivity).
  split; [reflexivity |]. split; [exact Hwf |].
  exact (deepMerge_idempotent (JObject open_tickets) eq_refl Hwf).
Defined.

Lemma empty_object_is_neutral_witness :
  NoDup (map fst open_tickets) /\
  Forall (fun member => fst member ∉ Object_prototype_keys) open_tickets /\
  deepMerge (JObject []) (JObject open_tickets) = JObject open_tickets /\
  deepMerge (JObject open_tickets) (JObject []) = JObject open_tickets /\
  deepMerge (JObject open_tickets) JUndefined = JObject open_tickets.
Proof.
  assert (Hnd : NoDup (map fst open_tickets))
    by (apply (bool_decide_unpack _); vm_compute; reflexivity).
  assert (Hk : Forall (fun member => fst member ∉ Object_prototype_keys) open_tickets)
    by (repeat (constructor; [apply (bool_decide_unpack _); vm_compute; reflexivity |]);
        constructor).
  split; [exact Hnd |]. split; [exact Hk |].
  exact (empty_object_is_neutral open_tickets Hnd Hk).
Defined.

(** *** The query of the key-only variant *)

Lemma Index_filter_by_key_witness :
  NoDup (map fst open_tickets) /\
  ("_id" ∉ Object_prototype_keys) /\
  Index.q_filter (Index._getQuery (key_request (Some (key "3")) None) (JObject open_tickets)) =
    JObject [("_id", JObject [("$lt", JString (key "3"))]);
             ("status", JString "open");
             ("owner", JObject [("$in", JArray [JString "amy"; JString "bob"])])] /\
  exists props,
    Index.q_filter (Index._getQuery (key_request (Some (key "3")) None) (JObject open_tickets)) =
      JObject props /\
    obj_lookup "_id" props = Some (JObject [("$lt", JString (key "3"))]).
Proof.
  assert (Hnd : NoDup (map fst open_tickets))
    by (apply (bool_decide_unpack _); vm_compute; reflexivity).
  assert (Hk : "_id" ∉ Object_prototype_keys)
    by (apply (bool_decide_unpack _); vm_compute; reflexivity).
  split; [exact Hnd |]. split; [exact Hk |]. split; [vm_compute; reflexivity |].
  destruct (Index_filter_by_key (key_request (Some (key "3")) None) open_tickets "_id" Hnd Hk)
    as (props & Hprops & Hlook).
  exists props. split; [exact Hprops |]. rewrite Hlook. reflexivity.
Defined.

Lemma caller_condition_on_id_replaces_the_cursor_witness :
  NoDup (map fst [("_id", JString (key "9"))]) /\
  obj_lookup "_id" [("_id", JString (key "9"))] = Some (JString (key "9")) /\
  exists props,
    Index.q_filter (Index._getQuery (key_request (Some (key "3")) None)
                      (JObject [("_id", JString (key "9"))])) = JObject props /\
    obj_lookup "_id" props = Some (JString (key "9")).
Proof.
  assert (Hnd : NoDup (map fst [("_id", JString (key "9"))]))
    by (apply (bool_decide_unpack _); vm_compute; reflexivity).
  assert (Hy : obj_lookup "_id" [("_id", JString (key "9"))] = Some (JString (key "9")))
    by reflexivity.
  split; [exact Hnd |]. split; [exact Hy |].
  exact (caller_condition_on_id_replaces_the_cursor
           (key_request (Some (key "3")) None) [("_id", JString (key "9"))]
           (key "3") (JString (key "9")) Hnd eq_refl Hy).
Defined.

(** A cursor made from a document that is not among the people. *)
Lemma cursor_outlives_its_document_witness :
  traversable people (request_by_name asc 2) /\
  key_text (_id (person "9" "bea")) = true /\
  ("name" = "_id" \/
   (exists rank,
      sort_value_ok "name" None rank (person "9" "bea") /\
      forall d, d ∈ people -> selected_by None d = true ->
                sort_value_ok "name" None rank d)) /\
  exists r : Paginated.t doc,
    paginate people
      (with_nextCursor (request_by_name asc 2)
         (Some (encodeCursor (cursor_of_doc "name" (person "9" "bea"))))) = Normal r /\
    Paginated.data r = [person "1" "bob"; person "3" "bob"] /\
    Paginated.totalCount r = 5%nat.
Proof.
  assert (H : traversable people (request_by_name asc 2))
    by (apply people_traversable; lia).
  assert (Hid : key_text (_id (person "9" "bea")) = true)
    by (vm_compute; reflexivity).
  assert (Hval : "name" = "_id" \/
                 (exists rank,
                    sort_value_ok "name" None rank (person "9" "bea") /\
                    forall d, d ∈ people -> selected_by None d = true ->
                              sort_value_ok "name" None rank d)).
  { right. exists 2%nat. split; [split; [reflexivity | eexists; split; reflexivity] |].
    intros d Hd _. unfold people in Hd.
    repeat (apply elem_of_cons in Hd as [->|Hd];
            [split; [reflexivity | eexists; split; reflexivity] |]).
    by apply elem_of_nil in Hd. }
  split; [exact H |]. split; [exact Hid |]. split; [exact Hval |].
  destruct (cursor_outlives_its_document people (request_by_name asc 2) H
              (person "9" "bea") Hid Hval) as (r & Hr & Hdata & _ & Htotal).
  exists r. split; [exact Hr |]. split; [rewrite Hdata | rewrite Htotal]; reflexivity.
Defined.

(** The people named amy, one per page, and all the people around the
    fourth. *)
Lemma Index_walk_visits_each_selected_document_once_witness :
  NoDup (map _id people) /\
  Forall (fun d => isObjectId (JString (_id d)) = true) people /\
  (1 <= 1)%nat /\
  (JObject [("name", JString "amy")] = JUndefined \/
   exists props,
     JObject [("name", JString "amy")] = JObject props /\
     NoDup (map fst props) /\
     Forall (fun member => fst member ∉ Object_prototype_keys) props /\
     obj_lookup "_id" props = None) /\
  (length people < 6)%nat /\
  exists pages : list Index.Paginated.t,
    @Index.follow_next sample_conditions 6 people
      (people_by_key (JObject [("name", JString "amy")]) 1) None = (pages, true) /\
    concat (map Index.Paginated.data pages) = [person "2" "amy"; person "5" "amy"] /\
    length pages = 2%nat.
Proof.
  assert (Hnd : NoDup (map _id people))
    by (apply (bool_decide_unpack _); vm_compute; reflexivity).
  assert (Hids : Forall (fun d => isObjectId (JString (_id d)) = true) people)
    by (repeat (constructor; [vm_compute; reflexivity |]); constructor).
  assert (Hn : (1 <= 1)%nat) by lia.
  assert (Hf : JObject [("name", JString "amy")] = JUndefined \/
               exists props,
                 JObject [("name", JString "amy")] = JObject props /\
                 NoDup (map fst props) /\
                 Forall (fun member => fst member ∉ Object_prototype_keys) props /\
                 obj_lookup "_id" props = None).
  { right. exists [("name", JString "amy")].
    split; [reflexivity |].
    split; [apply (bool_decide_unpack _); vm_compute; reflexivity |].
    split; [|reflexivity].
    constructor; [apply (bool_decide_unpack _); vm_compute; reflexivity | constructor]. }
  assert (Hc : (length people < 6)%nat) by (cbn; lia).
  split; [exact Hnd |]. split; [exact Hids |]. split; [exact Hn |].
  split; [exact Hf |]. split; [exact Hc |].
  destruct (@Index_walk_visits_each_selected_document_once sample_conditions people
              (people_by_key (JObject [("name", JString "amy")]) 1) Hnd Hids Hn Hf 6 Hc)
    as (pages & Hpages & _).
  exists pages. split; [exact Hpages |].
  assert (Hrun : @Index.follow_next sample_conditions 6 people
                   (people_by_key (JObject [("name", JString "amy")]) 1) None =
                 ([Index.Paginated.mk [person "2" "amy"] (Some (key "2")) None;
                   Index.Paginated.mk [person "5" "amy"] None (Some (key "5"))], true))
    by (vm_compute; reflexivity).
  rewrite Hrun in Hpages. injection Hpages as <-. split; reflexivity.
Defined.

Lemma Index_page_before_a_cursor_witness :
  NoDup (map _id people) /\
  Forall (fun d => isObjectId (JString (_id d)) = true) people /\
  (1 <= 2)%nat /\
  ([person "1" "bob"; person "2" "amy"; person "3" "bob"] ++
     person "4" "cat" :: [person "5" "amy"] ≡ₚ
   List.filter (@Index.selects sample_conditions JUndefined) people) /\
  StronglySorted (precedes asc "_id")
    ([person "1" "bob"; person "2" "amy"; person "3" "bob"] ++
       person "4" "cat" :: [person "5" "amy"]) /\
  let r := @Index.paginate sample_conditions people
             {| Index.pagination := {| Index.nextCursor := None;
                                       Index.prevCursor := Some (key "4");
                                       Index.order := asc; Index.limit := 2 |};
                Index.filters := JUndefined |} in
  Index.Paginated.data r = [person "2" "amy"; person "3" "bob"] /\
  Index.Paginated.nextCursor r = Some (key "3") /\
  Index.Paginated.prevCursor r = Some (key "2").
Proof.
  assert (Hnd : NoDup (map _id people))
    by (apply (bool_decide_unpack _); vm_compute; reflexivity).
  assert (Hids : Forall (fun d => isObjectId (JString (_id d)) = true) people)
    by (repeat (constructor; [vm_compute; reflexivity |]); constructor).
  assert (Hn : (1 <= 2)%nat) by lia.
  assert (Hperm : [person "1" "bob"; person "2" "amy"; person "3" "bob"] ++
                    person "4" "cat" :: [person "5" "amy"] ≡ₚ
                  List.filter (@Index.selects sample_conditions JUndefined) people)
    by reflexivity.
  assert (Hsorted : StronglySorted (precedes asc "_id")
                      ([person "1" "bob"; person "2" "amy"; person "3" "bob"] ++
                         person "4" "cat" :: [person "5" "amy"]))
    by (repeat (constructor;
                [| repeat (constructor; [vm_compute; reflexivity |]); constructor]);
        constructor).
  split; [exact Hnd |]. split; [exact Hids |]. split; [exact Hn |].
  split; [exact Hperm |]. split; [exact Hsorted |].
  exact (@Index_page_before_a_cursor sample_conditions people
           (people_by_key JUndefined 2) Hnd Hids Hn (or_introl eq_refl)
           [person "1" "bob"; person "2" "amy"; person "3" "bob"]
           [person "5" "amy"] (person "4" "cat") Hperm Hsorted).
Defined.

Lemma Index_page_after_a_cursor_witness :
  NoDup (map _id people) /\
  Forall (fun d => isObjectId (JString (_id d)) = true) people /\
  (1 <= 2)%nat /\
  ([person "1" "bob"; person "2" "amy"; person "3" "bob"] ++
     person "4" "cat" :: [person "5" "amy"] ≡ₚ
   List.filter (@Index.selects sample_conditions JUndefined) people) /\
  StronglySorted (precedes asc "_id")
    ([person "1" "bob"; person "2" "amy"; person "3" "bob"] ++
       person "4" "cat" :: [person "5" "amy"]) /\
  let r := @Index.paginate sample_conditions people
             {| Index.pagination := {| Index.nextCursor := Some (key "4");
                                       Index.prevCursor := None;
                                       Index.order := asc; Index.limit := 2 |};
                Index.filters := JUndefined |} in
  Index.Paginated.data r = [person "5" "amy"] /\
  Index.Paginated.nextCursor r = None /\
  Index.Paginated.prevCursor r = Some (key "5").
Proof.
  assert (Hnd : NoDup (map _id people))
    by (apply (bool_decide_unpack _); vm_compute; reflexivity).
  assert (Hids : Forall (fun d => isObjectId (JString (_id d)) = true) people)
    by (repeat (constructor; [vm_compute; reflexivity |]); constructor).
  assert (Hn : (1 <= 2)%nat) by lia.
  assert (Hperm : [person "1" "bob"; person "2" "amy"; person "3" "bob"] ++
                    person "4" "cat" :: [person "5" "amy"] ≡ₚ
                  List.filter (@Index.selects sample_conditions JUndefined) people)
    by reflexivity.
  assert (Hsorted : StronglySorted (precedes asc "_id")
                      ([person "1" "bob"; person "2" "amy"; person "3" "bob"] ++
                         person "4" "cat" :: [person "5" "amy"]))
    by (repeat (constructor;
                [| repeat (constructor; [vm_compute; reflexivity |]); constructor]);
        constructor).
  split; [exact Hnd |]. split; [exact Hids |]. split; [exact Hn |].
  split; [exact Hperm |]. split; [exact Hsorted |].
  exact (@Index_page_after_a_cursor sample_conditions people
           (people_by_key JUndefined 2) Hnd Hids Hn (or_introl eq_refl)
           [person "1" "bob"; person "2" "amy"; person "3" "bob"]
           [person "5" "amy"] (person "4" "cat") Hperm Hsorted).
Defined.

